(** * File synchronisation engine: change detection, chunked copy, progress

    A shallow embedding of the sync engine found in [pytest.py] (batch
    variant), [uipytest.py] (first GUI variant, class [transfer]) and
    [uigdrive.py] (tabbed GUI variant, classes [LocalTransfer] and
    [GDriveTransfer]), together with the properties stated about it.

    Python code that touches the file system, the stop event, the shared
    byte counter and the progress queue is written in a small state and
    exception monad over a [World]; [try]/[except] is a combinator of that
    monad.  The thread pool is run under one legal schedule: tasks execute
    one after the other in submission order, and the collecting loop of the
    main thread picks each result up as soon as it is there. *)

From Stdlib Require Import ZArith QArith Qround Strings.Byte Ascii String.
From stdpp Require Import gmap strings list pretty.
Local Open Scope Z_scope.

(** ** hashlib.md5 (RFC 1321)

    The digest used by every variant for the content comparison.  The
    hash object is modelled by the bytes fed to it so far; [hexdigest]
    runs the RFC 1321 compression over them. *)

Module hashlib.

Definition w32 (x : Z) : Z := x mod 2^32.

Definition rotl (x : Z) (c : Z) : Z :=
  w32 (Z.lor (Z.shiftl x c) (Z.shiftr x (32 - c))).

Definition not32 (x : Z) : Z := Z.lxor x 0xffffffff.

Definition S_table : list Z :=
  [7;12;17;22;7;12;17;22;7;12;17;22;7;12;17;22;
   5;9;14;20;5;9;14;20;5;9;14;20;5;9;14;20;
   4;11;16;23;4;11;16;23;4;11;16;23;4;11;16;23;
   6;10;15;21;6;10;15;21;6;10;15;21;6;10;15;21].

Definition K_table : list Z :=
  [0xd76aa478;0xe8c7b756;0x242070db;0xc1bdceee;0xf57c0faf;0x4787c62a;0xa8304613;0xfd469501;
   0x698098d8;0x8b44f7af;0xffff5bb1;0x895cd7be;0x6b901122;0xfd987193;0xa679438e;0x49b40821;
   0xf61e2562;0xc040b340;0x265e5a51;0xe9b6c7aa;0xd62f105d;0x02441453;0xd8a1e681;0xe7d3fbc8;
   0x21e1cde6;0xc33707d6;0xf4d50d87;0x455a14ed;0xa9e3e905;0xfcefa3f8;0x676f02d9;0x8d2a4c8a;
   0xfffa3942;0x8771f681;0x6d9d6122;0xfde5380c;0xa4beea44;0x4bdecfa9;0xf6bb4b60;0xbebfbc70;
   0x289b7ec6;0xeaa127fa;0xd4ef3085;0x04881d05;0xd9d4d039;0xe6db99e5;0x1fa27cf8;0xc4ac5665;
   0xf4292244;0x432aff97;0xab9423a7;0xfc93a039;0x655b59c3;0x8f0ccc92;0xffeff47d;0x85845dd1;
   0x6fa87e4f;0xfe2ce6e0;0xa3014314;0x4e0811a1;0xf7537e82;0xbd3af235;0x2ad7d2bb;0xeb86d391].

Definition le_word (bs : list byte) : Z :=
  foldr (fun b acc => Z.of_N (Byte.to_N b) + 256 * acc) 0 bs.

Fixpoint words (n : nat) (bs : list byte) : list Z :=
  match n with
  | O => []
  | S n' => le_word (take 4 bs) :: words n' (drop 4 bs)
  end.

Definition round (M : list Z) (st : Z * Z * Z * Z) (i : nat) : Z * Z * Z * Z :=
  let '(A, B, C, D) := st in
  let '(F, g) :=
    if (i <? 16)%nat then (Z.lor (Z.land B C) (Z.land (not32 B) D), i)
    else if (i <? 32)%nat then
      (Z.lor (Z.land D B) (Z.land (not32 D) C), ((5 * i + 1) mod 16)%nat)
    else if (i <? 48)%nat then (Z.lxor (Z.lxor B C) D, ((3 * i + 5) mod 16)%nat)
    else (Z.lxor C (Z.lor B (not32 D)), ((7 * i) mod 16)%nat) in
  let F' := w32 (F + A + nth i K_table 0 + nth g M 0) in
  (D, w32 (B + rotl F' (nth i S_table 0)), B, C).

Definition block (st : Z * Z * Z * Z) (bs : list byte) : Z * Z * Z * Z :=
  let '(a0, b0, c0, d0) := st in
  let '(A, B, C, D) := foldl (round (words 16 bs)) st (seq 0 64) in
  (w32 (a0 + A), w32 (b0 + B), w32 (c0 + C), w32 (d0 + D)).

Fixpoint le_bytes (n : nat) (x : Z) : list byte :=
  match n with
  | O => []
  | S n' =>
      match Byte.of_N (Z.to_N (x mod 256)) with
      | Some b => b :: le_bytes n' (x / 256)
      | None => le_bytes n' (x / 256)
      end
  end.

Definition padding (len : nat) : list byte :=
  x80 :: repeat x00 ((119 - len mod 64) mod 64)%nat ++ le_bytes 8 (8 * Z.of_nat len).

Fixpoint blocks (n : nat) (st : Z * Z * Z * Z) (bs : list byte) : Z * Z * Z * Z :=
  match n with
  | O => st
  | S n' => blocks n' (block st (take 64 bs)) (drop 64 bs)
  end.

Definition hex_digit (n : Z) : Ascii.ascii :=
  nth (Z.to_nat n) (list_ascii_of_string "0123456789abcdef") "0"%char.

Definition hex_byte (b : byte) : list Ascii.ascii :=
  let n := Z.of_N (Byte.to_N b) in [hex_digit (n / 16); hex_digit (n mod 16)].

(** The hash object: [md5()] is the empty buffer, [update] appends. *)
Definition md5_new : list byte := [].

Definition update (h chunk : list byte) : list byte := h ++ chunk.

Definition hexdigest (h : list byte) : string :=
  let padded := h ++ padding (length h) in
  let '(a, b, c, d) :=
    blocks (length padded / 64)%nat
           (0x67452301, 0xefcdab89, 0x98badcfe, 0x10325476) padded in
  string_of_list_ascii
    (concat (map hex_byte (le_bytes 4 a ++ le_bytes 4 b ++ le_bytes 4 c ++ le_bytes 4 d))).

End hashlib.

(** ** The Python runtime the engine runs on *)

Module Py.

(** Exceptions the modelled code can meet; [str_exn] is [str(e)]. *)
Inductive exn :=
| OSError (msg : string)
| ZeroDivisionError.

Definition str_exn (e : exn) : string :=
  match e with
  | OSError msg => msg
  | ZeroDivisionError => "division by zero"
  end.

(** A path names a regular file or a directory.  A directory carries what
    [os.walk] yields for it: one [(root, files)] pair per directory of the
    tree, top down.  [mtime] is [st_mtime], a float of seconds: every float
    is a rational, and [int] on it is exact. *)
Inductive Node :=
| RegFile (data : list byte) (mtime : Q) (readable : bool)
| Directory (walk : list (string * list string)) (size : Z) (mtime : Q).

Definition st_size (n : Node) : Z :=
  match n with
  | RegFile data _ _ => Z.of_nat (length data)
  | Directory _ size _ => size
  end.

Definition st_mtime (n : Node) : Q :=
  match n with
  | RegFile _ mtime _ => mtime
  | Directory _ _ mtime => mtime
  end.

(** The read permission [copystat] puts on a file that had [r]. *)
Definition st_readable (r : bool) (n : Node) : bool :=
  match n with
  | RegFile _ _ r' => r'
  | Directory _ _ _ => r
  end.

(** [int(x)] on a float: truncation toward zero. *)
Definition int (x : Q) : Z := Z.quot (Qnum x) (Z.pos (Qden x)).

(** The queue messages ([phase] and the fields the engine fills in; the
    constant [tab_id] of a session is left out). *)
Inductive Event :=
| Downloading (percent : Z) (name : string)
| Status (message : string)
| Done (message : option string)
| Error (message : string)
| Cancelled.

(** An object of the remote store (a Drive file resource). *)
Record GFile := {
  gid : nat;
  title : string;
  parents : option nat;
  is_folder : bool;
  fileSize : Z;
  md5Checksum : option string
}.

(** Everything the engine reads or writes.
    - [stop_event]: [None] when nobody sets the event during the run;
      [Some k] when the next [k] calls of [is_set()] still answer [False]
      and every later one answers [True] (the event is never cleared
      during a run).
    - [clock]: the time the OS stamps on a file that is written.
    - [readonly], [nometa]: paths that cannot be opened for writing, and
      paths on which [shutil.copystat] fails.
    - [current_size] is the cell [current_size[0]] shared by the workers. *)
Record World := {
  fs : gmap string Node;
  readonly : gset string;
  nometa : gset string;
  clock : Q;
  stop_event : option nat;
  progress_queue : list Event;
  current_size : Z;
  drive : list GFile;
  drive_offline : bool
}.

Definition set_fs (f : gmap string Node) (w : World) : World :=
  {| fs := f; readonly := readonly w; nometa := nometa w; clock := clock w;
     stop_event := stop_event w; progress_queue := progress_queue w;
     current_size := current_size w; drive := drive w;
     drive_offline := drive_offline w |}.

Definition set_stop_event (s : option nat) (w : World) : World :=
  {| fs := fs w; readonly := readonly w; nometa := nometa w; clock := clock w;
     stop_event := s; progress_queue := progress_queue w;
     current_size := current_size w; drive := drive w;
     drive_offline := drive_offline w |}.

Definition set_progress_queue (q : list Event) (w : World) : World :=
  {| fs := fs w; readonly := readonly w; nometa := nometa w; clock := clock w;
     stop_event := stop_event w; progress_queue := q;
     current_size := current_size w; drive := drive w;
     drive_offline := drive_offline w |}.

Definition set_current_size (c : Z) (w : World) : World :=
  {| fs := fs w; readonly := readonly w; nometa := nometa w; clock := clock w;
     stop_event := stop_event w; progress_queue := progress_queue w;
     current_size := c; drive := drive w;
     drive_offline := drive_offline w |}.

Definition set_drive (d : list GFile) (w : World) : World :=
  {| fs := fs w; readonly := readonly w; nometa := nometa w; clock := clock w;
     stop_event := stop_event w; progress_queue := progress_queue w;
     current_size := current_size w; drive := d;
     drive_offline := drive_offline w |}.

(** *** The monad: state plus exceptions *)

Inductive Res (A : Type) :=
| Ok (a : A)
| Raise (e : exn).
Arguments Ok {A} a.
Arguments Raise {A} e.

Definition M (A : Type) : Type := World -> Res A * World.

Definition ret {A} (a : A) : M A := fun w => (Ok a, w).

Definition raise {A} (e : exn) : M A := fun w => (Raise e, w).

Definition bind {A B} (m : M A) (k : A -> M B) : M B :=
  fun w => match m w with
           | (Ok a, w') => k a w'
           | (Raise e, w') => (Raise e, w')
           end.

(** [try: m except Exception as e: h e] *)
Definition try {A} (m : M A) (h : exn -> M A) : M A :=
  fun w => match m w with
           | (Ok a, w') => (Ok a, w')
           | (Raise e, w') => h e w'
           end.

Definition get : M World := fun w => (Ok w, w).

Definition modify (f : World -> World) : M unit := fun w => (Ok tt, f w).

End Py.

Export Py.

Declare Scope py_scope.
Delimit Scope py_scope with py.
Notation "x <- m ;; k" := (bind m (fun x => k))
  (at level 100, m at next level, right associativity) : py_scope.
Notation "m ;;; k" := (bind m (fun _ => k))
  (at level 100, right associativity) : py_scope.
Local Open Scope py_scope.

(** *** Operating-system and library calls *)

Module os.

(** [Path.exists()] / [os.path.exists] *)
Definition exists_ (p : string) : M bool :=
  w <- get ;; ret (bool_decide (is_Some (fs w !! p))).

Definition is_file (p : string) : M bool :=
  w <- get ;;
  ret (match fs w !! p with Some (RegFile _ _ _) => true | _ => false end).

Definition is_dir (p : string) : M bool :=
  w <- get ;;
  ret (match fs w !! p with Some (Directory _ _ _) => true | _ => false end).

(** [Path.stat()]: raises when nothing is there. *)
Definition stat (p : string) : M Node :=
  w <- get ;;
  match fs w !! p with
  | Some n => ret n
  | None => raise (OSError ("No such file or directory: " +:+ p))
  end.

(** [os.walk(top)]: nothing for a path that is not a directory. *)
Definition walk (top : string) : M (list (string * list string)) :=
  w <- get ;;
  ret (match fs w !! top with Some (Directory l _ _) => l | _ => [] end).

(** [open(p, "rb")]: the handle is modelled by the bytes still to read. *)
Definition open_rb (p : string) : M (list byte) :=
  w <- get ;;
  match fs w !! p with
  | Some (RegFile data _ true) => ret data
  | Some (RegFile _ _ false) => raise (OSError ("Permission denied: " +:+ p))
  | Some (Directory _ _ _) => raise (OSError ("Is a directory: " +:+ p))
  | None => raise (OSError ("No such file or directory: " +:+ p))
  end.

(** [open(p, "wb")]: creates or truncates, stamped with the clock. *)
Definition open_wb (p : string) : M unit :=
  w <- get ;;
  if bool_decide (p ∈ readonly w) then raise (OSError ("Permission denied: " +:+ p))
  else match fs w !! p with
       | Some (Directory _ _ _) => raise (OSError ("Is a directory: " +:+ p))
       | Some (RegFile _ _ r) => modify (set_fs (<[p := RegFile [] (clock w) r]> (fs w)))
       | None => modify (set_fs (<[p := RegFile [] (clock w) true]> (fs w)))
       end.

(** [f.write(chunk)] on a handle opened by [open_wb]. *)
Definition write (p : string) (chunk : list byte) : M unit :=
  w <- get ;;
  match fs w !! p with
  | Some (RegFile data _ r) =>
      modify (set_fs (<[p := RegFile (data ++ chunk) (clock w) r]> (fs w)))
  | _ => raise (OSError ("Bad file descriptor: " +:+ p))
  end.

(** [Path.mkdir(parents=True, exist_ok=True)]: directories other than
    walked ones are implicit in the flat name space; the call only fails
    when a regular file is in the way. *)
Definition mkdir (p : string) : M unit :=
  w <- get ;;
  match fs w !! p with
  | Some (RegFile _ _ _) => raise (OSError ("File exists: " +:+ p))
  | _ => ret tt
  end.

(** The successive results of [f.read(n)] before the empty one. *)
Fixpoint chunks_aux (fuel n : nat) (l : list byte) : list (list byte) :=
  match fuel with
  | O => []
  | S fuel' =>
      match l with
      | [] => []
      | _ => take n l :: chunks_aux fuel' n (drop n l)
      end
  end.

Definition chunks (n : Z) (l : list byte) : list (list byte) :=
  chunks_aux (length l) (Z.to_nat n) l.

End os.

Module shutil.

(** [shutil.copystat(src, dst)]: the timestamps and the permission bits
    of [src] go onto [dst]. *)
Definition copystat (src dst : string) : M unit :=
  w <- get ;;
  match fs w !! src, fs w !! dst with
  | Some ns, Some (RegFile data _ r) =>
      if bool_decide (dst ∈ nometa w)
      then raise (OSError ("Operation not permitted: " +:+ dst))
      else modify (set_fs (<[dst := RegFile data (st_mtime ns) (st_readable r ns)]> (fs w)))
  | Some ns, Some (Directory l sz _) =>
      if bool_decide (dst ∈ nometa w)
      then raise (OSError ("Operation not permitted: " +:+ dst))
      else modify (set_fs (<[dst := Directory l sz (st_mtime ns)]> (fs w)))
  | _, _ => raise (OSError ("No such file or directory: " +:+ src))
  end.

(** [shutil.copy2(src, dst)]: whole-file copy, then [copystat]. *)
Definition copy2 (src dst : string) : M unit :=
  if bool_decide (src = dst) then raise (OSError ("are the same file: " +:+ src))
  else
    data <- os.open_rb src ;;
    os.open_wb dst ;;;
    os.write dst data ;;;
    copystat src dst.

End shutil.

(** [threading.Event.is_set()] on the session's stop event. *)
Definition is_set : M bool :=
  w <- get ;;
  match stop_event w with
  | None => ret false
  | Some O => ret true
  | Some (S k) => modify (set_stop_event (Some k)) ;;; ret false
  end.

(** [progress_queue.put(ev)] *)
Definition put (ev : Event) : M unit :=
  modify (fun w => set_progress_queue (progress_queue w ++ [ev]) w).

(** [int(a / b * 100)] on Python ints [a], [b]: true division raises on a
    zero divisor.  The quotient is taken over the rationals. *)
Definition percent_of (a b : Z) : M Z :=
  if b =? 0 then raise ZeroDivisionError
  else ret (int (inject_Z a / inject_Z b * inject_Z 100)).

(** Path arithmetic of [pathlib] / [os.path]. *)
Definition joinpath (p c : string) : string :=
  if String.eqb c "." then p else p +:+ "/" +:+ c.

Fixpoint basename_aux (s acc : string) : string :=
  match s with
  | EmptyString => acc
  | String c s' =>
      if Ascii.eqb c "/"%char then basename_aux s' EmptyString
      else basename_aux s' (acc +:+ String c EmptyString)
  end.

(** [Path.name] / [os.path.basename] *)
Definition name (p : string) : string := basename_aux p EmptyString.

(** [os.path.relpath(root, top)] for a [root] that [os.walk(top)] yields. *)
Definition relpath (root top : string) : string :=
  if String.eqb root top then "."
  else substring (S (String.length top)) (String.length root - S (String.length top)) root.

(** A task result: the pair [(status, message)]. *)
Inductive Tag := updated | skipped | error | cancelled.

Definition Result : Type := Tag * string.

Definition tag_eqb (a b : Tag) : bool :=
  match a, b with
  | updated, updated | skipped, skipped | error, error | cancelled, cancelled => true
  | _, _ => false
  end.

(** [Path.parent] / [os.path.dirname] *)
Definition parent (p : string) : string :=
  substring 0 (String.length p - S (String.length (name p))) p.

(** [any(r[0] == "error" for r in results)] *)
Definition any_error (results : list Result) : bool :=
  existsb (fun r => tag_eqb (fst r) error) results.

(** The session object: [self.src], [self.dst], [self.workers]. *)
Record Session := {
  src : string;
  dst : string;
  workers : nat
}.

(** ** pytest.py: the batch variant *)

Module Pytest.

Definition file_hash (path : string) : M string :=
  f <- os.open_rb path ;;
  ret (hashlib.hexdigest
         (foldl hashlib.update hashlib.md5_new (os.chunks 65536 f))).

Definition needs_update (src dst : string) : M bool :=
  ex <- os.exists_ dst ;;
  if negb ex then ret true
  else
    ss <- os.stat src ;;
    sd <- os.stat dst ;;
    if negb (st_size ss =? st_size sd) then ret true
    else
      ms <- os.stat src ;;
      md <- os.stat dst ;;
      if int (st_mtime ms) >? int (st_mtime md) then ret true
      else
        hs <- file_hash src ;;
        hd <- file_hash dst ;;
        ret (negb (String.eqb hs hd)).

(** The [while True] loop of [copy_file_with_progress] over the chunks
    [fsrc.read(chunk_size)] yields; the [tqdm] bar only draws. *)
Fixpoint write_chunks (dst : string) (cs : list (list byte)) : M unit :=
  match cs with
  | [] => ret tt
  | chunk :: cs' => os.write dst chunk ;;; write_chunks dst cs'
  end.

Definition copy_file_with_progress (src dst : string) (position : nat) : M Result :=
  try (os.mkdir (parent dst) ;;;
       _ <- os.stat src ;;
       fsrc <- os.open_rb src ;;
       os.open_wb dst ;;;
       write_chunks dst (os.chunks (1024 * 1024) fsrc) ;;;
       shutil.copystat src dst ;;;
       ret (updated, "Updated: " +:+ name src))
      (fun e => ret (error, "Error " +:+ src +:+ ": " +:+ str_exn e)).

Definition process_file (src dst : string) (position : nat) : M Result :=
  nu <- needs_update src dst ;;
  if nu then copy_file_with_progress src dst position
  else ret (skipped, "Skipped: " +:+ name src).

End Pytest.

(** ** uipytest.py: class [transfer] *)

Module Uipytest.

Definition CHUNK_SIZE : Z := 1024 * 1024.

Module transfer.

Definition file_hash (path : string) : M string :=
  f <- os.open_rb path ;;
  ret (hashlib.hexdigest
         (foldl hashlib.update hashlib.md5_new (os.chunks 65536 f))).

(** The first [try] block either returns ([Some]) or falls through. *)
Definition needs_update (src_path dst_path : string) : M bool :=
  ex <- os.exists_ dst_path ;;
  if negb ex then ret true
  else
    r <- try (ss <- os.stat src_path ;;
              sd <- os.stat dst_path ;;
              if negb (st_size ss =? st_size sd) then ret (Some true)
              else
                ms <- os.stat src_path ;;
                md <- os.stat dst_path ;;
                if int (st_mtime ms) >? int (st_mtime md) then ret (Some true)
                else ret None)
             (fun _ => ret None) ;;
    match r with
    | Some b => ret b
    | None =>
        try (hs <- file_hash src_path ;;
             hd <- file_hash dst_path ;;
             ret (negb (String.eqb hs hd)))
            (fun _ => ret true)
    end.

(** The [while True] loop over the chunks [fsrc.read(CHUNK_SIZE)] yields;
    [Some r] when the loop body returns [r], [None] when it breaks. *)
Fixpoint copy_loop (src_file dst_file : string) (totalsize : Z)
    (cs : list (list byte)) : M (option Result) :=
  st <- is_set ;;
  if st then ret (Some (cancelled, "Cancelled: " +:+ src_file))
  else
    match cs with
    | [] => ret None
    | chunk :: cs' =>
        os.write dst_file chunk ;;;
        modify (fun w => set_current_size (current_size w + Z.of_nat (length chunk)) w) ;;;
        w <- get ;;
        pct <- percent_of (current_size w) totalsize ;;
        put (Downloading pct (name src_file)) ;;;
        copy_loop src_file dst_file totalsize cs'
    end.

Definition copy_file_with_progress (src_file dst_file : string) (totalsize : Z)
    : M Result :=
  st <- is_set ;;
  if st then ret (cancelled, "Cancelled: " +:+ src_file)
  else
    try (os.mkdir (parent dst_file) ;;;
         _ <- os.stat src_file ;;
         fsrc <- os.open_rb src_file ;;
         os.open_wb dst_file ;;;
         r <- copy_loop src_file dst_file totalsize (os.chunks CHUNK_SIZE fsrc) ;;
         match r with
         | Some res => ret res
         | None =>
             try (shutil.copystat src_file dst_file) (fun _ => ret tt) ;;;
             ret (updated, "Updated: " +:+ src_file)
         end)
        (fun e => ret (error, "Error copying " +:+ src_file +:+ ": " +:+ str_exn e)).

Definition process_file (src_file dst_file : string) (totalsize : Z) : M Result :=
  st <- is_set ;;
  if st then ret (cancelled, "Cancelled: " +:+ src_file)
  else
    try (nu <- needs_update src_file dst_file ;;
         if nu then copy_file_with_progress src_file dst_file totalsize
         else
           w <- get ;;
           pct <- (if totalsize =? 0 then ret 100
                   else percent_of (current_size w) totalsize) ;;
           put (Downloading pct (name src_file)) ;;;
           ret (skipped, "Skipped: " +:+ src_file))
        (fun e => ret (error, "Error processing " +:+ src_file +:+ ": " +:+ str_exn e)).

(** The two nested [for] loops over [os.walk(self.src)]. *)
Fixpoint enum_files (top dst_root root : string) (files : list string)
    (acc : list (string * string) * Z) : M (list (string * string) * Z) :=
  match files with
  | [] => ret acc
  | f :: files' =>
      let rel := relpath root top in
      let s := joinpath root f in
      let d := joinpath (joinpath dst_root rel) f in
      totalsize <- try (n <- os.stat s ;; ret (snd acc + st_size n))
                       (fun _ => ret (snd acc)) ;;
      enum_files top dst_root root files' (fst acc ++ [(s, d)], totalsize)
  end.

Fixpoint enum_walk (top dst_root : string) (walked : list (string * list string))
    (acc : list (string * string) * Z) : M (list (string * string) * Z) :=
  match walked with
  | [] => ret acc
  | (root, files) :: walked' =>
      acc' <- enum_files top dst_root root files acc ;;
      enum_walk top dst_root walked' acc'
  end.

(** Futures that are never collected still run before the executor's
    [with] block is left. *)
Fixpoint drain (totalsize : Z) (tasks : list (string * string)) : M unit :=
  match tasks with
  | [] => ret tt
  | (s, d) :: tasks' =>
      try (process_file s d totalsize ;;; ret tt) (fun _ => ret tt) ;;;
      drain totalsize tasks'
  end.

(** [for fut in futures: ... results.append(res); if stop: break] *)
Fixpoint collect (totalsize : Z) (tasks : list (string * string))
    (results : list Result) : M (list Result) :=
  match tasks with
  | [] => ret results
  | (s, d) :: tasks' =>
      res <- try (process_file s d totalsize)
                 (fun e => ret (error, "Worker exception: " +:+ str_exn e)) ;;
      st <- is_set ;;
      if st then drain totalsize tasks' ;;; ret (results ++ [res])
      else collect totalsize tasks' (results ++ [res])
  end.

Definition sync_folder (self : Session) : M (list Result) :=
  let dst_root := joinpath (dst self) (name (src self)) in
  os.mkdir dst_root ;;;
  walked <- os.walk (src self) ;;
  acc <- enum_walk (src self) dst_root walked ([], 0) ;;
  let tasks := fst acc in
  let totalsize := snd acc in
  let totalsize :=
    if (totalsize =? 0) && negb (bool_decide (tasks = [])) then 1 else totalsize in
  modify (set_current_size 0) ;;;
  collect totalsize tasks [].

Definition sync_file (self : Session) : M (list Result) :=
  let dst_file := joinpath (dst self) (name (src self)) in
  totalsize <- try (n <- os.stat (src self) ;; ret (st_size n)) (fun _ => ret 1) ;;
  modify (set_current_size 0) ;;;
  res <- process_file (src self) dst_file totalsize ;;
  ret [res].

Definition run (self : Session) : M unit :=
  try (ex <- os.exists_ (src self) ;;
       if negb ex then put (Error ("Source does not exist: " +:+ src self))
       else
         isf <- os.is_file (src self) ;;
         isd <- os.is_dir (src self) ;;
         if isf || isd then
           results <- (if isf then sync_file self else sync_folder self) ;;
           st <- is_set ;;
           if st then put Cancelled
           else if any_error results
                then put (Error "Some files failed; check console")
                else put (Done None)
         else put (Error ("Invalid source path: " +:+ src self)))
      (fun e => put (Error (str_exn e))).

End transfer.

(** *** The window: class [App] *)

Module App.

(** The window.  A button is [true] when its state is ['normal'];
    [stop_event] is the flag of the [threading.Event]; [worker] is the
    session of the thread object the window holds, if any; [dialogs]
    are the message boxes shown so far, with title and text. *)
Record App := {
  status_label : string;
  progress : Z;
  start_btn : bool;
  stop_btn : bool;
  stop_event : bool;
  worker : option Session;
  dialogs : list (string * string)
}.

Definition nl : string := String (Ascii.ascii_of_nat 10) EmptyString.

(** How a handler ends. *)
Inductive Outcome :=
| Returned
| TypeError (message : string).

(** One pass of the [while True] loop of [_process_queue]: the phases
    ['downloading'], ['done'] and ['error'] have a branch, every other
    message is dropped. *)
Definition process_msg (app : App) (msg : Event) : App :=
  match msg with
  | Downloading pct nm =>
      {| status_label := "Copying(" +:+ pretty pct +:+ "%): " +:+ nm;
         progress := pct;
         start_btn := start_btn app; stop_btn := stop_btn app;
         stop_event := stop_event app; worker := worker app;
         dialogs := dialogs app |}
  | Done _ =>
      {| status_label := "Finished"; progress := 100;
         start_btn := true; stop_btn := false;
         stop_event := stop_event app; worker := None;
         dialogs := dialogs app |}
  | Error msgtxt =>
      {| status_label := "Error: " +:+ msgtxt; progress := progress app;
         start_btn := true; stop_btn := false;
         stop_event := stop_event app; worker := None;
         dialogs := dialogs app ++
                    [("Transfer error", "An error occurred:" +:+ nl +:+ msgtxt)] |}
  | _ => app
  end.

(** [_process_queue] on the messages the queue holds. *)
Definition _process_queue (app : App) (queue : list Event) : App :=
  foldl process_msg app queue.

(** [cancel_transfer] *)
Definition cancel_transfer (app : App) : App :=
  match worker app with
  | None => app
  | Some _ =>
      {| status_label := "Cancelling..."; progress := progress app;
         start_btn := start_btn app; stop_btn := false;
         stop_event := true; worker := worker app;
         dialogs := dialogs app |}
  end.

(** [start_transfer], with [src] and [dst] the two entries after
    [strip()].  The constructor [transfer] has five parameters after
    [self] and none has a default; the call gives four, so it raises
    [TypeError] before [self.worker] is assigned and before any thread is
    started. *)
Definition start_transfer (src dst : string) (app : App) : App * Outcome :=
  if String.eqb src "" || String.eqb dst "" then
    ({| status_label := status_label app; progress := progress app;
        start_btn := start_btn app; stop_btn := stop_btn app;
        stop_event := stop_event app; worker := worker app;
        dialogs := dialogs app ++ [("Missing Folder", "Please select a folder.")] |},
     Returned)
  else
    ({| status_label := "Starting..."; progress := 0;
        start_btn := false; stop_btn := true;
        stop_event := false; worker := worker app;
        dialogs := dialogs app |},
     TypeError "__init__() missing 1 required positional argument: 'workers'").

(** [App.__init__] *)
Definition init : App :=
  {| status_label := "Idle"; progress := 0; start_btn := true; stop_btn := false;
     stop_event := false; worker := None; dialogs := [] |}.

End App.

End Uipytest.

(** ** uigdrive.py: classes [LocalTransfer] and [GDriveTransfer] *)

Module Uigdrive.

Definition CHUNK_SIZE : Z := 1024 * 1024.
Definition LARGE_FILE_THRESHOLD : Z := 10 * 1024 * 1024.

Definition get_file_hash (path : string) : M string :=
  f <- os.open_rb path ;;
  ret (hashlib.hexdigest
         (foldl hashlib.update hashlib.md5_new (os.chunks 65536 f))).

Module LocalTransfer.

Definition needs_update (src_path dst_path : string) : M bool :=
  ex <- os.exists_ dst_path ;;
  if negb ex then ret true
  else
    r <- try (ss <- os.stat src_path ;;
              sd <- os.stat dst_path ;;
              if negb (st_size ss =? st_size sd) then ret (Some true)
              else
                ms <- os.stat src_path ;;
                md <- os.stat dst_path ;;
                if int (st_mtime ms) >? int (st_mtime md) then ret (Some true)
                else ret None)
             (fun _ => ret (Some true)) ;;
    match r with
    | Some b => ret b
    | None =>
        try (hs <- get_file_hash src_path ;;
             hd <- get_file_hash dst_path ;;
             ret (negb (String.eqb hs hd)))
            (fun _ => ret true)
    end.

(** The [while True] loop of the large-file branch; [Some r] when the
    body returns [r], [None] when it breaks on the empty read. *)
Fixpoint copy_loop (src_file dst_file : string) (totalsize : Z)
    (cs : list (list byte)) : M (option Result) :=
  st <- is_set ;;
  if st then ret (Some (cancelled, "Cancelled: " +:+ src_file))
  else
    match cs with
    | [] => ret None
    | chunk :: cs' =>
        os.write dst_file chunk ;;;
        modify (fun w => set_current_size (current_size w + Z.of_nat (length chunk)) w) ;;;
        w <- get ;;
        pct <- percent_of (current_size w) totalsize ;;
        put (Downloading pct (name src_file)) ;;;
        copy_loop src_file dst_file totalsize cs'
    end.

Definition copy_file_with_progress (src_file dst_file : string) (totalsize : Z)
    : M Result :=
  st <- is_set ;;
  if st then ret (cancelled, "Cancelled: " +:+ src_file)
  else
    try (os.mkdir (parent dst_file) ;;;
         n <- os.stat src_file ;;
         let file_size := st_size n in
         if LARGE_FILE_THRESHOLD <=? file_size then
           fsrc <- os.open_rb src_file ;;
           os.open_wb dst_file ;;;
           r <- copy_loop src_file dst_file totalsize (os.chunks CHUNK_SIZE fsrc) ;;
           match r with
           | Some res => ret res
           | None =>
               try (shutil.copystat src_file dst_file) (fun _ => ret tt) ;;;
               ret (updated, "Updated: " +:+ src_file)
           end
         else
           shutil.copy2 src_file dst_file ;;;
           modify (fun w => set_current_size (current_size w + file_size) w) ;;;
           w <- get ;;
           pct <- percent_of (current_size w) totalsize ;;
           put (Downloading pct (name src_file)) ;;;
           ret (updated, "Updated: " +:+ src_file))
        (fun e => ret (error, "Error copying " +:+ src_file +:+ ": " +:+ str_exn e)).

Definition process_file (src_file dst_file : string) (totalsize : Z) : M Result :=
  st <- is_set ;;
  if st then ret (cancelled, "Cancelled: " +:+ src_file)
  else
    try (nu <- needs_update src_file dst_file ;;
         if nu then copy_file_with_progress src_file dst_file totalsize
         else
           w <- get ;;
           pct <- (if totalsize =? 0 then ret 100
                   else percent_of (current_size w) totalsize) ;;
           put (Downloading pct ("(Skipped) " +:+ name src_file)) ;;;
           ret (skipped, "Skipped: " +:+ src_file))
        (fun e => ret (error, "Error processing " +:+ src_file +:+ ": " +:+ str_exn e)).

Fixpoint enum_files (top dst_root root : string) (files : list string)
    (acc : list (string * string) * Z) : M (list (string * string) * Z) :=
  match files with
  | [] => ret acc
  | f :: files' =>
      let rel := relpath root top in
      let s := joinpath root f in
      let d := joinpath (joinpath dst_root rel) f in
      totalsize <- try (n <- os.stat s ;; ret (snd acc + st_size n))
                       (fun _ => ret (snd acc)) ;;
      enum_files top dst_root root files' (fst acc ++ [(s, d)], totalsize)
  end.

Fixpoint enum_walk (top dst_root : string) (walked : list (string * list string))
    (acc : list (string * string) * Z) : M (list (string * string) * Z) :=
  match walked with
  | [] => ret acc
  | (root, files) :: walked' =>
      acc' <- enum_files top dst_root root files acc ;;
      enum_walk top dst_root walked' acc'
  end.

(** Futures that are never collected still run before the executor's
    [with] block is left. *)
Fixpoint drain (totalsize : Z) (tasks : list (string * string)) : M unit :=
  match tasks with
  | [] => ret tt
  | (s, d) :: tasks' =>
      try (process_file s d totalsize ;;; ret tt) (fun _ => ret tt) ;;;
      drain totalsize tasks'
  end.

(** [for fut in futures: ... results.append(res); if stop: break] *)
Fixpoint collect (totalsize : Z) (tasks : list (string * string))
    (results : list Result) : M (list Result) :=
  match tasks with
  | [] => ret results
  | (s, d) :: tasks' =>
      res <- try (process_file s d totalsize)
                 (fun e => ret (error, "Worker exception: " +:+ str_exn e)) ;;
      st <- is_set ;;
      if st then drain totalsize tasks' ;;; ret (results ++ [res])
      else collect totalsize tasks' (results ++ [res])
  end.

Definition sync_folder (self : Session) : M (list Result) :=
  let dst_root := joinpath (dst self) (name (src self)) in
  os.mkdir dst_root ;;;
  walked <- os.walk (src self) ;;
  acc <- enum_walk (src self) dst_root walked ([], 0) ;;
  let tasks := fst acc in
  let totalsize := snd acc in
  let totalsize :=
    if (totalsize =? 0) && negb (bool_decide (tasks = [])) then 1 else totalsize in
  modify (set_current_size 0) ;;;
  collect totalsize tasks [].

Definition sync_file (self : Session) : M (list Result) :=
  let dst_file := joinpath (dst self) (name (src self)) in
  totalsize <- try (n <- os.stat (src self) ;; ret (st_size n)) (fun _ => ret 1) ;;
  modify (set_current_size 0) ;;;
  res <- process_file (src self) dst_file totalsize ;;
  ret [res].

Definition run (self : Session) : M unit :=
  try (ex <- os.exists_ (src self) ;;
       if negb ex then put (Error ("Source does not exist: " +:+ src self))
       else
         isf <- os.is_file (src self) ;;
         isd <- os.is_dir (src self) ;;
         if isf || isd then
           results <- (if isf then sync_file self else sync_folder self) ;;
           st <- is_set ;;
           if st then put Cancelled
           else if any_error results
                then put (Error "Some files failed; check console")
                else put (Done None)
         else put (Error ("Invalid source path: " +:+ src self)))
      (fun e => put (Error (str_exn e))).

End LocalTransfer.

(** *** The remote store as [pydrive2] presents it *)

Module GoogleDrive.

Definition fresh_id (d : list GFile) : nat := S (list_max (map gid d)).

(** [ListFile({'q': "title='t' and mimeType='...folder' and trashed=false"})] *)
Definition list_folders (t : string) : M (list GFile) :=
  w <- get ;;
  if drive_offline w then raise (OSError "ApiRequestError")
  else ret (filter (fun g => is_folder g = true /\ title g = t) (drive w)).

(** [ListFile({'q': "'id' in parents and trashed=false"})] *)
Definition list_children (folder : nat) : M (list GFile) :=
  w <- get ;;
  if drive_offline w then raise (OSError "ApiRequestError")
  else ret (filter (fun g => parents g = Some folder) (drive w)).

(** [CreateFile({'title': t, 'mimeType': '...folder'}).Upload()] *)
Definition upload_folder (t : string) : M GFile :=
  w <- get ;;
  if drive_offline w then raise (OSError "ApiRequestError")
  else
    let g := {| gid := fresh_id (drive w); title := t; parents := None;
                is_folder := true; fileSize := 0; md5Checksum := None |} in
    modify (set_drive (drive w ++ [g])) ;;; ret g.

(** [CreateFile({'title': t, 'parents': [{'id': folder}]})], then
    [SetContentFile(path)] and [Upload()]: the resource has no id of
    its own, so the store inserts a new object. *)
Definition upload_file (t : string) (folder : nat) (path : string) : M GFile :=
  content <- os.open_rb path ;;
  w <- get ;;
  if drive_offline w then raise (OSError "ApiRequestError")
  else
    let g := {| gid := fresh_id (drive w); title := t; parents := Some folder;
                is_folder := false; fileSize := Z.of_nat (length content);
                md5Checksum := Some (hashlib.hexdigest content) |} in
    modify (set_drive (drive w ++ [g])) ;;; ret g.

End GoogleDrive.

Module GDriveTransfer.

(** One entry of the [remote_files] dict. *)
Record RemoteInfo := {
  r_id : nat;
  r_size : Z;
  r_md5 : string
}.

(** [for file in file_list: if 'md5Checksum' in file: remote_files[...] = ...] *)
Definition remote_index (file_list : list GFile) : gmap string RemoteInfo :=
  foldl (fun m file =>
           match md5Checksum file with
           | Some h => <[title file := {| r_id := gid file; r_size := fileSize file;
                                          r_md5 := h |}]> m
           | None => m
           end) ∅ file_list.

(** The closure [check_and_upload_file]; the [nonlocal] counters
    [(uploaded_count, skipped_count)] are passed in and handed back. *)
Definition check_and_upload_file (folder : nat)
    (remote_files : gmap string RemoteInfo) (total_files : Z)
    (counts : Z * Z) (local_path : string) : M (Z * Z) :=
  st <- is_set ;;
  if st then ret counts
  else
    try (let file_name := name local_path in
         n <- os.stat local_path ;;
         let local_size := st_size n in
         local_md5 <- get_file_hash local_path ;;
         let same :=
           match remote_files !! file_name with
           | Some info => (local_size =? r_size info) && String.eqb local_md5 (r_md5 info)
           | None => false
           end in
         if same then
           let counts' := (fst counts, snd counts + 1) in
           pct <- percent_of (fst counts' + snd counts') total_files ;;
           put (Downloading pct ("(Skipped) " +:+ file_name)) ;;;
           ret counts'
         else
           GoogleDrive.upload_file file_name folder local_path ;;;
           let counts' := (fst counts + 1, snd counts) in
           pct <- percent_of (fst counts' + snd counts') total_files ;;
           put (Downloading pct file_name) ;;;
           ret counts')
        (fun e =>
           put (Error ("Failed to process " +:+ name local_path +:+ ": " +:+ str_exn e)) ;;;
           ret counts).

(** The pool: every future is awaited, none is skipped. *)
Fixpoint upload_all (folder : nat) (remote_files : gmap string RemoteInfo)
    (total_files : Z) (counts : Z * Z) (paths : list string) : M (Z * Z) :=
  match paths with
  | [] => ret counts
  | p :: paths' =>
      counts' <- check_and_upload_file folder remote_files total_files counts p ;;
      upload_all folder remote_files total_files counts' paths'
  end.

Definition run (self : Session) : M unit :=
  isd <- os.is_dir (src self) ;;
  if negb isd then put (Error "Source must be a folder for Google Drive upload.")
  else
    try (put (Status "Finding destination folder on Drive...") ;;;
         let folder_name := name (src self) in
         file_list <- GoogleDrive.list_folders folder_name ;;
         gdrive_folder <-
           match file_list with
           | g :: _ =>
               put (Status ("Found existing folder: '" +:+ folder_name +:+ "'")) ;;;
               ret g
           | [] =>
               put (Status ("Creating new folder: '" +:+ folder_name +:+ "'...")) ;;;
               GoogleDrive.upload_folder folder_name
           end ;;
         put (Status "Checking for existing files...") ;;;
         file_list <- GoogleDrive.list_children (gid gdrive_folder) ;;
         let remote_files := remote_index file_list in
         walked <- os.walk (src self) ;;
         let local_files_to_check :=
           flat_map (fun rf => map (joinpath (fst rf)) (snd rf)) walked in
         let total_files := Z.of_nat (length local_files_to_check) in
         if total_files =? 0 then put (Done (Some "No files to upload."))
         else
           counts <- upload_all (gid gdrive_folder) remote_files total_files (0, 0)
                                local_files_to_check ;;
           st <- is_set ;;
           if st then put Cancelled
           else put (Done (Some ("Upload Complete! " +:+ pretty (fst counts) +:+
                                 " uploaded, " +:+ pretty (snd counts) +:+
                                 " skipped. Folder: " +:+
                                 "https://drive.google.com/drive/folders/" +:+
                                 pretty (gid gdrive_folder))))
        )
        (fun e => put (Error ("An error occurred: " +:+ str_exn e))).

End GDriveTransfer.

(** *** The window: class [App] and its [TabState]s *)

Module App.

(** [state.worker_thread]: the thread object a tab holds. *)
Inductive Thread :=
| LocalThread (self : Session)
| GDriveThread (src : string).

(** One tab.  A button is [true] when its state is ['normal'];
    [stop_event] is the flag of the tab's [threading.Event];
    [gdrive_service] tells whether the tab holds a service object;
    [login_btn] is the text and the state of the login button of a tab
    that has one. *)
Record TabState := {
  tab_name : string;
  status_label : string;
  progress_bar : Z;
  start_btn : bool;
  stop_btn : bool;
  stop_event : bool;
  worker_thread : option Thread;
  gdrive_service : bool;
  login_btn : option (string * bool)
}.

(** What a queue message carries besides its [tab_id]. *)
Inductive Payload :=
| FromWorker (ev : Event)
| LoginSuccess
| LoginError (message : string).

Record Msg := {
  tab_id : option string;
  payload : Payload
}.

(** The window: the tabs, and the message boxes shown so far, each with
    its title and its text. *)
Record App := {
  tab_states : gmap string TabState;
  dialogs : list (string * string)
}.

Definition nl : string := String (Ascii.ascii_of_nat 10) EmptyString.

Definition with_status (s : string) (st : TabState) : TabState :=
  {| tab_name := tab_name st; status_label := s; progress_bar := progress_bar st;
     start_btn := start_btn st; stop_btn := stop_btn st; stop_event := stop_event st;
     worker_thread := worker_thread st; gdrive_service := gdrive_service st;
     login_btn := login_btn st |}.

Definition with_bar (v : Z) (st : TabState) : TabState :=
  {| tab_name := tab_name st; status_label := status_label st; progress_bar := v;
     start_btn := start_btn st; stop_btn := stop_btn st; stop_event := stop_event st;
     worker_thread := worker_thread st; gdrive_service := gdrive_service st;
     login_btn := login_btn st |}.

Definition with_start (b : bool) (st : TabState) : TabState :=
  {| tab_name := tab_name st; status_label := status_label st;
     progress_bar := progress_bar st;
     start_btn := b; stop_btn := stop_btn st; stop_event := stop_event st;
     worker_thread := worker_thread st; gdrive_service := gdrive_service st;
     login_btn := login_btn st |}.

Definition with_stop (b : bool) (st : TabState) : TabState :=
  {| tab_name := tab_name st; status_label := status_label st;
     progress_bar := progress_bar st;
     start_btn := start_btn st; stop_btn := b; stop_event := stop_event st;
     worker_thread := worker_thread st; gdrive_service := gdrive_service st;
     login_btn := login_btn st |}.

Definition with_stop_event (b : bool) (st : TabState) : TabState :=
  {| tab_name := tab_name st; status_label := status_label st;
     progress_bar := progress_bar st;
     start_btn := start_btn st; stop_btn := stop_btn st; stop_event := b;
     worker_thread := worker_thread st; gdrive_service := gdrive_service st;
     login_btn := login_btn st |}.

Definition with_worker (t : option Thread) (st : TabState) : TabState :=
  {| tab_name := tab_name st; status_label := status_label st;
     progress_bar := progress_bar st;
     start_btn := start_btn st; stop_btn := stop_btn st; stop_event := stop_event st;
     worker_thread := t; gdrive_service := gdrive_service st;
     login_btn := login_btn st |}.

Definition with_login (b : option (string * bool)) (st : TabState) : TabState :=
  {| tab_name := tab_name st; status_label := status_label st;
     progress_bar := progress_bar st;
     start_btn := start_btn st; stop_btn := stop_btn st; stop_event := stop_event st;
     worker_thread := worker_thread st; gdrive_service := gdrive_service st;
     login_btn := b |}.

(** The three lines that end a session in the window. *)
Definition rearm (st : TabState) : TabState :=
  with_worker None (with_stop false (with_start true st)).

(** One branch of the [if phase == ...] chain, on the tab the message
    names.  The result is the tab, the boxes shown, and whether the
    branch ran to its end: [login_btn.config] raises on a tab without a
    login button. *)
Definition handle (st : TabState) (p : Payload)
    : TabState * list (string * string) * bool :=
  match p with
  | FromWorker (Downloading pct nm) =>
      (with_status ("Uploading (" +:+ pretty pct +:+ "%): " +:+ nm) (with_bar pct st),
       [], true)
  | FromWorker (Done message) =>
      (rearm (with_bar 100 (with_status (default "Finished" message) st)), [], true)
  | FromWorker (Status message) => (with_status message st, [], true)
  | FromWorker Cancelled => (rearm (with_status "Cancelled by user" st), [], true)
  | LoginSuccess =>
      let st1 := with_status "Successfully logged in!" st in
      match login_btn st1 with
      | None => (st1, [], false)
      | Some _ => (with_start true (with_login (Some ("Logged In", false)) st1), [], true)
      end
  | LoginError msgtxt =>
      let st1 := with_status ("Login Failed: " +:+ msgtxt) st in
      match login_btn st1 with
      | None => (st1, [], false)
      | Some _ =>
          (with_login (Some ("Google Login", true)) st1,
           [("Login Error", "Failed to log in to Google Drive:" +:+ nl +:+ msgtxt)], true)
      end
  | FromWorker (Error msgtxt) =>
      (rearm (with_status ("Error: " +:+ msgtxt) st),
       [("Transfer Error",
         "An error occurred in '" +:+ tab_name st +:+ "':" +:+ nl +:+ msgtxt)], true)
  end.

(** The body of the [while True] loop for one message. *)
Definition process_msg (app : App) (msg : Msg) : App * bool :=
  match tab_id msg with
  | None => (app, true)
  | Some tab =>
      if String.eqb tab "" then (app, true)
      else match tab_states app !! tab with
           | None => (app, true)
           | Some st =>
               let r := handle st (payload msg) in
               ({| tab_states := <[tab := fst (fst r)]> (tab_states app);
                   dialogs := dialogs app ++ snd (fst r) |}, snd r)
           end
  end.

(** [_process_queue] on the messages the queue holds: it takes them in
    order until the queue is empty or a branch raises, and hands back the
    window and the messages it left in the queue. *)
Fixpoint _process_queue (app : App) (queue : list Msg) : App * list Msg :=
  match queue with
  | [] => (app, [])
  | msg :: rest =>
      let r := process_msg app msg in
      if snd r then _process_queue (fst r) rest else (fst r, rest)
  end.

(** [cancel_transfer(state)] *)
Definition cancel_transfer (st : TabState) : TabState :=
  match worker_thread st with
  | None => st
  | Some _ => with_stop false (with_status "Cancelling..." (with_stop_event true st))
  end.

(** [start_transfer(state)], with [src] and [dst] the two entries after
    [strip()], taken as resolved paths, and [WORKERS] the constant the
    module computes from the number of processors.  The result is the
    tab, the box shown if any, and the thread that has been started if
    any. *)
Definition start_transfer (w : World) (WORKERS : nat) (src dst : string) (st : TabState)
    : TabState * list (string * string) * option Thread :=
  if String.eqb src "" || negb (bool_decide (is_Some (fs w !! src))) then
    (st, [("Missing Path", "Please select a valid source folder.")], None)
  else
    let st1 := with_stop_event false
                 (with_stop true
                    (with_start false
                       (with_status "Starting..." (with_bar 0 st)))) in
    if String.eqb (tab_name st1) "GDrive Transfer" then
      if negb (gdrive_service st1) then
        (with_stop false (with_start true st1),
         [("Not Logged In", "Please log in to Google Drive first.")], None)
      else
        let t := GDriveThread src in
        (with_worker (Some t) st1, [], Some t)
    else
      if String.eqb dst "" then
        (with_stop false (with_start true st1),
         [("Missing Path", "Please select a destination.")], None)
      else
        let t := LocalThread (Build_Session src dst WORKERS) in
        (with_worker (Some t) st1, [], Some t).

(** [TabState(name)] as [create_tab1] and [create_tab2] leave it. *)
Definition create_tab1 (tab_name : string) : TabState :=
  {| tab_name := tab_name; status_label := "Idle"; progress_bar := 0;
     start_btn := true; stop_btn := false; stop_event := false;
     worker_thread := None; gdrive_service := false; login_btn := None |}.

Definition create_tab2 (tab_name : string) : TabState :=
  {| tab_name := tab_name; status_label := "Please log in to Google Drive.";
     progress_bar := 0;
     start_btn := false; stop_btn := false; stop_event := false;
     worker_thread := None; gdrive_service := false;
     login_btn := Some ("Google Login", true) |}.

(** [App.__init__] *)
Definition init : App :=
  {| tab_states := <["GDrive Transfer" := create_tab2 "GDrive Transfer"]>
                     (<["Local Transfer" := create_tab1 "Local Transfer"]> ∅);
     dialogs := [] |}.

End App.

End Uigdrive.

(** ** filetransferer.py: the folder copy with one progress bar *)

Module Filetransferer.

(** The [tqdm] bar: its [total] and its position [n]. *)
Record Bar := {
  total : Z;
  n : Z
}.

(** [copy_file(s, d, pbar, lock)], handing back the bar. *)
Definition copy_file (s d : string) (pbar : Bar) : M Bar :=
  os.mkdir (parent d) ;;;
  shutil.copy2 s d ;;;
  ns <- os.stat s ;;
  ret {| total := total pbar; n := n pbar + st_size ns |}.

(** [thread.map(...)] inside the [with] block: every call runs; the
    iterator of results is dropped, and with it what the calls raise. *)
Fixpoint map_files (files : list (string * string)) (pbar : Bar) : M Bar :=
  match files with
  | [] => ret pbar
  | (s, d) :: files' =>
      pbar' <- try (copy_file s d pbar) (fun _ => ret pbar) ;;
      map_files files' pbar'
  end.

(** [foldercopy(src, dst)], handing back the bar as it stands when the
    [with] blocks are left. *)
Definition foldercopy (src dst : string) : M Bar :=
  nsrc <- os.stat src ;;
  let size := st_size nsrc in
  let dst_folder := joinpath dst (name src) in
  walked <- os.walk src ;;
  let files :=
    flat_map (fun rf =>
                map (fun f => (joinpath (fst rf) f,
                               joinpath (joinpath dst_folder (relpath (fst rf) src)) f))
                    (snd rf)) walked in
  let totalsize := foldl (fun t _ => t + size) 0 files in
  map_files files {| total := totalsize; n := 0 |}.

End Filetransferer.

(** ** Vocabulary of the statements *)

(** The content digest of the node at a path: the hex string for a
    readable regular file, nothing when reading it raises. *)
Definition digest_of (n : option Node) : option string :=
  match n with
  | Some (RegFile data _ true) => Some (hashlib.hexdigest data)
  | _ => None
  end.

(** All three variants of [needs_update] answer [b] and leave the world
    as it is. *)
Definition needs_update_returns (w : World) (s d : string) (b : bool) : Prop :=
  Pytest.needs_update s d w = (Ok b, w) /\
  Uipytest.transfer.needs_update s d w = (Ok b, w) /\
  Uigdrive.LocalTransfer.needs_update s d w = (Ok b, w).


(** Whether the next [is_set()] answers [True]. *)
Definition stop_is_set (w : World) : bool :=
  match stop_event w with Some O => true | _ => false end.

(** The answer of the two GUI variants in one expression: they never
    raise and never touch the world. *)
Definition needs_update_answer (w : World) (s d : string) : bool :=
  match fs w !! d with
  | None => true
  | Some nd =>
      match fs w !! s with
      | None => true
      | Some ns =>
          if negb (st_size ns =? st_size nd) then true
          else if int (st_mtime ns) >? int (st_mtime nd) then true
          else match digest_of (Some ns), digest_of (Some nd) with
               | Some hs, Some hd => negb (String.eqb hs hd)
               | _, _ => true
               end
      end
  end.

(** A computation that returns, whatever the world. *)
Definition total {A} (m : M A) : Prop :=
  forall w, exists a w', m w = (Ok a, w').

(** [int(a / b * 100)] where it is defined. *)
Definition pct (a b : Z) : Z := int (inject_Z a / inject_Z b * inject_Z 100).

(** The world [w] with its file system, stop event, queue and counter
    replaced. *)
Definition upd (w : World) (f : gmap string Node) (stop : option nat)
    (q : list Event) (c : Z) : World :=
  {| fs := f; readonly := readonly w; nometa := nometa w; clock := clock w;
     stop_event := stop; progress_queue := q; current_size := c;
     drive := drive w; drive_offline := drive_offline w |}.

(** One [Downloading] event per chunk, at the percent the counter has
    reached once the chunk is added to it. *)
Fixpoint chunk_events (nm : string) (totalsize cur : Z) (cs : list (list byte))
    : list Event :=
  match cs with
  | [] => []
  | c :: cs' =>
      let cur' := cur + Z.of_nat (length c) in
      Downloading (pct cur' totalsize) nm :: chunk_events nm totalsize cur' cs'
  end.

(** The chunks a loop writes when the stop event is in state [stop] at
    its first check: all of them, or the first [k]. *)
Definition written (stop : option nat) (cs : list (list byte)) : list (list byte) :=
  match stop with None => cs | Some k => take k cs end.

(** The stop event after [checks] more calls of [is_set()]. *)
Definition stop_after (stop : option nat) (checks : nat) : option nat :=
  match stop with None => None | Some k => Some (k - checks)%nat end.

(** Whether one of the next [n + 1] checks finds the event set. *)
Definition cancelled_within (stop : option nat) (n : nat) : bool :=
  match stop with None => false | Some k => (k <=? n)%nat end.

(** [mkdir(parents=True, exist_ok=True)] succeeds on [p]. *)
Definition not_a_file (w : World) (p : string) : Prop :=
  match fs w !! p with Some (RegFile _ _ _) => False | _ => True end.

(** [open(p, "wb")] succeeds. *)
Definition writable (w : World) (p : string) : Prop :=
  (p ∉ readonly w) /\
  (match fs w !! p with Some (Directory _ _ _) => False | _ => True end).

(** The read permission of what [open(p, "wb")] leaves at [p]. *)
Definition dst_flag (w : World) (p : string) : bool :=
  match fs w !! p with Some (RegFile _ _ r) => r | _ => true end.

(** The node a chunked copy leaves at the destination: the chunks written
    so far when it was cancelled; else the whole content, with the
    source's metadata unless [copystat] failed. *)
Definition streamed_node (w : World) (d : string) (data : list byte) (mt : Q)
    (ws : list (list byte)) (was_cancelled : bool) : Node :=
  if was_cancelled then RegFile (concat ws) (clock w) (dst_flag w d)
  else if bool_decide (d ∈ nometa w) then RegFile data (clock w) (dst_flag w d)
  else RegFile data mt true.

(** A result that reports neither an Error nor a cancellation. *)
Definition ok_tag (r : Result) : Prop := fst r = updated \/ fst r = skipped.

(** Whatever [copystat] does, a copy of [s] onto [d] ends with a readable
    destination that is not older than its source: either the metadata can
    be copied, or the destination stays readable and the source is not
    stamped later than the clock. *)
Definition metadata_settles (w : World) (s d : string) : Prop :=
  d ∉ nometa w \/
  (dst_flag w d = true /\
   forall ns, fs w !! s = Some ns -> int (st_mtime ns) <= int (clock w)).

(** The task list the two loops over [os.walk] build. *)
Definition tasks_of (top dst_root : string) (walked : list (string * list string))
    : list (string * string) :=
  flat_map (fun rf =>
              map (fun f => (joinpath (fst rf) f,
                             joinpath (joinpath dst_root (relpath (fst rf) top)) f))
                  (snd rf)) walked.

(** A run in which every task is skipped. *)
Definition skipped_results (tasks : list (string * string)) : list Result :=
  map (fun t => (skipped, "Skipped: " +:+ fst t)) tasks.

(** The objects titled [t] directly under [folder]. *)
Definition titled (folder : nat) (t : string) (d : list GFile) : list GFile :=
  filter (fun g => parents g = Some folder /\ title g = t) d.

(** *** Invariants of a run *)

Definition is_downloading (ev : Event) : Prop :=
  match ev with Downloading _ _ => True | _ => False end.

(** The events that end a session. *)
Definition is_terminal (ev : Event) : Prop :=
  match ev with Done _ | Error _ | Cancelled => True | _ => False end.

(** What a step of the local engine may do to the world when the paths it
    may write are [ds]: everything else in the file system stays, and so
    do the permissions, the clock and the remote store; a stop event that
    is never set stays so, one that is set stays set; the queue only
    grows, by [Downloading] events; with [mono], the byte counter does
    not decrease. *)
Definition evolves (mono : bool) (ds : list string) (w w' : World) : Prop :=
  (forall p, p ∉ ds -> fs w' !! p = fs w !! p) /\
  readonly w' = readonly w /\ nometa w' = nometa w /\ clock w' = clock w /\
  drive w' = drive w /\ drive_offline w' = drive_offline w /\
  (stop_event w = None -> stop_event w' = None) /\
  (stop_event w = Some O -> stop_event w' = Some O) /\
  (mono = true -> current_size w <= current_size w') /\
  exists evs, progress_queue w' = progress_queue w ++ evs /\ Forall is_downloading evs.

Definition keeps (mono : bool) (ds : list string) {A} (m : M A) : Prop :=
  forall w, evolves mono ds w (snd (m w)).

(** What [os.walk(p)] yields in [w]. *)
Definition listing (w : World) (p : string) : list (string * list string) :=
  match fs w !! p with Some (Directory l _ _) => l | _ => [] end.

(** The destination paths of the tasks a session has in [w]. *)
Definition destinations (self : Session) (w : World) : list string :=
  match fs w !! src self with
  | Some (RegFile _ _ _) => [joinpath (dst self) (name (src self))]
  | _ => map snd (tasks_of (src self) (joinpath (dst self) (name (src self)))
                           (listing w (src self)))
  end.

(** Every value the computation can return satisfies [P]. *)
Definition yields {A} (P : A -> Prop) (m : M A) : Prop :=
  forall w a w', m w = (Ok a, w') -> P a.

(** What a result says about the file [s] it belongs to. *)
Definition reports (s : string) (r : Result) : Prop :=
  match fst r with
  | updated => snd r = "Updated: " +:+ s
  | skipped => snd r = "Skipped: " +:+ s
  | cancelled => snd r = "Cancelled: " +:+ s
  | error => exists e, snd r = "Error copying " +:+ s +:+ ": " +:+ e \/
                       snd r = "Error processing " +:+ s +:+ ": " +:+ e
  end.

(** *** The remote store *)

(** An object that is a plain file directly under [folder]. *)
Definition uploaded_under (folder : nat) (g : GFile) : Prop :=
  parents g = Some folder /\ is_folder g = false.

(** What an upload step may do: the local files, the permissions and the
    connection stay; the store grows at its end by files under [folder],
    one per count of [uploaded_count]; at most [n] files are counted as
    uploaded or skipped; the queue only grows. *)
Definition uploads (folder : nat) (n : nat) (counts : Z * Z) (w : World)
    (counts' : Z * Z) (w' : World) : Prop :=
  fs w' = fs w /\ drive_offline w' = drive_offline w /\
  (stop_event w = None -> stop_event w' = None) /\
  (exists new, drive w' = drive w ++ new /\ Forall (uploaded_under folder) new /\
               fst counts' = fst counts + Z.of_nat (length new)) /\
  snd counts <= snd counts' /\
  (fst counts' + snd counts') - (fst counts + snd counts) <= Z.of_nat n /\
  (exists evs, progress_queue w' = progress_queue w ++ evs).

(** *** The window and the queue *)

(** The events a run has added to the queue. *)
Definition new_events (w w' : World) : list Event :=
  drop (length (progress_queue w)) (progress_queue w').

(** The messages of a worker, as the queue holds them for tab [tab]. *)
Definition tagged (tab : string) (evs : list Event) : list Uigdrive.App.Msg :=
  map (fun ev => {| Uigdrive.App.tab_id := Some tab;
                    Uigdrive.App.payload := Uigdrive.App.FromWorker ev |}) evs.

(** [Thread.run] of the thread a tab has started. *)
Definition thread_run (t : Uigdrive.App.Thread) : M unit :=
  match t with
  | Uigdrive.App.LocalThread self => Uigdrive.LocalTransfer.run self
  | Uigdrive.App.GDriveThread s =>
      Uigdrive.GDriveTransfer.run {| src := s; dst := ""; workers := 0 |}
  end.

(** A tab on which a new transfer can be started, and only that. *)
Definition rearmed (st : Uigdrive.App.TabState) : Prop :=
  Uigdrive.App.start_btn st = true /\ Uigdrive.App.stop_btn st = false /\
  Uigdrive.App.worker_thread st = None.

(** The tab after the worker events [evs]. *)
Definition after_events (st : Uigdrive.App.TabState) (evs : list Event)
    : Uigdrive.App.TabState :=
  foldl (fun st ev => fst (fst (Uigdrive.App.handle st (Uigdrive.App.FromWorker ev)))) st evs.

(** The progress events of a pool in which every file is counted, from
    [counted] files counted so far. *)
Fixpoint count_events (total counted : Z) (names : list string) : list Event :=
  match names with
  | [] => []
  | nm :: names' =>
      Downloading (pct (counted + 1) total) nm :: count_events total (counted + 1) names'
  end.

(** *** Regular files, listings and paths *)

(** Outside the paths [ds], the regular files of [w'] are those of [w],
    with their bytes and metadata.  Nothing is said of directories. *)
Definition same_files (ds : list string) (w w' : World) : Prop :=
  forall p, p ∉ ds -> forall data mt r,
    fs w' !! p = Some (RegFile data mt r) <-> fs w !! p = Some (RegFile data mt r).

(** No directory is in the way at [p]. *)
Definition not_a_directory (w : World) (p : string) : Prop :=
  match fs w !! p with Some (Directory _ _ _) => False | _ => True end.


(** The path [p] is [top] or lies below it. *)
Definition under (top p : string) : bool :=
  String.eqb p top || String.prefix (top +:+ "/") p.


(** Every value the computation can return satisfies [P] in the world
    it returns in. *)
Definition yields_in {A} (P : A -> World -> Prop) (m : M A) : Prop :=
  forall w a w', m w = (Ok a, w') -> P a w'.

(** A Cancelled result comes with the stop event set. *)
Definition cancelled_is_set (r : Result) (w : World) : Prop :=
  fst r = cancelled -> stop_event w = Some O.

(** ** Sample worlds *)

Module Samples.

Definition bytes_of (s : string) : list byte := list_byte_of_string s.

Definition world (files : gmap string Node) (stop : option nat) : World :=
  {| fs := files; readonly := ∅; nometa := ∅; clock := 100 # 1;
     stop_event := stop; progress_queue := []; current_size := 0;
     drive := []; drive_offline := false |}.

(** Source and destination identical, destination stamped later. *)
Definition w_same : World :=
  world {[ "/s/a" := RegFile (bytes_of "abc") (5 # 1) true;
           "/d/a" := RegFile (bytes_of "abc") (7 # 1) true ]} None.

(** Same size, destination newer, different content. *)
Definition w_newer : World :=
  world {[ "/s/a" := RegFile (bytes_of "a") (5 # 1) true;
           "/d/a" := RegFile (bytes_of "b") (10 # 1) true ]} None.

(** The source cannot be read; the destination has its size and is not
    older. *)
Definition w_unreadable : World :=
  world {[ "/s/a" := RegFile (bytes_of "abc") (5 # 1) false;
           "/d/a" := RegFile (bytes_of "xyz") (7 # 1) true ]} None.



(** The same folder with a first file that cannot be read. *)
Definition w_two_files_unreadable : World :=
  world {[ "/s" := Directory [("/s", ["a"; "b"])] 4096 (1 # 1);
           "/s/a" := RegFile (bytes_of "abc") (5 # 1) false;
           "/s/b" := RegFile (bytes_of "defg") (6 # 1) true ]} (Some 2%nat).



(** A single empty file. *)
Definition w_empty_file : World :=
  world {[ "/s/e" := RegFile [] (5 # 1) true ]} None.

(** A folder whose only file is already in place at the destination. *)
Definition w_synced : World :=
  world {[ "/s" := Directory [("/s", ["a"])] 4096 (1 # 1);
           "/s/a" := RegFile (bytes_of "hello") (5 # 1) true;
           "/d/s/a" := RegFile (bytes_of "hello") (5 # 1) true ]} None.

(** A folder of two files of five bytes, one of them already in place. *)
Definition w_half_synced : World :=
  world {[ "/s" := Directory [("/s", ["a"; "b"])] 4096 (1 # 1);
           "/s/a" := RegFile (bytes_of "hello") (5 # 1) true;
           "/s/b" := RegFile (bytes_of "world") (5 # 1) true;
           "/d/s/a" := RegFile (bytes_of "hello") (5 # 1) true ]} None.

(** A folder with an empty file and a file of five bytes, nothing at
    the destination. *)
Definition w_fresh : World :=
  world {[ "/s" := Directory [("/s", ["e"; "a"])] 4096 (1 # 1);
           "/s/e" := RegFile [] (4 # 1) true;
           "/s/a" := RegFile (bytes_of "hello") (5 # 1) true ]} None.

(** A Drive folder (id 1) that holds a.txt with other content than the
    local a.txt. *)
Definition w_drive : World :=
  {| fs := {[ "/s/a.txt" := RegFile (bytes_of "newer") (5 # 1) true ]};
     readonly := ∅; nometa := ∅; clock := 100 # 1; stop_event := None;
     progress_queue := []; current_size := 0;
     drive := [ {| gid := 1; title := "s"; parents := None; is_folder := true;
                   fileSize := 0; md5Checksum := None |};
                {| gid := 2; title := "a.txt"; parents := Some 1%nat; is_folder := false;
                   fileSize := 3;
                   md5Checksum := Some (hashlib.hexdigest (bytes_of "old")) |} ];
     drive_offline := false |}.

Definition session (s d : string) : Session :=
  {| src := s; dst := d; workers := 4 |}.


(** A Drive folder (id 1) that holds a.txt with the content of the local
    a.txt. *)
Definition w_drive_synced : World :=
  {| fs := {[ "/s/a.txt" := RegFile (bytes_of "newer") (5 # 1) true ]};
     readonly := ∅; nometa := ∅; clock := 100 # 1; stop_event := None;
     progress_queue := []; current_size := 0;
     drive := [ {| gid := 1; title := "s"; parents := None; is_folder := true;
                   fileSize := 0; md5Checksum := None |};
                {| gid := 2; title := "a.txt"; parents := Some 1%nat; is_folder := false;
                   fileSize := 5;
                   md5Checksum := Some (hashlib.hexdigest (bytes_of "newer")) |} ];
     drive_offline := false |}.



(** A folder whose only file is stamped later than the clock, at a
    destination on which [copystat] fails. *)
Definition w_future : World :=
  {| fs := {[ "/s" := Directory [("/s", ["a"])] 4096 (1 # 1);
              "/s/a" := RegFile (bytes_of "abc") (200 # 1) true ]};
     readonly := ∅; nometa := {[ "/d/s/a" ]}; clock := 100 # 1; stop_event := None;
     progress_queue := []; current_size := 0; drive := []; drive_offline := false |}.


End Samples.

(** * Properties *)

(** ** The digest and the path functions on known values *)

(** The first entries of the RFC 1321 test suite. *)
Example md5_empty :
  hashlib.hexdigest [] = "d41d8cd98f00b204e9800998ecf8427e".
Proof. vm_compute. reflexivity. Qed.

Example md5_abc :
  hashlib.hexdigest (Samples.bytes_of "abc") = "900150983cd24fb0d6963f7d28e17f72".
Proof. vm_compute. reflexivity. Qed.

Example md5_message_digest :
  hashlib.hexdigest (Samples.bytes_of "message digest")
  = "f96b697d7cb7938d525a2f31aaf161d0".
Proof. vm_compute. reflexivity. Qed.

(** Eighty digits: more than one 64-byte block. *)
Example md5_two_blocks :
  hashlib.hexdigest
    (Samples.bytes_of
       "12345678901234567890123456789012345678901234567890123456789012345678901234567890")
  = "57edf4a22be3c955ac49da2e2107b67a".
Proof. vm_compute. reflexivity. Qed.

Example path_functions :
  name "/s/sub/b.bin" = "b.bin" /\ parent "/d/s/sub/b.bin" = "/d/s/sub" /\
  relpath "/s/sub" "/s" = "sub" /\ relpath "/s" "/s" = "." /\
  joinpath (joinpath "/d/s" ".") "a.txt" = "/d/s/a.txt" /\
  joinpath (joinpath "/d/s" "sub") "b.bin" = "/d/s/sub/b.bin".
Proof. vm_compute. repeat split; reflexivity. Qed.

Example int_truncates :
  int (7 # 2) = 3 /\ int (-7 # 2) = -3 /\ int (5 # 1) = 5.
Proof. vm_compute. repeat split; reflexivity. Qed.

(** ** Reading a file in blocks *)

Section Streaming.

Lemma chunks_aux_concat (n : nat) : (0 < n)%nat ->
  forall (fuel : nat) (l : list byte), (length l <= fuel)%nat ->
  concat (os.chunks_aux fuel n l) = l.
Proof.
  intros Hn fuel. induction fuel as [|fuel IH]; intros l Hl.
  - destruct l; simpl in *; [done | lia].
  - destruct l as [|x l]; [done|].
    change (os.chunks_aux (S fuel) n (x :: l))
      with (take n (x :: l) :: os.chunks_aux fuel n (drop n (x :: l))).
    rewrite concat_cons, IH, take_drop; [done|].
    rewrite length_drop. simpl in *. lia.
Qed.

Lemma chunks_concat (n : Z) (l : list byte) : 0 < n -> concat (os.chunks n l) = l.
Proof. intros Hn. apply chunks_aux_concat; lia. Qed.

Lemma foldl_update (cs : list (list byte)) (h : list byte) :
  foldl hashlib.update h cs = h ++ concat cs.
Proof.
  revert h. induction cs as [|c cs IH]; intros h; simpl.
  - by rewrite app_nil_r.
  - rewrite IH. unfold hashlib.update. by rewrite <- app_assoc.
Qed.

(** Hashing block by block gives the digest of the whole content. *)
Lemma streamed_digest (l : list byte) :
  hashlib.hexdigest (foldl hashlib.update hashlib.md5_new (os.chunks 65536 l))
  = hashlib.hexdigest l.
Proof. rewrite foldl_update, chunks_concat; [done | lia]. Qed.

End Streaming.

(** ** Truncation of timestamps *)

Lemma int_floor_ceiling (x : Q) :
  int x = if 0 <=? Qnum x then Qfloor x else Qceiling x.
Proof.
  destruct x as [a b]. unfold int, Qceiling, Qfloor. cbn.
  destruct (Z.leb_spec 0 a) as [Ha|Ha].
  - apply Z.quot_div_nonneg; lia.
  - rewrite <- (Z.opp_involutive a) at 1. rewrite Z.quot_opp_l by lia.
    rewrite Z.quot_div_nonneg by lia. reflexivity.
Qed.

Lemma int_mono (x y : Q) : (x <= y)%Q -> int x <= int y.
Proof.
  intros Hxy. rewrite !int_floor_ceiling.
  assert (Hs : 0 <= Qnum x -> 0 <= Qnum y).
  { unfold Qle in Hxy. intros Hx. 
    assert (0 <= Qnum x * Z.pos (Qden y)) by lia. 
    assert (0 <= Qnum y * Z.pos (Qden x)) by lia. nia. }
  destruct (Z.leb_spec 0 (Qnum x)) as [Hx|Hx], (Z.leb_spec 0 (Qnum y)) as [Hy|Hy].
  - by apply Qfloor_resp_le.
  - lia.
  - assert (Qceiling x <= 0).
    { change 0 with (Qceiling 0). apply Qceiling_resp_le. unfold Qle. cbn. lia. }
    assert (0 <= Qfloor y).
    { change 0 with (Qfloor 0). apply Qfloor_resp_le. unfold Qle. cbn. lia. }
    lia.
  - by apply Qceiling_resp_le.
Qed.

(** ** Change detection *)

Lemma open_rb_spec w p :
  os.open_rb p w =
  match fs w !! p with
  | Some (RegFile data _ true) => (Ok data, w)
  | Some (RegFile _ _ false) => (Raise (OSError ("Permission denied: " +:+ p)), w)
  | Some (Directory _ _ _) => (Raise (OSError ("Is a directory: " +:+ p)), w)
  | None => (Raise (OSError ("No such file or directory: " +:+ p)), w)
  end.
Proof.
  unfold os.open_rb, bind, get. destruct (fs w !! p) as [[? ? []|]|]; reflexivity.
Qed.

Lemma pytest_file_hash_spec w p :
  Pytest.file_hash p w =
  match os.open_rb p w with
  | (Ok data, w') => (Ok (hashlib.hexdigest data), w')
  | (Raise e, w') => (Raise e, w')
  end.
Proof.
  unfold Pytest.file_hash, bind, ret.
  destruct (os.open_rb p w) as [[data|e] w']; [|done].
  by rewrite streamed_digest.
Qed.

Lemma transfer_file_hash_spec w p :
  Uipytest.transfer.file_hash p w =
  match os.open_rb p w with
  | (Ok data, w') => (Ok (hashlib.hexdigest data), w')
  | (Raise e, w') => (Raise e, w')
  end.
Proof.
  unfold Uipytest.transfer.file_hash, bind, ret.
  destruct (os.open_rb p w) as [[data|e] w']; [|done].
  by rewrite streamed_digest.
Qed.

Lemma get_file_hash_spec w p :
  Uigdrive.get_file_hash p w =
  match os.open_rb p w with
  | (Ok data, w') => (Ok (hashlib.hexdigest data), w')
  | (Raise e, w') => (Raise e, w')
  end.
Proof.
  unfold Uigdrive.get_file_hash, bind, ret.
  destruct (os.open_rb p w) as [[data|e] w']; [|done].
  by rewrite streamed_digest.
Qed.

Lemma local_needs_update_spec w s d :
  Uigdrive.LocalTransfer.needs_update s d w = (Ok (needs_update_answer w s d), w).
Proof.
  unfold Uigdrive.LocalTransfer.needs_update, needs_update_answer,
    os.exists_, os.stat, bind, get, ret, try, raise.
  destruct (fs w !! d) as [nd|] eqn:Hd; cbn; [|done].
  destruct (fs w !! s) as [ns|] eqn:Hs; cbn; [|done].
  rewrite Hd; cbn.
  destruct (st_size ns =? st_size nd); cbn; [|done].
  rewrite Hs, Hd; cbn.
  destruct (int (st_mtime ns) >? int (st_mtime nd)); cbn; [done|].
  rewrite !get_file_hash_spec, !open_rb_spec, Hs.
  destruct ns as [sdata smt [|]|]; cbn; try done.
  rewrite get_file_hash_spec, open_rb_spec, Hd.
  destruct nd as [ddata dmt [|]|]; cbn; done.
Qed.

Lemma transfer_needs_update_spec w s d :
  Uipytest.transfer.needs_update s d w = (Ok (needs_update_answer w s d), w).
Proof.
  unfold Uipytest.transfer.needs_update, needs_update_answer,
    os.exists_, os.stat, bind, get, ret, try, raise.
  destruct (fs w !! d) as [nd|] eqn:Hd; cbn.
  2:{ done. }
  destruct (fs w !! s) as [ns|] eqn:Hs; cbn.
  2:{ rewrite transfer_file_hash_spec, open_rb_spec, Hs. done. }
  rewrite Hd; cbn.
  destruct (st_size ns =? st_size nd); cbn; [|done].
  rewrite Hs, Hd; cbn.
  destruct (int (st_mtime ns) >? int (st_mtime nd)); cbn; [done|].
  rewrite !transfer_file_hash_spec, !open_rb_spec, Hs.
  destruct ns as [sdata smt [|]|]; cbn; try done.
  rewrite transfer_file_hash_spec, open_rb_spec, Hd.
  destruct nd as [ddata dmt [|]|]; cbn; done.
Qed.

(** The batch variant agrees whenever both files can be read. *)
Lemma pytest_needs_update_spec w s d ns :
  fs w !! s = Some ns ->
  (forall nd, fs w !! d = Some nd ->
     st_size ns = st_size nd -> int (st_mtime ns) <= int (st_mtime nd) ->
     is_Some (digest_of (Some ns)) /\ is_Some (digest_of (Some nd))) ->
  Pytest.needs_update s d w = (Ok (needs_update_answer w s d), w).
Proof.
  intros Hs Hread.
  unfold Pytest.needs_update, needs_update_answer,
    os.exists_, os.stat, bind, get, ret, raise.
  destruct (fs w !! d) as [nd|] eqn:Hd; cbn; [|done].
  rewrite Hs, Hd; cbn.
  destruct (Z.eqb_spec (st_size ns) (st_size nd)) as [Hsz|Hsz]; cbn; [|done].
  rewrite Hs, Hd; cbn.
  destruct (Z.gtb_spec (int (st_mtime ns)) (int (st_mtime nd))) as [Hmt|Hmt]; cbn; [done|].
  destruct (Hread nd eq_refl Hsz Hmt) as [[hs Hhs] [hd Hhd]].
  rewrite !pytest_file_hash_spec, !open_rb_spec, Hs.
  destruct ns as [sdata smt [|]|]; try discriminate. cbn.
  rewrite pytest_file_hash_spec, open_rb_spec, Hd.
  destruct nd as [ddata dmt [|]|]; try discriminate. done.
Qed.

Lemma needs_update_returns_answer w s d ns :
  fs w !! s = Some ns ->
  (forall nd, fs w !! d = Some nd ->
     st_size ns = st_size nd -> int (st_mtime ns) <= int (st_mtime nd) ->
     is_Some (digest_of (Some ns)) /\ is_Some (digest_of (Some nd))) ->
  needs_update_returns w s d (needs_update_answer w s d).
Proof.
  intros Hs Hread. repeat split.
  - by eapply pytest_needs_update_spec.
  - apply transfer_needs_update_spec.
  - apply local_needs_update_spec.
Qed.

(** C1. [needs_update] decides by four checks, stopping at the first that
    says "copy": the destination is missing; else the sizes differ; else
    the source's whole-second modification time is strictly greater; else
    the streamed MD5 digests differ (and it answers false when they are
    equal).  The first three answers need no read of either file. *)
Theorem needs_update_four_checks (w : World) (s d : string) (ns : Node) :
  fs w !! s = Some ns ->
  (fs w !! d = None -> needs_update_returns w s d true) /\
  (forall nd, fs w !! d = Some nd ->
     st_size ns <> st_size nd -> needs_update_returns w s d true) /\
  (forall nd, fs w !! d = Some nd ->
     st_size ns = st_size nd -> int (st_mtime ns) > int (st_mtime nd) ->
     needs_update_returns w s d true) /\
  (forall nd hs hd, fs w !! d = Some nd ->
     st_size ns = st_size nd -> int (st_mtime ns) <= int (st_mtime nd) ->
     digest_of (Some ns) = Some hs -> digest_of (Some nd) = Some hd ->
     (hs <> hd -> needs_update_returns w s d true) /\
     (hs = hd -> needs_update_returns w s d false)).
Proof.
  intros Hs. split; [|split; [|split]].
  - intros Hd.
    replace true with (needs_update_answer w s d)
      by (unfold needs_update_answer; by rewrite Hd).
    apply (needs_update_returns_answer w s d ns Hs). intros nd Hnd. congruence.
  - intros nd Hd Hsz.
    replace true with (needs_update_answer w s d).
    + apply (needs_update_returns_answer w s d ns Hs). intros nd' Hnd'. congruence.
    + unfold needs_update_answer. rewrite Hd, Hs.
      destruct (Z.eqb_spec (st_size ns) (st_size nd)); [done|reflexivity].
  - intros nd Hd Hsz Hmt.
    replace true with (needs_update_answer w s d).
    + apply (needs_update_returns_answer w s d ns Hs). intros nd' Hnd'.
      assert (nd' = nd) by congruence. subst nd'. lia.
    + unfold needs_update_answer. rewrite Hd, Hs, Hsz, Z.eqb_refl. cbn.
      destruct (Z.gtb_spec (int (st_mtime ns)) (int (st_mtime nd))); [done|lia].
  - intros nd hs hd Hd Hsz Hmt Hhs Hhd.
    assert (Hans : needs_update_answer w s d = negb (String.eqb hs hd)).
    { unfold needs_update_answer. rewrite Hd, Hs, Hsz, Z.eqb_refl. cbn [negb].
      destruct (Z.gtb_spec (int (st_mtime ns)) (int (st_mtime nd))); [lia|].
      by rewrite Hhs, Hhd. }
    assert (Hret : needs_update_returns w s d (negb (String.eqb hs hd))).
    { rewrite <- Hans. apply (needs_update_returns_answer w s d ns Hs).
      intros nd' Hnd'. assert (nd' = nd) by congruence. subst nd'.
      rewrite Hhs, Hhd. eauto. }
    split; intros Hne.
    + apply String.eqb_neq in Hne. by rewrite Hne in Hret.
    + apply String.eqb_eq in Hne. by rewrite Hne in Hret.
Qed.

Lemma needs_update_four_checks_witness :
  fs Samples.w_same !! "/s/a" = Some (RegFile (Samples.bytes_of "abc") (5 # 1) true) /\
  needs_update_returns Samples.w_same "/s/a" "/d/a" false.
Proof.
  split; [reflexivity|].
  refine (proj2 (proj2 (proj2 (proj2 (needs_update_four_checks Samples.w_same "/s/a" "/d/a"
            _ eq_refl))) (RegFile (Samples.bytes_of "abc") (7 # 1) true)
            _ _ eq_refl eq_refl _ eq_refl eq_refl) eq_refl).
  vm_compute. discriminate.
Defined.

(** C6 (as stated, refuted).  A destination newer than its source, of the
    same size but with other content, is copied again: the
    modification-time check lets it pass, the digest check does not. *)
Lemma dst_newer_is_recopied :
  (st_mtime (RegFile (Samples.bytes_of "a") (5 # 1) true)
   < st_mtime (RegFile (Samples.bytes_of "b") (10 # 1) true))%Q /\
  needs_update_returns Samples.w_newer "/s/a" "/d/a" true /\
  fst (Uipytest.transfer.process_file "/s/a" "/d/a" 1 Samples.w_newer)
    = Ok (updated, "Updated: /s/a") /\
  fs (snd (Uipytest.transfer.process_file "/s/a" "/d/a" 1 Samples.w_newer)) !! "/d/a"
    = Some (RegFile (Samples.bytes_of "a") (5 # 1) true).
Proof. vm_compute. repeat split; reflexivity. Qed.

(** C6 (amended).  When the destination is newer than the source, the
    modification-time check does not ask for a copy; the file is copied
    again exactly when its size or its content digest differs from the
    source's. *)
Theorem needs_update_dst_newer (w : World) (s d : string) (ns nd : Node)
    (hs hd : string) :
  fs w !! s = Some ns -> fs w !! d = Some nd ->
  digest_of (Some ns) = Some hs -> digest_of (Some nd) = Some hd ->
  (st_mtime ns < st_mtime nd)%Q ->
  needs_update_returns w s d
    (negb (st_size ns =? st_size nd) || negb (String.eqb hs hd)).
Proof.
  intros Hs Hd Hhs Hhd Hlt.
  assert (Hmt : int (st_mtime ns) <= int (st_mtime nd))
    by (apply int_mono, Qlt_le_weak, Hlt).
  replace (negb (st_size ns =? st_size nd) || negb (String.eqb hs hd))
    with (needs_update_answer w s d).
  - apply (needs_update_returns_answer w s d ns Hs). intros nd' Hnd' _ _.
    assert (nd' = nd) by congruence. subst nd'. rewrite Hhs, Hhd. eauto.
  - unfold needs_update_answer. rewrite Hd, Hs.
    destruct (st_size ns =? st_size nd); [|done]. cbn [negb orb].
    destruct (Z.gtb_spec (int (st_mtime ns)) (int (st_mtime nd))); [lia|].
    by rewrite Hhs, Hhd.
Qed.

Lemma needs_update_dst_newer_witness :
  needs_update_returns Samples.w_same "/s/a" "/d/a" false.
Proof.
  exact (needs_update_dst_newer Samples.w_same "/s/a" "/d/a" _ _ _ _
           eq_refl eq_refl eq_refl eq_refl eq_refl).
Defined.

(** I/O failures in the two GUI variants: whatever cannot be stat'ed or
    read makes them answer "copy". *)
Lemma gui_needs_update_fail_safe (w : World) (s d : string) :
  is_Some (fs w !! d) ->
  digest_of (fs w !! s) = None \/ digest_of (fs w !! d) = None ->
  Uipytest.transfer.needs_update s d w = (Ok true, w) /\
  Uigdrive.LocalTransfer.needs_update s d w = (Ok true, w).
Proof.
  intros [nd Hd] Hfail.
  rewrite transfer_needs_update_spec, local_needs_update_spec.
  assert (needs_update_answer w s d = true) as ->; [|done].
  unfold needs_update_answer. rewrite Hd in *.
  destruct (fs w !! s) as [ns|]; [|done].
  destruct (negb (st_size ns =? st_size nd)); [done|].
  destruct (int (st_mtime ns) >? int (st_mtime nd)); [done|].
  destruct Hfail as [-> | ->]; [done|]. by destruct (digest_of (Some ns)).
Qed.

(** C7 (the batch variant at the failing input).  With a source that
    cannot be read, [needs_update] of pytest.py does not answer at all:
    the exception of the hash read leaves the function, where the
    variant of uigdrive.py answers "copy". *)
Theorem pytest_needs_update_raises :
  Pytest.needs_update "/s/a" "/d/a" Samples.w_unreadable
    = (Raise (OSError "Permission denied: /s/a"), Samples.w_unreadable) /\
  Uigdrive.LocalTransfer.needs_update "/s/a" "/d/a" Samples.w_unreadable
    = (Ok true, Samples.w_unreadable).
Proof. split; reflexivity. Qed.

(** ** Computations that always return *)

Lemma ret_total {A} (a : A) : total (ret a).
Proof. intros w. by exists a, w. Qed.

Lemma bind_total {A B} (m : M A) (k : A -> M B) :
  total m -> (forall a, total (k a)) -> total (bind m k).
Proof.
  intros Hm Hk w. destruct (Hm w) as (a & w' & Hmw).
  destruct (Hk a w') as (b & w'' & Hkw). exists b, w''.
  unfold bind. by rewrite Hmw.
Qed.

Lemma try_total {A} (m : M A) (h : exn -> M A) :
  (forall e, total (h e)) -> total (try m h).
Proof.
  intros Hh w. unfold try. destruct (m w) as [[a|e] w'] eqn:Hmw.
  - by exists a, w'.
  - apply Hh.
Qed.

Lemma is_set_spec w :
  is_set w = (Ok (stop_is_set w),
              match stop_event w with
              | Some (S k) => set_stop_event (Some k) w
              | _ => w
              end).
Proof.
  unfold is_set, stop_is_set, bind, get, ret, modify.
  by destruct (stop_event w) as [[|k]|].
Qed.

Lemma is_set_total : total is_set.
Proof. intros w. rewrite is_set_spec. eauto. Qed.

Lemma is_set_None w : stop_event w = None -> is_set w = (Ok false, w).
Proof. intros H. rewrite is_set_spec. unfold stop_is_set. by rewrite H. Qed.

Lemma is_set_Set w : stop_event w = Some O -> is_set w = (Ok true, w).
Proof. intros H. rewrite is_set_spec. unfold stop_is_set. by rewrite H. Qed.

Create HintDb total.
#[local] Hint Resolve ret_total bind_total try_total is_set_total : total.

Lemma local_process_file_total s d t : total (Uigdrive.LocalTransfer.process_file s d t).
Proof.
  unfold Uigdrive.LocalTransfer.process_file.
  apply bind_total; [apply is_set_total|]. intros [|]; auto with total.
Qed.

Lemma transfer_process_file_total s d t : total (Uipytest.transfer.process_file s d t).
Proof.
  unfold Uipytest.transfer.process_file.
  apply bind_total; [apply is_set_total|]. intros [|]; auto with total.
Qed.

Lemma local_process_file_stopped s d t w :
  stop_event w = Some O ->
  Uigdrive.LocalTransfer.process_file s d t w = (Ok (cancelled, "Cancelled: " +:+ s), w).
Proof.
  intros H. unfold Uigdrive.LocalTransfer.process_file, bind. by rewrite is_set_Set.
Qed.

Lemma local_drain_stopped t tasks w :
  stop_event w = Some O -> Uigdrive.LocalTransfer.drain t tasks w = (Ok tt, w).
Proof.
  intros H. induction tasks as [|[s d] tasks IH]; [done|].
  cbn. unfold bind, try. rewrite local_process_file_stopped by done. cbn. apply IH.
Qed.

(** ** The collecting loop and cancellation *)

Lemma local_collect_spec t tasks : forall acc w,
  exists results w',
    Uigdrive.LocalTransfer.collect t tasks acc w = (Ok (acc ++ results), w') /\
    (length results <= length tasks)%nat /\
    (tasks <> [] -> results <> []) /\
    (stop_is_set w' = false -> length results = length tasks) /\
    Uigdrive.LocalTransfer.collect t (take (length results) tasks) acc w
      = (Ok (acc ++ results), w').
Proof.
  induction tasks as [|[s d] tasks IH]; intros acc w.
  - exists [], w. cbn. rewrite app_nil_r. repeat split; try done.
  - cbn [Uigdrive.LocalTransfer.collect]. unfold bind at 1.
    destruct (try_total (Uigdrive.LocalTransfer.process_file s d t)
                (fun e => ret (error, "Worker exception: " +:+ str_exn e))
                (fun e => ret_total _) w) as (res & w1 & Hres).
    rewrite Hres. unfold bind at 1. rewrite is_set_spec.
    destruct (stop_is_set w1) eqn:Hstop.
    + assert (Hs : stop_event w1 = Some O).
      { unfold stop_is_set in Hstop. by destruct (stop_event w1) as [[|?]|]. }
      rewrite Hs. unfold bind. rewrite local_drain_stopped by done.
      exists [res], w1. cbn. repeat split; try done; try lia.
      * rewrite Hstop. done.
      * rewrite take_0. cbn [Uigdrive.LocalTransfer.collect]. unfold bind at 1.
        rewrite Hres. unfold bind at 1. rewrite is_set_spec, Hstop, Hs. reflexivity.
    + destruct (IH (acc ++ [res])
                  (match stop_event w1 with
                   | Some (S k) => set_stop_event (Some k) w1
                   | _ => w1
                   end)) as (results & w' & Heq & Hlen & _ & Hfull & Htake).
      exists (res :: results), w'. rewrite Heq, <- app_assoc. cbn [app].
      repeat split; try done; cbn [length]; try lia.
      * intros H. rewrite Hfull; done.
      * rewrite firstn_cons. cbn [Uigdrive.LocalTransfer.collect]. unfold bind at 1.
        rewrite Hres. unfold bind at 1. rewrite is_set_spec, Hstop.
        etransitivity; [exact Htake|]. by rewrite <- app_assoc.
Qed.


(** ** The terminal event of a run *)


Lemma exists_Some w p n : fs w !! p = Some n -> os.exists_ p w = (Ok true, w).
Proof. intros H. unfold os.exists_, bind, get, ret. by rewrite H. Qed.

Lemma exists_None w p : fs w !! p = None -> os.exists_ p w = (Ok false, w).
Proof. intros H. unfold os.exists_, bind, get, ret. by rewrite H. Qed.

Lemma is_file_spec w p n :
  fs w !! p = Some n ->
  os.is_file p w = (Ok (match n with RegFile _ _ _ => true | _ => false end), w).
Proof. intros H. unfold os.is_file, bind, get, ret. by rewrite H. Qed.

Lemma is_dir_spec w p n :
  fs w !! p = Some n ->
  os.is_dir p w = (Ok (match n with Directory _ _ _ => true | _ => false end), w).
Proof. intros H. unfold os.is_dir, bind, get, ret. by rewrite H. Qed.

Lemma stat_Some w p n : fs w !! p = Some n -> os.stat p w = (Ok n, w).
Proof. intros H. unfold os.stat, bind, get, ret. by rewrite H. Qed.

(** One step of a computation: the first call of a sequence is replaced
    by what the equation [E] says it returns. *)
Ltac mstep E := unfold bind at 1; rewrite E; cbv beta iota.


(** ** The copy engine *)

Lemma upd_id w : upd w (fs w) (stop_event w) (progress_queue w) (current_size w) = w.
Proof. by destruct w. Qed.

Lemma percent_of_spec a b w : b <> 0 -> percent_of a b w = (Ok (pct a b), w).
Proof. intros Hb. unfold percent_of. by destruct (Z.eqb_spec b 0). Qed.

Lemma copy_loop_same : Uipytest.transfer.copy_loop = Uigdrive.LocalTransfer.copy_loop.
Proof. reflexivity. Qed.

Lemma copy_loop_spec s d t : forall cs w data r,
  t <> 0 \/ cs = [] ->
  fs w !! d = Some (RegFile data (clock w) r) ->
  Uigdrive.LocalTransfer.copy_loop s d t cs w =
    (Ok (if cancelled_within (stop_event w) (length cs)
         then Some (cancelled, "Cancelled: " +:+ s) else None),
     let ws := written (stop_event w) cs in
     upd w (<[d := RegFile (data ++ concat ws) (clock w) r]> (fs w))
         (stop_after (stop_event w) (S (length cs)))
         (progress_queue w ++ chunk_events (name s) t (current_size w) ws)
         (current_size w + Z.of_nat (length (concat ws)))).
Proof.
  induction cs as [|c cs IH]; intros w data r Ht0 Hd.
  - cbn [Uigdrive.LocalTransfer.copy_loop]. unfold bind at 1. rewrite is_set_spec.
    unfold stop_is_set, written, cancelled_within, stop_after.
    destruct (stop_event w) as [[|k]|] eqn:Hstop; cbn;
      rewrite ?app_nil_r, ?Z.add_0_r, ?Nat.sub_0_r, insert_id by done.
    + rewrite <- Hstop. by rewrite upd_id.
    + unfold ret. f_equal. 
    + rewrite <- Hstop. by rewrite upd_id.
  - assert (Ht : t <> 0) by (by destruct Ht0).
    cbn [Uigdrive.LocalTransfer.copy_loop]. unfold bind at 1. rewrite is_set_spec.
    unfold stop_is_set.
    destruct (stop_event w) as [[|k]|] eqn:Hstop.
    + cbn. rewrite !app_nil_r, Z.add_0_r, insert_id by done. rewrite <- Hstop.
      by rewrite upd_id.
    + unfold bind at 1, os.write, bind at 1, get. cbn [fs set_stop_event].
      rewrite Hd. unfold modify at 1. unfold bind at 1, modify at 1.
      unfold bind at 1, get. unfold bind at 1.
      rewrite percent_of_spec by done. unfold bind at 1, put, modify.
      rewrite (IH _ (data ++ c) r).
      2:{ by left. }
      2:{ cbn. by rewrite lookup_insert_eq. }
      cbn. rewrite insert_insert_eq, <- !app_assoc, length_app.
      f_equal. unfold upd. cbn. f_equal. lia.
    + unfold bind at 1, os.write, bind at 1, get.
      rewrite Hd. unfold modify at 1. unfold bind at 1, modify at 1.
      unfold bind at 1, get. unfold bind at 1.
      rewrite percent_of_spec by done. unfold bind at 1, put, modify.
      rewrite (IH _ (data ++ c) r).
      2:{ by left. }
      2:{ cbn. by rewrite lookup_insert_eq. }
      cbn. rewrite Hstop. cbn. rewrite insert_insert_eq, <- !app_assoc, length_app.
      f_equal. unfold upd. cbn. f_equal. lia.
Qed.

Lemma mkdir_ok w p : not_a_file w p -> os.mkdir p w = (Ok tt, w).
Proof.
  unfold not_a_file, os.mkdir, bind, get, ret. by destruct (fs w !! p) as [[]|].
Qed.

Lemma open_rb_ok w p data mt : fs w !! p = Some (RegFile data mt true) ->
  os.open_rb p w = (Ok data, w).
Proof. intros H. by rewrite open_rb_spec, H. Qed.

Lemma open_wb_ok w p : writable w p ->
  os.open_wb p w =
    (Ok tt, set_fs (<[p := RegFile [] (clock w) (dst_flag w p)]> (fs w)) w).
Proof.
  intros [Hro Hd]. unfold os.open_wb, dst_flag, bind, get, modify.
  rewrite bool_decide_eq_false_2 by done.
  by destruct (fs w !! p) as [[]|].
Qed.

Lemma copystat_spec w s d ns data mt r :
  fs w !! s = Some ns -> fs w !! d = Some (RegFile data mt r) ->
  shutil.copystat s d w =
    if bool_decide (d ∈ nometa w)
    then (Raise (OSError ("Operation not permitted: " +:+ d)), w)
    else (Ok tt, set_fs (<[d := RegFile data (st_mtime ns) (st_readable r ns)]> (fs w)) w).
Proof.
  intros Hs Hd. unfold shutil.copystat, bind, get, modify, raise. rewrite Hs, Hd.
  by destruct (bool_decide (d ∈ nometa w)).
Qed.





Lemma chunk_events_length nm t cur cs : length (chunk_events nm t cur cs) = length cs.
Proof. revert cur. induction cs as [|c cs IH]; intros cur; cbn; [done|]. by rewrite IH. Qed.

(** ** Progress percent *)

Lemma percent_of_zero a w : percent_of a 0 w = (Raise ZeroDivisionError, w).
Proof. reflexivity. Qed.

(** On a non-negative counter and a positive total the published value
    is the floor of the exact quotient. *)
Lemma pct_floor (a b : Z) : 0 <= a -> 0 < b -> pct a b = 100 * a / b.
Proof.
  intros Ha Hb. unfold pct, int. destruct b as [|b|b]; try lia.
  cbn. rewrite Z.quot_div_nonneg by lia. f_equal; lia.
Qed.

Lemma pct_bounds (a b : Z) : 0 <= a <= b -> 0 < b -> 0 <= pct a b <= 100.
Proof.
  intros Ha Hb. rewrite pct_floor by lia. split.
  - apply Z.div_pos; lia.
  - apply Z.div_le_upper_bound; lia.
Qed.

(** The total [sync_folder] hands to the workers is never zero when there
    is a task. *)
Lemma sync_folder_total_nonzero (total : Z) (tasks : list (string * string)) :
  tasks <> [] ->
  (if (total =? 0) && negb (bool_decide (tasks = [])) then 1 else total) <> 0.
Proof.
  intros Hne. rewrite bool_decide_eq_false_2 by done. cbn. rewrite andb_true_r.
  destruct (Z.eqb_spec total 0); lia.
Qed.

(** A file that needs no copy, with no cancellation: one event at the
    percent the counter already stands at, and the counter stays. *)
Lemma local_process_file_skip (w : World) (s d : string) (t : Z) :
  stop_event w = None -> needs_update_answer w s d = false ->
  Uigdrive.LocalTransfer.process_file s d t w =
    (Ok (skipped, "Skipped: " +:+ s),
     upd w (fs w) None
       (progress_queue w ++
          [Downloading (if t =? 0 then 100 else pct (current_size w) t)
                       ("(Skipped) " +:+ name s)])
       (current_size w)).
Proof.
  intros Hstop Hans. unfold Uigdrive.LocalTransfer.process_file.
  mstep (is_set_None w Hstop). unfold try.
  mstep (local_needs_update_spec w s d). rewrite Hans.
  unfold bind at 1, get. unfold bind at 1.
  destruct (Z.eqb_spec t 0) as [->|Ht].
  - unfold ret at 1. unfold bind at 1, put, modify, ret, upd. cbn.
    by rewrite <- Hstop.
  - rewrite percent_of_spec by done. unfold bind at 1, put, modify, ret, upd. cbn.
    by rewrite <- Hstop.
Qed.

(** C9 (the code at the failing input).  One empty file given as the
    source: [sync_file] takes its size, 0, as the total without forcing
    it to 1; the small-file branch copies the file and then divides by
    that total.  The exception becomes an Error result and the run ends
    on Error, although the file is in place.  The chunked loop of
    uipytest.py publishes nothing for an empty file and reports
    Updated. *)
Theorem empty_file_divides_by_zero :
  fst (Uigdrive.LocalTransfer.sync_file (Samples.session "/s/e" "/d") Samples.w_empty_file)
    = Ok [(error, "Error copying /s/e: division by zero")] /\
  fs (snd (Uigdrive.LocalTransfer.sync_file (Samples.session "/s/e" "/d")
             Samples.w_empty_file)) !! "/d/e"
    = Some (RegFile [] (5 # 1) true) /\
  progress_queue (snd (Uigdrive.LocalTransfer.run (Samples.session "/s/e" "/d")
                         Samples.w_empty_file))
    = [Error "Some files failed; check console"] /\
  fst (Uipytest.transfer.sync_file (Samples.session "/s/e" "/d") Samples.w_empty_file)
    = Ok [(updated, "Updated: /s/e")].
Proof. vm_compute. repeat split; reflexivity. Qed.

(** C4 (the code at the failing input).  A folder whose only file is
    already in place: the task is Skipped, the counter stays at 0 of 5
    bytes and the only percent published is 0.  With a second file that
    is copied, the last percent published is 50. *)
Theorem skipped_does_not_advance :
  fst (Uigdrive.LocalTransfer.sync_folder (Samples.session "/s" "/d") Samples.w_synced)
    = Ok [(skipped, "Skipped: /s/a")] /\
  current_size (snd (Uigdrive.LocalTransfer.run (Samples.session "/s" "/d")
                       Samples.w_synced)) = 0 /\
  progress_queue (snd (Uigdrive.LocalTransfer.run (Samples.session "/s" "/d")
                         Samples.w_synced))
    = [Downloading 0 "(Skipped) a"; Done None] /\
  fst (Uigdrive.LocalTransfer.sync_folder (Samples.session "/s" "/d")
         Samples.w_half_synced)
    = Ok [(skipped, "Skipped: /s/a"); (updated, "Updated: /s/b")] /\
  progress_queue (snd (Uigdrive.LocalTransfer.run (Samples.session "/s" "/d")
                         Samples.w_half_synced))
    = [Downloading 0 "(Skipped) a"; Downloading 50 "b"; Done None] /\
  progress_queue (snd (Uipytest.transfer.run (Samples.session "/s" "/d")
                         Samples.w_half_synced))
    = [Downloading 0 "a"; Downloading 50 "b"; Done None].
Proof. vm_compute. repeat split; reflexivity. Qed.

(** ** Inverting a computation that returned *)

Lemma bind_inv {A B} (m : M A) (k : A -> M B) w b w2 :
  bind m k w = (Ok b, w2) ->
  exists a w1, m w = (Ok a, w1) /\ k a w1 = (Ok b, w2).
Proof.
  unfold bind. destruct (m w) as [[a|e] w1]; [|discriminate]. eauto.
Qed.

Lemma try_inv {A} (m : M A) (h : exn -> M A) w b w2 :
  try m h w = (Ok b, w2) ->
  m w = (Ok b, w2) \/ exists e w1, m w = (Raise e, w1) /\ h e w1 = (Ok b, w2).
Proof.
  unfold try. destruct (m w) as [[a|e] w1]; [by left|]. right. eauto.
Qed.

Lemma mkdir_inv w p u w' : os.mkdir p w = (Ok u, w') -> not_a_file w p /\ w' = w.
Proof.
  unfold os.mkdir, not_a_file, bind, get, ret, raise.
  destruct (fs w !! p) as [[]|]; intros [= ]; by subst.
Qed.

Lemma stat_inv w p n w' : os.stat p w = (Ok n, w') -> fs w !! p = Some n /\ w' = w.
Proof.
  unfold os.stat, bind, get, ret, raise.
  destruct (fs w !! p); intros [= ]; by subst.
Qed.

Lemma open_rb_inv w p data w' :
  os.open_rb p w = (Ok data, w') ->
  (exists mt, fs w !! p = Some (RegFile data mt true)) /\ w' = w.
Proof.
  rewrite open_rb_spec. destruct (fs w !! p) as [[? ? []|]|]; intros [= ]; subst; eauto.
Qed.

Lemma open_wb_inv w p u w' : os.open_wb p w = (Ok u, w') -> writable w p.
Proof.
  unfold os.open_wb, writable, bind, get, modify, raise.
  destruct (bool_decide (p ∈ readonly w)) eqn:E; [discriminate|].
  apply bool_decide_eq_false_1 in E.
  destruct (fs w !! p) as [[]|]; intros [= ]; by subst.
Qed.

Lemma chunks_nonempty n x l : os.chunks n (x :: l) <> [].
Proof. unfold os.chunks. cbn [length os.chunks_aux]. discriminate. Qed.

Lemma chunks_nil n : os.chunks n [] = [].
Proof. reflexivity. Qed.

(** With a total of zero the loop cannot get past its first chunk. *)
Lemma copy_loop_zero_total s d c cs w r w' :
  stop_event w = None ->
  Uigdrive.LocalTransfer.copy_loop s d 0 (c :: cs) w <> (Ok r, w').
Proof.
  intros Hstop. cbn [Uigdrive.LocalTransfer.copy_loop].
  mstep (is_set_None w Hstop). unfold bind at 1.
  destruct (os.write d c w) as [[u|e] w1]; [|discriminate].
  unfold bind at 1, modify at 1. unfold bind at 1, get. unfold bind at 1.
  rewrite percent_of_zero. discriminate.
Qed.

(** The copy of uipytest.py when nothing fails. *)
Lemma transfer_copy_ok w s d t data mt :
  fs w !! s = Some (RegFile data mt true) -> s <> d ->
  not_a_file w (parent d) -> writable w d -> t <> 0 \/ data = [] ->
  stop_event w <> Some O ->
  let cs := os.chunks Uipytest.CHUNK_SIZE data in
  let stop1 := stop_after (stop_event w) 1 in
  let ws := written stop1 cs in
  let c := cancelled_within stop1 (length cs) in
  Uipytest.transfer.copy_file_with_progress s d t w =
    (Ok (if c then (cancelled, "Cancelled: " +:+ s) else (updated, "Updated: " +:+ s)),
     upd w (<[d := streamed_node w d data mt ws c]> (fs w))
         (stop_after (stop_event w) (S (S (length cs))))
         (progress_queue w ++ chunk_events (name s) t (current_size w) ws)
         (current_size w + Z.of_nat (length (concat ws)))).
Proof.
  intros Hs Hsd Hmk Hwr Ht Hstop cs stop1 ws c.
  unfold Uipytest.transfer.copy_file_with_progress.
  unfold bind at 1. rewrite is_set_spec.
  assert (Hnot : stop_is_set w = false).
  { unfold stop_is_set. by destruct (stop_event w) as [[|]|]. }
  rewrite Hnot.
  set (w0 := match stop_event w with Some (S k) => set_stop_event (Some k) w | _ => w end).
  assert (Hw0 : w0 = set_stop_event stop1 w).
  { subst w0 stop1. unfold stop_after. destruct (stop_event w) as [[|k]|] eqn:E; try done.
    - cbn. by rewrite Nat.sub_0_r.
    - destruct w; cbn in *; by subst. }
  clearbody w0. subst w0.
  unfold try.
  mstep (mkdir_ok (set_stop_event stop1 w) (parent d) Hmk).
  mstep (stat_Some (set_stop_event stop1 w) s _ Hs).
  mstep (open_rb_ok (set_stop_event stop1 w) s _ _ Hs).
  mstep (open_wb_ok (set_stop_event stop1 w) d Hwr).
  unfold bind at 1. change Uipytest.transfer.copy_loop with Uigdrive.LocalTransfer.copy_loop.
  rewrite (copy_loop_spec s d t _ _ [] (dst_flag w d)).
  2:{ destruct Ht as [Ht| ->]; [by left | by right]. }
  2:{ cbn. by rewrite lookup_insert_eq. }
  cbn [stop_event set_stop_event set_fs length app fs clock progress_queue current_size].
  fold cs. fold ws. fold c.
  destruct c eqn:Hc.
  - unfold ret. f_equal. unfold upd, streamed_node. cbn. rewrite insert_insert_eq.
    f_equal. subst stop1. unfold stop_after. destruct (stop_event w); [|done]. f_equal.
    generalize (length cs). intros. lia.
  - unfold bind at 1, try.
    erewrite copystat_spec.
    2:{ cbn. rewrite !lookup_insert_ne by done. exact Hs. }
    2:{ cbn. by rewrite lookup_insert_eq. }
    cbn [nometa upd]. unfold streamed_node.
    assert (Hall : concat ws = data).
    { subst ws. unfold written, cancelled_within in *. destruct stop1 as [k|].
      - apply Nat.leb_gt in Hc. rewrite take_ge by lia. by apply chunks_concat.
      - by apply chunks_concat. }
    rewrite Hall. cbn [app].
    unfold ret, upd. cbn.
    assert (Hst : stop_after stop1 (S (length cs))
                  = stop_after (stop_event w) (S (S (length cs)))).
    { subst stop1. unfold stop_after. destruct (stop_event w); [|done].
      f_equal. generalize (length cs). intros. lia. }
    rewrite Hst.
    destruct (bool_decide (d ∈ nometa w)); unfold set_fs; cbn;
      rewrite !insert_insert_eq; reflexivity.
Qed.

(** Without cancellation, a copy that does not report an Error reports
    Updated, and had all it needs. *)
Lemma transfer_copy_inv w s d t tag msg w1 :
  stop_event w = None -> s <> d ->
  Uipytest.transfer.copy_file_with_progress s d t w = (Ok (tag, msg), w1) ->
  tag <> error ->
  exists data mt,
    fs w !! s = Some (RegFile data mt true) /\
    not_a_file w (parent d) /\ writable w d /\ (t <> 0 \/ data = []).
Proof.
  intros Hstop Hsd Hrun Htag.
  unfold Uipytest.transfer.copy_file_with_progress in Hrun.
  apply bind_inv in Hrun as (st & w0 & Hset & Hrun).
  rewrite (is_set_None w Hstop) in Hset. injection Hset as <- <-.
  apply try_inv in Hrun as [Hrun | (e & w2 & _ & Herr)].
  2:{ injection Herr as <- _ _. done. }
  apply bind_inv in Hrun as (u & wa & Hmk & Hrun).
  apply mkdir_inv in Hmk as [Hmk ->].
  apply bind_inv in Hrun as (n & wa & Hst & Hrun).
  apply stat_inv in Hst as [Hst ->].
  apply bind_inv in Hrun as (data & wa & Hrb & Hrun).
  apply open_rb_inv in Hrb as [[mt Hs] ->].
  apply bind_inv in Hrun as (u' & wb & Hwb & Hrun).
  pose proof (open_wb_inv _ _ _ _ Hwb) as Hwr.
  rewrite (open_wb_ok w d Hwr) in Hwb. injection Hwb as <- <-.
  apply bind_inv in Hrun as (r & wc & Hloop & _).
  exists data, mt. split; [done|]. split; [done|]. split; [done|].
  destruct (decide (t = 0)) as [->|Ht]; [|by left]. right.
  destruct data as [|x data]; [done|]. exfalso.
  unfold os.chunks in Hloop. cbn [length os.chunks_aux] in Hloop.
  change Uipytest.transfer.copy_loop with Uigdrive.LocalTransfer.copy_loop in Hloop.
  eapply copy_loop_zero_total; [|exact Hloop]. exact Hstop.
Qed.

Lemma transfer_copy_total s d t : total (Uipytest.transfer.copy_file_with_progress s d t).
Proof.
  unfold Uipytest.transfer.copy_file_with_progress.
  apply bind_total; [apply is_set_total|]. intros [|].
  - apply ret_total.
  - apply try_total. intros e. apply ret_total.
Qed.

Lemma transfer_process_file_skip (w : World) (s d : string) (t : Z) :
  stop_event w = None -> needs_update_answer w s d = false ->
  Uipytest.transfer.process_file s d t w =
    (Ok (skipped, "Skipped: " +:+ s),
     upd w (fs w) None
       (progress_queue w ++
          [Downloading (if t =? 0 then 100 else pct (current_size w) t) (name s)])
       (current_size w)).
Proof.
  intros Hstop Hans. unfold Uipytest.transfer.process_file.
  mstep (is_set_None w Hstop). unfold try.
  mstep (transfer_needs_update_spec w s d). rewrite Hans.
  unfold bind at 1, get. unfold bind at 1.
  destruct (Z.eqb_spec t 0) as [->|Ht].
  - unfold ret at 1. unfold bind at 1, put, modify, ret, upd. cbn.
    by rewrite <- Hstop.
  - rewrite percent_of_spec by done. unfold bind at 1, put, modify, ret, upd. cbn.
    by rewrite <- Hstop.
Qed.

Lemma transfer_process_file_copy (w : World) (s d : string) (t : Z) :
  stop_event w = None -> needs_update_answer w s d = true ->
  Uipytest.transfer.process_file s d t w =
  Uipytest.transfer.copy_file_with_progress s d t w.
Proof.
  intros Hstop Hans. unfold Uipytest.transfer.process_file.
  mstep (is_set_None w Hstop). unfold try.
  mstep (transfer_needs_update_spec w s d). rewrite Hans.
  by destruct (transfer_copy_total s d t w) as (r & w' & ->).
Qed.

(** After a copy that went through, the pair is in step. *)
Lemma copied_in_step (w : World) (s d : string) (data : list byte) (mt : Q)
    (f : gmap string Node) :
  fs w !! s = Some (RegFile data mt true) -> s <> d -> metadata_settles w s d ->
  f = <[d := streamed_node w d data mt (os.chunks Uipytest.CHUNK_SIZE data) false]> (fs w) ->
  forall w1, fs w1 = f -> needs_update_answer w1 s d = false.
Proof.
  intros Hs Hsd Hmeta -> w1 Hfs. unfold needs_update_answer. rewrite Hfs.
  rewrite lookup_insert_eq, lookup_insert_ne, Hs by done.
  unfold streamed_node.
  destruct Hmeta as [Hmeta | [Hflag Hclock]].
  - rewrite bool_decide_eq_false_2 by done. cbn.
    rewrite Z.eqb_refl. cbn.
    destruct (Z.gtb_spec (int mt) (int mt)); [lia|].
    by rewrite String.eqb_refl.
  - destruct (bool_decide (d ∈ nometa w)); cbn; rewrite Z.eqb_refl; cbn.
    + specialize (Hclock _ Hs). cbn in Hclock.
      destruct (Z.gtb_spec (int mt) (int (clock w))); [lia|].
      rewrite Hflag. by rewrite String.eqb_refl.
    + destruct (Z.gtb_spec (int mt) (int mt)); [lia|].
      by rewrite String.eqb_refl.
Qed.

Lemma transfer_process_file_settles w s d t tag msg w1 :
  stop_event w = None -> s <> d -> metadata_settles w s d ->
  Uipytest.transfer.process_file s d t w = (Ok (tag, msg), w1) ->
  tag = updated \/ tag = skipped ->
  stop_event w1 = None /\ nometa w1 = nometa w /\ clock w1 = clock w /\
  (forall p, p <> d -> fs w1 !! p = fs w !! p) /\
  needs_update_answer w1 s d = false.
Proof.
  intros Hstop Hsd Hmeta Hrun Htag.
  destruct (needs_update_answer w s d) eqn:Hans.
  - rewrite transfer_process_file_copy in Hrun by done.
    destruct (transfer_copy_inv w s d t tag msg w1 Hstop Hsd Hrun)
      as (data & mt & Hs & Hmk & Hwr & Ht).
    { destruct Htag as [-> | ->]; discriminate. }
    rewrite (transfer_copy_ok w s d t data mt Hs Hsd Hmk Hwr Ht) in Hrun
      by (rewrite Hstop; discriminate).
    rewrite Hstop in Hrun. cbn [stop_after cancelled_within written] in Hrun.
    injection Hrun as _ _ <-. cbn [upd stop_event nometa clock fs].
    repeat split; try done.
    + intros p Hp. by rewrite lookup_insert_ne.
    + eapply copied_in_step; try done.
  - rewrite transfer_process_file_skip in Hrun by done.
    injection Hrun as _ _ <-. cbn [upd stop_event nometa clock fs].
    repeat split; try done.
Qed.

Lemma needs_update_answer_ext (w1 w2 : World) (s d : string) :
  fs w1 !! s = fs w2 !! s -> fs w1 !! d = fs w2 !! d ->
  needs_update_answer w1 s d = needs_update_answer w2 s d.
Proof. intros Hs Hd. unfold needs_update_answer. by rewrite Hs, Hd. Qed.

Lemma transfer_process_file_stopped s d t w :
  stop_event w = Some O ->
  Uipytest.transfer.process_file s d t w = (Ok (cancelled, "Cancelled: " +:+ s), w).
Proof.
  intros H. unfold Uipytest.transfer.process_file, bind. by rewrite is_set_Set.
Qed.

Lemma transfer_drain_stopped t tasks w :
  stop_event w = Some O -> Uipytest.transfer.drain t tasks w = (Ok tt, w).
Proof.
  intros H. induction tasks as [|[s d] tasks IH]; [done|].
  cbn. unfold bind, try. rewrite transfer_process_file_stopped by done. cbn. apply IH.
Qed.

Lemma transfer_collect_spec t tasks : forall acc w,
  exists results w',
    Uipytest.transfer.collect t tasks acc w = (Ok (acc ++ results), w') /\
    (length results <= length tasks)%nat.
Proof.
  induction tasks as [|[s d] tasks IH]; intros acc w.
  - exists [], w. cbn. rewrite app_nil_r. done.
  - cbn. unfold bind at 1.
    destruct (try_total (Uipytest.transfer.process_file s d t)
                (fun e => ret (error, "Worker exception: " +:+ str_exn e))
                (fun e => ret_total _) w) as (res & w1 & ->).
    unfold bind at 1. rewrite is_set_spec.
    destruct (stop_is_set w1) eqn:Hstop.
    + assert (Hs : stop_event w1 = Some O).
      { unfold stop_is_set in Hstop. by destruct (stop_event w1) as [[|?]|]. }
      rewrite Hs. unfold bind. rewrite transfer_drain_stopped by done.
      exists [res], w1. cbn. split; [done|lia].
    + destruct (IH (acc ++ [res])
                  (match stop_event w1 with
                   | Some (S k) => set_stop_event (Some k) w1
                   | _ => w1
                   end)) as (results & w' & Heq & Hlen).
      exists (res :: results), w'. rewrite Heq, <- app_assoc. cbn. split; [done|lia].
Qed.

Lemma transfer_collect_settles t tasks : forall acc w rs w1,
  stop_event w = None ->
  NoDup (map snd tasks) ->
  (forall d, d ∈ map snd tasks -> d ∉ map fst tasks) ->
  (forall s d, (s, d) ∈ tasks -> metadata_settles w s d) ->
  Uipytest.transfer.collect t tasks acc w = (Ok (acc ++ rs), w1) ->
  Forall ok_tag rs ->
  length rs = length tasks /\ stop_event w1 = None /\
  (forall p, p ∉ map snd tasks -> fs w1 !! p = fs w !! p) /\
  (forall s d, (s, d) ∈ tasks -> needs_update_answer w1 s d = false).
Proof.
  induction tasks as [|[s d] tasks IH]; intros acc w rs w1 Hstop Hnd Hdisj Hmeta Hrun Hok.
  - cbn in Hrun. injection Hrun as Hrs <-.
    assert (rs = []) as -> by (apply (app_inv_head acc); by rewrite app_nil_r).
    repeat split; try done. intros s d Hin. by apply elem_of_nil in Hin.
  - cbn [Uipytest.transfer.collect] in Hrun.
    apply bind_inv in Hrun as (res & w' & Hres & Hrun).
    destruct (transfer_process_file_total s d t w) as ([tag msg] & w0 & Hpf).
    unfold try in Hres. rewrite Hpf in Hres. injection Hres as <- <-.
    apply bind_inv in Hrun as (st & w'' & Hset & Hrun).
    assert (Hhead : exists rs', rs = (tag, msg) :: rs').
    { destruct st; cbv beta iota in Hrun.
      - apply bind_inv in Hrun as (u & w3 & _ & Hret). injection Hret as Hret _.
        apply app_inv_head in Hret. eauto.
      - destruct (transfer_collect_spec t tasks (acc ++ [(tag, msg)]) w'')
          as (rs' & w3 & Heq & _).
        pose proof (eq_trans (eq_sym Heq) Hrun) as E. injection E as E _.
        rewrite <- app_assoc in E. apply app_inv_head in E. eauto. }
    destruct Hhead as (rs' & ->).
    apply Forall_cons in Hok as [Hok1 Hok'].
    cbn [map] in Hnd. apply NoDup_cons in Hnd as [Hd_fresh Hnd].
    assert (Hsd : s <> d).
    { intros ->. apply (Hdisj d); cbn; apply elem_of_cons; by left. }
    destruct (transfer_process_file_settles w s d t tag msg w0 Hstop Hsd
                (Hmeta s d ltac:(apply elem_of_cons; by left)) Hpf Hok1)
      as (Hstop0 & Hnometa & Hclock & Hframe & Hsettled).
    rewrite (is_set_None w0 Hstop0) in Hset. injection Hset as <- <-.
    cbv beta iota in Hrun.
    replace (acc ++ (tag, msg) :: rs') with ((acc ++ [(tag, msg)]) ++ rs') in Hrun
      by (by rewrite <- app_assoc).
    assert (Hdisj' : forall d', d' ∈ map snd tasks -> d' ∉ map fst tasks).
    { intros d' Hd' Hs'. apply (Hdisj d'); cbn; apply elem_of_cons; by right. }
    assert (Hmeta' : forall s' d', (s', d') ∈ tasks -> metadata_settles w0 s' d').
    { intros s' d' Hin.
      assert (Hd' : d' ∈ map snd tasks).
      { apply list_elem_of_fmap. by exists (s', d'). }
      assert (Hs' : s' ∈ map fst tasks).
      { apply list_elem_of_fmap. by exists (s', d'). }
      assert (d' <> d) by (intros ->; done).
      assert (s' <> d).
      { intros ->. apply (Hdisj d); cbn; apply elem_of_cons; [by left | by right]. }
      destruct (Hmeta s' d' ltac:(apply elem_of_cons; by right)) as [Hm | [Hflag Hclk]].
      - left. by rewrite Hnometa.
      - right. split.
        + unfold dst_flag in *. by rewrite Hframe.
        + intros ns Hns. rewrite Hclock. apply Hclk. by rewrite <- Hframe. }
    destruct (IH (acc ++ [(tag, msg)]) w0 rs' w1 Hstop0 Hnd Hdisj' Hmeta' Hrun Hok')
      as (Hlen & Hstop1 & Hframe1 & Hall).
    repeat split.
    + cbn. by rewrite Hlen.
    + done.
    + intros p Hp. cbn in Hp. apply not_elem_of_cons in Hp as [Hpd Hp].
      rewrite Hframe1 by done. by apply Hframe.
    + intros s' d' Hin. apply elem_of_cons in Hin as [[= -> ->] | Hin].
      * rewrite <- Hsettled. apply needs_update_answer_ext; apply Hframe1.
        -- intros Hin. apply (Hdisj s); cbn; apply elem_of_cons; [by right | by left].
        -- done.
      * by apply Hall.
Qed.

Lemma transfer_collect_skips t tasks : forall acc w,
  stop_event w = None ->
  (forall s d, (s, d) ∈ tasks -> needs_update_answer w s d = false) ->
  exists evs,
    Uipytest.transfer.collect t tasks acc w =
      (Ok (acc ++ skipped_results tasks),
       upd w (fs w) None (progress_queue w ++ evs) (current_size w)) /\
    length evs = length tasks.
Proof.
  induction tasks as [|[s d] tasks IH]; intros acc w Hstop Hall.
  - exists []. cbn. rewrite !app_nil_r. rewrite <- Hstop. by rewrite upd_id.
  - cbn [Uipytest.transfer.collect]. unfold bind at 1, try.
    rewrite transfer_process_file_skip; [|done|apply Hall, elem_of_cons; by left].
    set (w' := upd w (fs w) None _ (current_size w)).
    mstep (is_set_None w' eq_refl).
    destruct (IH (acc ++ [(skipped, "Skipped: " +:+ s)]) w' eq_refl) as (evs & Heq & Hlen).
    { intros s' d' Hin. rewrite <- (Hall s' d') by (apply elem_of_cons; by right).
      by apply needs_update_answer_ext. }
    eexists (_ :: evs). split; [|cbn; by rewrite Hlen].
    etransitivity; [exact Heq|]. subst w'. unfold upd. cbn.
    rewrite <- !app_assoc. reflexivity.
Qed.

Lemma transfer_enum_files_spec top droot root files : forall acc w,
  exists total,
    Uipytest.transfer.enum_files top droot root files acc w =
      (Ok (fst acc ++ map (fun f => (joinpath root f,
                                     joinpath (joinpath droot (relpath root top)) f))
                          files, total), w).
Proof.
  induction files as [|f files IH]; intros [tasks total] w.
  - exists total. cbn. by rewrite app_nil_r.
  - cbn [Uipytest.transfer.enum_files]. unfold bind at 1, try, os.stat, bind, get, ret, raise.
    cbn [fst snd].
    destruct (fs w !! joinpath root f) as [n|].
    + destruct (IH (tasks ++ [(joinpath root f,
                               joinpath (joinpath droot (relpath root top)) f)],
                    total + st_size n) w) as (total' & ->).
      exists total'. cbn. by rewrite <- app_assoc.
    + destruct (IH (tasks ++ [(joinpath root f,
                               joinpath (joinpath droot (relpath root top)) f)],
                    total) w) as (total' & ->).
      exists total'. cbn. by rewrite <- app_assoc.
Qed.

Lemma transfer_enum_walk_spec top droot walked : forall acc w,
  exists total,
    Uipytest.transfer.enum_walk top droot walked acc w =
      (Ok (fst acc ++ tasks_of top droot walked, total), w).
Proof.
  induction walked as [|[root files] walked IH]; intros acc w.
  - exists (snd acc). cbn. rewrite app_nil_r. by destruct acc.
  - cbn [Uipytest.transfer.enum_walk]. unfold bind at 1.
    destruct (transfer_enum_files_spec top droot root files acc w) as (total & ->).
    destruct (IH (fst acc ++ map (fun f => (joinpath root f,
                     joinpath (joinpath droot (relpath root top)) f)) files, total) w)
      as (total' & ->).
    exists total'. cbn. by rewrite <- app_assoc.
Qed.

Lemma walk_spec w p walked sz mt :
  fs w !! p = Some (Directory walked sz mt) -> os.walk p w = (Ok walked, w).
Proof. intros H. unfold os.walk, bind, get, ret. by rewrite H. Qed.

(** [sync_folder] of a directory, once the destination root can be made:
    the collecting loop over the enumerated tasks, from a counter at 0. *)
Lemma transfer_sync_folder_spec self w walked sz mt :
  fs w !! src self = Some (Directory walked sz mt) ->
  not_a_file w (joinpath (dst self) (name (src self))) ->
  exists total,
    Uipytest.transfer.sync_folder self w =
    Uipytest.transfer.collect total
      (tasks_of (src self) (joinpath (dst self) (name (src self))) walked) []
      (set_current_size 0 w).
Proof.
  intros Hsrc Hmk. unfold Uipytest.transfer.sync_folder.
  destruct (transfer_enum_walk_spec (src self) (joinpath (dst self) (name (src self)))
              walked ([], 0) w) as (total & Henum).
  eexists. mstep (mkdir_ok _ _ Hmk). mstep (walk_spec _ _ _ _ _ Hsrc).
  mstep Henum. unfold bind at 1, modify. cbn [fst snd app]. reflexivity.
Qed.

(** ** Upload to the remote store *)

Lemma fresh_id_fresh (d : list GFile) : Uigdrive.GoogleDrive.fresh_id d ∉ map gid d.
Proof.
  unfold Uigdrive.GoogleDrive.fresh_id. intros Hin.
  assert (H : Forall (fun k => (k <= list_max (map gid d))%nat) (map gid d)).
  { apply list_max_le. lia. }
  rewrite Forall_forall in H. apply H in Hin. lia.
Qed.

Lemma remote_index_lookup (l : list GFile) (t : string) (info : Uigdrive.GDriveTransfer.RemoteInfo) :
  forall m : gmap string Uigdrive.GDriveTransfer.RemoteInfo,
  foldl (fun m file =>
           match md5Checksum file with
           | Some h => <[title file := {| Uigdrive.GDriveTransfer.r_id := gid file;
                                          Uigdrive.GDriveTransfer.r_size := fileSize file;
                                          Uigdrive.GDriveTransfer.r_md5 := h |}]> m
           | None => m
           end) m l !! t = Some info ->
  m !! t = Some info \/
  exists g, g ∈ l /\ title g = t /\ gid g = Uigdrive.GDriveTransfer.r_id info /\
            fileSize g = Uigdrive.GDriveTransfer.r_size info /\
            md5Checksum g = Some (Uigdrive.GDriveTransfer.r_md5 info).
Proof.
  induction l as [|g l IH]; intros m Hm; [by left|].
  cbn [foldl] in Hm. apply IH in Hm as [Hm | (g' & Hin & Hg')].
  - destruct (md5Checksum g) as [h|] eqn:Hh; [|by left].
    destruct (decide (title g = t)) as [Ht|Ht].
    + subst t. rewrite lookup_insert_eq in Hm. injection Hm as <-.
      right. exists g. cbn. repeat split; try done. apply elem_of_cons; by left.
    + rewrite lookup_insert_ne in Hm by done. by left.
  - right. exists g'. split; [apply elem_of_cons; by right | done].
Qed.

(** C10.  A local file whose name is already in the remote folder, with
    another size or another MD5 digest, is uploaded as a new object of the
    same title under the same folder, with an id no object had before.
    The store afterwards is the old store with that object appended: the
    object that was there is still there, unchanged, and the folder holds
    one more entry of that title. *)
Theorem changed_file_is_uploaded_again (w : World) (folder : nat) (total_files : Z)
    (counts : Z * Z) (local_path : string) (data : list byte) (mt : Q)
    (info : Uigdrive.GDriveTransfer.RemoteInfo) :
  let remote_files :=
    Uigdrive.GDriveTransfer.remote_index (filter (fun g => parents g = Some folder) (drive w)) in
  stop_event w <> Some O -> drive_offline w = false -> total_files <> 0 ->
  fs w !! local_path = Some (RegFile data mt true) ->
  remote_files !! name local_path = Some info ->
  Z.of_nat (length data) <> Uigdrive.GDriveTransfer.r_size info \/
  hashlib.hexdigest data <> Uigdrive.GDriveTransfer.r_md5 info ->
  exists g w',
    Uigdrive.GDriveTransfer.check_and_upload_file folder remote_files total_files counts
      local_path w = (Ok (fst counts + 1, snd counts), w') /\
    drive w' = drive w ++ [g] /\
    title g = name local_path /\ parents g = Some folder /\
    (gid g ∉ map gid (drive w)) /\
    fileSize g = Z.of_nat (length data) /\
    md5Checksum g = Some (hashlib.hexdigest data) /\
    (exists old, old ∈ drive w /\ old ∈ drive w' /\ gid old = Uigdrive.GDriveTransfer.r_id info /\
                 title old = name local_path /\ parents old = Some folder) /\
    length (titled folder (name local_path) (drive w'))
      = S (length (titled folder (name local_path) (drive w))) /\
    fs w' = fs w.
Proof.
  intros remote_files Hstop Hon Htotal Hfile Hremote Hdiff.
  set (g := {| gid := Uigdrive.GoogleDrive.fresh_id (drive w); title := name local_path;
               parents := Some folder; is_folder := false;
               fileSize := Z.of_nat (length data);
               md5Checksum := Some (hashlib.hexdigest data) |}).
  assert (Hnot : stop_is_set w = false).
  { unfold stop_is_set. by destruct (stop_event w) as [[|]|]. }
  set (w0 := match stop_event w with Some (S k) => set_stop_event (Some k) w | _ => w end).
  assert (Hw0 : fs w0 = fs w /\ drive w0 = drive w /\ drive_offline w0 = drive_offline w).
  { subst w0. by destruct (stop_event w) as [[|]|]. }
  destruct Hw0 as (Hfs0 & Hdrive0 & Hoff0).
  exists g.
  exists (set_progress_queue
            (progress_queue w0 ++
               [Downloading (pct (fst counts + 1 + snd counts) total_files)
                            (name local_path)])
            (set_drive (drive w ++ [g]) w0)).
  split; [|split; [|split; [|split; [|split; [|split; [|split; [|split; [|split]]]]]]]].
  - unfold Uigdrive.GDriveTransfer.check_and_upload_file.
    unfold bind at 1. rewrite is_set_spec, Hnot. fold w0. cbv beta iota.
    unfold try.
    assert (Hfile0 : fs w0 !! local_path = Some (RegFile data mt true)) by by rewrite Hfs0.
    mstep (stat_Some w0 local_path _ Hfile0).
    unfold bind at 1. rewrite get_file_hash_spec, (open_rb_ok w0 _ _ _ Hfile0).
    cbv beta iota. rewrite Hremote. cbn [st_size].
    assert (Hsame : (Z.of_nat (length data) =? Uigdrive.GDriveTransfer.r_size info)
                    && String.eqb (hashlib.hexdigest data) (Uigdrive.GDriveTransfer.r_md5 info)
                    = false).
    { destruct Hdiff as [Hd | Hd].
      - apply Z.eqb_neq in Hd. by rewrite Hd.
      - apply String.eqb_neq in Hd. rewrite Hd. apply andb_false_r. }
    rewrite Hsame.
    unfold bind at 1, Uigdrive.GoogleDrive.upload_file.
    mstep (open_rb_ok w0 _ _ _ Hfile0). unfold bind at 1, get. rewrite Hoff0, Hon.
    unfold bind at 1, modify at 1, ret at 1. cbn [fst snd].
    unfold bind at 1. rewrite percent_of_spec by done.
    unfold bind at 1, put, modify, ret. rewrite Hdrive0. fold g. reflexivity.
  - cbn. reflexivity.
  - done.
  - done.
  - apply fresh_id_fresh.
  - done.
  - done.
  - apply remote_index_lookup in Hremote as [Hempty | (old & Hin & Ht & Hid & _)].
    { by rewrite lookup_empty in Hempty. }
    apply list_elem_of_filter in Hin as [Hparent Hin].
    exists old. cbn. repeat split; try done. apply elem_of_app. by left.
  - cbn [drive set_progress_queue set_drive]. unfold titled.
    rewrite filter_app, length_app.
    rewrite (filter_cons_True _ g []) by done. rewrite filter_nil. cbn. lia.
  - cbn. done.
Qed.

Lemma changed_file_is_uploaded_again_witness :
  exists g w',
    Uigdrive.GDriveTransfer.check_and_upload_file 1
      (Uigdrive.GDriveTransfer.remote_index
         (filter (fun g => parents g = Some 1%nat) (drive Samples.w_drive)))
      1 (0, 0) "/s/a.txt" Samples.w_drive = (Ok (1, 0), w') /\
    drive w' = drive Samples.w_drive ++ [g] /\
    title g = "a.txt" /\
    length (titled 1 "a.txt" (drive w')) = 2%nat.
Proof.
  destruct (changed_file_is_uploaded_again Samples.w_drive 1 1 (0, 0) "/s/a.txt"
              (Samples.bytes_of "newer") (5 # 1)
              {| Uigdrive.GDriveTransfer.r_id := 2; Uigdrive.GDriveTransfer.r_size := 3;
                 Uigdrive.GDriveTransfer.r_md5 :=
                   hashlib.hexdigest (Samples.bytes_of "old") |}
              ltac:(discriminate) eq_refl ltac:(discriminate) eq_refl
              ltac:(vm_compute; reflexivity) ltac:(left; discriminate))
    as (g & w' & Hrun & Hdrive & Htitle & _ & _ & _ & _ & _ & Hlen & _).
  exists g, w'. repeat split; try done.
Defined.

(** ** What a run may change *)

Lemma evolves_refl mono ds w : evolves mono ds w w.
Proof.
  repeat split; try done; try (intros; lia). exists []. by rewrite app_nil_r.
Qed.

Lemma evolves_trans mono ds a b c : evolves mono ds a b -> evolves mono ds b c -> evolves mono ds a c.
Proof.
  intros (F1 & R1 & N1 & C1 & D1 & O1 & S1 & T1 & K1 & e1 & Q1 & A1)
         (F2 & R2 & N2 & C2 & D2 & O2 & S2 & T2 & K2 & e2 & Q2 & A2).
  repeat split; try congruence; auto.
  - intros p Hp. rewrite F2, F1; done.
  - intros Hm. specialize (K1 Hm). specialize (K2 Hm). lia.
  - exists (e1 ++ e2). split.
    + by rewrite Q2, Q1, app_assoc.
    + by apply Forall_app.
Qed.

Lemma evolves_mono mono ds ds' w w' : ds ⊆ ds' -> evolves mono ds w w' -> evolves mono ds' w w'.
Proof.
  intros Hsub (F1 & H). split; [|exact H]. intros p Hp. apply F1. intros Hin. by apply Hp, Hsub.
Qed.

Lemma keeps_mono mono ds ds' {A} (m : M A) : ds ⊆ ds' -> keeps mono ds m -> keeps mono ds' m.
Proof. intros Hsub Hm w. eapply evolves_mono; [done|apply Hm]. Qed.

Lemma keeps_pure mono ds {A} (m : M A) : (forall w, snd (m w) = w) -> keeps mono ds m.
Proof. intros H w. rewrite H. apply evolves_refl. Qed.

Lemma keeps_ret mono ds {A} (a : A) : keeps mono ds (ret a).
Proof. by apply keeps_pure. Qed.

Lemma keeps_raise mono ds {A} (e : exn) : keeps mono ds (@raise A e).
Proof. by apply keeps_pure. Qed.

Lemma keeps_get mono ds : keeps mono ds get.
Proof. by apply keeps_pure. Qed.

Lemma keeps_bind mono ds {A B} (m : M A) (k : A -> M B) :
  keeps mono ds m -> (forall a, keeps mono ds (k a)) -> keeps mono ds (bind m k).
Proof.
  intros Hm Hk w. unfold bind. specialize (Hm w).
  destruct (m w) as [[a|e] w1]; cbn in *; [|done].
  eapply evolves_trans; [exact Hm|apply Hk].
Qed.

Lemma keeps_try mono ds {A} (m : M A) (h : exn -> M A) :
  keeps mono ds m -> (forall e, keeps mono ds (h e)) -> keeps mono ds (try m h).
Proof.
  intros Hm Hh w. unfold try. specialize (Hm w).
  destruct (m w) as [[a|e] w1]; cbn in *; [done|].
  eapply evolves_trans; [exact Hm|apply Hh].
Qed.

Lemma keeps_exists mono ds p : keeps mono ds (os.exists_ p).
Proof. by apply keeps_pure. Qed.

Lemma keeps_stat mono ds p : keeps mono ds (os.stat p).
Proof.
  apply keeps_pure. intros w. unfold os.stat, bind, get, ret, raise. by destruct (fs w !! p).
Qed.

Lemma keeps_open_rb mono ds p : keeps mono ds (os.open_rb p).
Proof.
  apply keeps_pure. intros w. rewrite open_rb_spec. by destruct (fs w !! p) as [[? ? []|]|].
Qed.

Lemma keeps_mkdir mono ds p : keeps mono ds (os.mkdir p).
Proof.
  apply keeps_pure. intros w. unfold os.mkdir, bind, get, ret, raise.
  by destruct (fs w !! p) as [[]|].
Qed.

Lemma keeps_percent_of mono ds a b : keeps mono ds (percent_of a b).
Proof. apply keeps_pure. intros w. unfold percent_of. by destruct (b =? 0). Qed.

Lemma evolves_set_fs mono ds w p n : p ∈ ds -> evolves mono ds w (set_fs (<[p := n]> (fs w)) w).
Proof.
  intros Hp. repeat split; try done; try (intros; cbn; lia).
  - intros q Hq. cbn. rewrite lookup_insert_ne; [done|]. by intros ->.
  - exists []. cbn. by rewrite app_nil_r.
Qed.

Lemma keeps_open_wb mono ds p : p ∈ ds -> keeps mono ds (os.open_wb p).
Proof.
  intros Hp w. unfold os.open_wb, bind, get, modify, raise.
  destruct (bool_decide (p ∈ readonly w)); cbn; [apply evolves_refl|].
  destruct (fs w !! p) as [[]|]; cbn; try apply evolves_refl; by apply evolves_set_fs.
Qed.

Lemma keeps_write mono ds p c : p ∈ ds -> keeps mono ds (os.write p c).
Proof.
  intros Hp w. unfold os.write, bind, get, modify, raise.
  destruct (fs w !! p) as [[]|]; cbn; try apply evolves_refl; by apply evolves_set_fs.
Qed.

Lemma keeps_copystat mono ds s d : d ∈ ds -> keeps mono ds (shutil.copystat s d).
Proof.
  intros Hp w. unfold shutil.copystat, bind, get, modify, raise.
  destruct (fs w !! s) as [ns|]; [|apply evolves_refl].
  destruct (fs w !! d) as [[]|]; cbn; try apply evolves_refl;
    destruct (bool_decide (d ∈ nometa w)); cbn; try apply evolves_refl;
    by apply evolves_set_fs.
Qed.

Lemma keeps_copy2 mono ds s d : d ∈ ds -> keeps mono ds (shutil.copy2 s d).
Proof.
  intros Hp. unfold shutil.copy2. destruct (bool_decide (s = d)); [apply keeps_raise|].
  apply keeps_bind; [apply keeps_open_rb|]. intros data.
  apply keeps_bind; [by apply keeps_open_wb|]. intros _.
  apply keeps_bind; [by apply keeps_write|]. intros _.
  by apply keeps_copystat.
Qed.

Lemma keeps_is_set mono ds : keeps mono ds is_set.
Proof.
  intros w. rewrite is_set_spec. cbn.
  destruct (stop_event w) as [[|k]|] eqn:E; try apply evolves_refl.
  repeat split; try done; try (intros; cbn; lia).
  - cbn. by rewrite E.
  - cbn. by rewrite E.
  - exists []. cbn. by rewrite app_nil_r.
Qed.

Lemma keeps_put_downloading mono ds p nm : keeps mono ds (put (Downloading p nm)).
Proof.
  intros w. unfold put, modify. cbn. repeat split; try done; try (intros; cbn; lia).
  exists [Downloading p nm]. split; [done|]. by repeat constructor.
Qed.

Lemma keeps_add mono ds (n : Z) :
  0 <= n -> keeps mono ds (modify (fun w => set_current_size (current_size w + n) w)).
Proof.
  intros Hn w. unfold modify. cbn. repeat split; try done; try (intros; cbn; lia).
  exists []. cbn. by rewrite app_nil_r.
Qed.

Lemma keeps_get_file_hash mono ds p : keeps mono ds (Uigdrive.get_file_hash p).
Proof.
  apply keeps_pure. intros w. rewrite get_file_hash_spec, open_rb_spec.
  by destruct (fs w !! p) as [[? ? []|]|].
Qed.

Lemma keeps_local_needs_update mono ds s d : keeps mono ds (Uigdrive.LocalTransfer.needs_update s d).
Proof. apply keeps_pure. intros w. by rewrite local_needs_update_spec. Qed.

Lemma keeps_local_copy_loop mono ds s d t cs :
  d ∈ ds -> keeps mono ds (Uigdrive.LocalTransfer.copy_loop s d t cs).
Proof.
  intros Hd. induction cs as [|c cs IH]; cbn [Uigdrive.LocalTransfer.copy_loop].
  - apply keeps_bind; [apply keeps_is_set|]. intros [|]; apply keeps_ret.
  - apply keeps_bind; [apply keeps_is_set|]. intros [|]; [apply keeps_ret|].
    apply keeps_bind; [by apply keeps_write|]. intros _.
    apply keeps_bind; [apply keeps_add; lia|]. intros _.
    apply keeps_bind; [apply keeps_get|]. intros w.
    apply keeps_bind; [apply keeps_percent_of|]. intros p.
    apply keeps_bind; [apply keeps_put_downloading|]. intros _. exact IH.
Qed.

Lemma keeps_bind_stat mono ds {B} p (k : Node -> M B) :
  (forall w n, fs w !! p = Some n -> evolves mono ds w (snd (k n w))) ->
  keeps mono ds (bind (os.stat p) k).
Proof.
  intros Hk w. unfold bind, os.stat, bind, get, ret, raise.
  destruct (fs w !! p) as [n|] eqn:E; cbn; [by apply Hk|apply evolves_refl].
Qed.

Lemma copy2_not_regular w s d l sz mt :
  fs w !! s = Some (Directory l sz mt) ->
  exists e, shutil.copy2 s d w = (Raise e, w).
Proof.
  intros Hs. unfold shutil.copy2. destruct (bool_decide (s = d)); [by eexists|].
  unfold bind. rewrite open_rb_spec, Hs. by eexists.
Qed.

Lemma keeps_local_copy mono ds s d t :
  d ∈ ds -> keeps mono ds (Uigdrive.LocalTransfer.copy_file_with_progress s d t).
Proof.
  intros Hd. unfold Uigdrive.LocalTransfer.copy_file_with_progress.
  apply keeps_bind; [apply keeps_is_set|]. intros [|]; [apply keeps_ret|].
  apply keeps_try; [|intros e; apply keeps_ret].
  apply keeps_bind; [apply keeps_mkdir|]. intros _.
  apply keeps_bind_stat. intros w n Hn.
  destruct (Uigdrive.LARGE_FILE_THRESHOLD <=? st_size n) eqn:Hsz.
  - cbv beta iota.
    match goal with
    | |- evolves _ _ _ (snd (?m w)) => cut (keeps mono ds m); [intros H; apply H|]
    end.
    apply keeps_bind; [apply keeps_open_rb|]. intros fsrc.
    apply keeps_bind; [by apply keeps_open_wb|]. intros _.
    apply keeps_bind; [by apply keeps_local_copy_loop|]. intros [r|]; [apply keeps_ret|].
    apply keeps_bind; [|intros _; apply keeps_ret].
    apply keeps_try; [by apply keeps_copystat|intros e; apply keeps_ret].
  - destruct n as [data mt r | l sz mt].
    + cbv beta iota.
      match goal with
      | |- evolves _ _ _ (snd (?m w)) => cut (keeps mono ds m); [intros H; apply H|]
      end.
      apply keeps_bind; [by apply keeps_copy2|]. intros _.
      apply keeps_bind; [apply keeps_add; cbn; lia|]. intros _.
      apply keeps_bind; [apply keeps_get|]. intros w0.
      apply keeps_bind; [apply keeps_percent_of|]. intros p.
      apply keeps_bind; [apply keeps_put_downloading|]. intros _. apply keeps_ret.
    + destruct (copy2_not_regular w s d l sz mt Hn) as (e & He).
      unfold bind at 1. rewrite He. cbn. apply evolves_refl.
Qed.

Lemma keeps_local_process_file mono ds s d t :
  d ∈ ds -> keeps mono ds (Uigdrive.LocalTransfer.process_file s d t).
Proof.
  intros Hd. unfold Uigdrive.LocalTransfer.process_file.
  apply keeps_bind; [apply keeps_is_set|]. intros [|]; [apply keeps_ret|].
  apply keeps_try; [|intros e; apply keeps_ret].
  apply keeps_bind; [apply keeps_local_needs_update|]. intros [|].
  - by apply keeps_local_copy.
  - apply keeps_bind; [apply keeps_get|]. intros w.
    apply keeps_bind.
    { destruct (t =? 0); [apply keeps_ret|apply keeps_percent_of]. }
    intros p. apply keeps_bind; [apply keeps_put_downloading|]. intros _. apply keeps_ret.
Qed.

Lemma keeps_local_drain mono t tasks :
  keeps mono (map snd tasks) (Uigdrive.LocalTransfer.drain t tasks).
Proof.
  induction tasks as [|[s d] tasks IH]; cbn [Uigdrive.LocalTransfer.drain].
  - apply keeps_ret.
  - apply keeps_bind.
    + apply keeps_try; [|intros e; apply keeps_ret].
      apply keeps_bind; [|intros _; apply keeps_ret].
      apply keeps_local_process_file. cbn. apply elem_of_cons. by left.
    + intros _. eapply keeps_mono; [|exact IH]. cbn. intros x Hx. apply elem_of_cons. by right.
Qed.

Lemma keeps_local_collect mono t tasks : forall acc,
  keeps mono (map snd tasks) (Uigdrive.LocalTransfer.collect t tasks acc).
Proof.
  induction tasks as [|[s d] tasks IH]; intros acc; cbn [Uigdrive.LocalTransfer.collect].
  - apply keeps_ret.
  - apply keeps_bind.
    + apply keeps_try; [|intros e; apply keeps_ret].
      apply keeps_local_process_file. cbn. apply elem_of_cons. by left.
    + intros res. apply keeps_bind; [apply keeps_is_set|]. intros [|].
      * apply keeps_bind; [|intros _; apply keeps_ret].
        eapply keeps_mono; [|apply keeps_local_drain]. cbn. intros x Hx. apply elem_of_cons. by right.
      * eapply keeps_mono; [|apply IH]. cbn. intros x Hx. apply elem_of_cons. by right.
Qed.

Lemma keeps_weaken mono ds {A} (m : M A) : keeps true ds m -> keeps mono ds m.
Proof.
  intros H w. destruct (H w) as (F & R & N & C & D & O & S & T & K & Q).
  repeat split; try done. intros _. by apply K.
Qed.

Lemma keeps_reset ds : keeps false ds (modify (set_current_size 0)).
Proof.
  intros w. unfold modify. cbn. repeat split; try done.
  exists []. cbn. by rewrite app_nil_r.
Qed.

Lemma walk_listing w p : os.walk p w = (Ok (listing w p), w).
Proof. reflexivity. Qed.

Lemma local_enum_walk_spec top droot walked acc w :
  exists total,
    Uigdrive.LocalTransfer.enum_walk top droot walked acc w =
      (Ok (fst acc ++ tasks_of top droot walked, total), w).
Proof. apply transfer_enum_walk_spec. Qed.

(** [sync_folder] once the destination root can be made: the collecting
    loop over the enumerated tasks, from a counter at 0. *)
Lemma local_sync_folder_spec self w :
  not_a_file w (joinpath (dst self) (name (src self))) ->
  exists total,
    Uigdrive.LocalTransfer.sync_folder self w =
    Uigdrive.LocalTransfer.collect total
      (tasks_of (src self) (joinpath (dst self) (name (src self))) (listing w (src self)))
      [] (set_current_size 0 w).
Proof.
  intros Hmk. unfold Uigdrive.LocalTransfer.sync_folder.
  destruct (local_enum_walk_spec (src self) (joinpath (dst self) (name (src self)))
              (listing w (src self)) ([], 0) w) as (total & Henum).
  eexists. mstep (mkdir_ok _ _ Hmk). mstep (walk_listing w (src self)).
  mstep Henum. unfold bind at 1, modify. cbn [fst snd app]. reflexivity.
Qed.

Lemma local_sync_folder_blocked self w data mt r :
  fs w !! joinpath (dst self) (name (src self)) = Some (RegFile data mt r) ->
  exists e, Uigdrive.LocalTransfer.sync_folder self w = (Raise e, w).
Proof.
  intros Hroot. eexists. unfold Uigdrive.LocalTransfer.sync_folder.
  unfold bind at 1, os.mkdir, bind, get, raise. rewrite Hroot. reflexivity.
Qed.

Lemma evolves_reset ds w : evolves false ds w (set_current_size 0 w).
Proof. apply (keeps_reset ds w). Qed.

Lemma local_sync_folder_evolves self w :
  evolves false
    (map snd (tasks_of (src self) (joinpath (dst self) (name (src self)))
                       (listing w (src self))))
    w (snd (Uigdrive.LocalTransfer.sync_folder self w)).
Proof.
  destruct (fs w !! joinpath (dst self) (name (src self))) as [[data mt r|l sz mt]|] eqn:Hroot.
  - destruct (local_sync_folder_blocked self w data mt r Hroot) as (e & ->).
    apply evolves_refl.
  - destruct (local_sync_folder_spec self w) as (total & ->).
    { unfold not_a_file. by rewrite Hroot. }
    eapply evolves_trans; [apply evolves_reset|]. apply keeps_local_collect.
  - destruct (local_sync_folder_spec self w) as (total & ->).
    { unfold not_a_file. by rewrite Hroot. }
    eapply evolves_trans; [apply evolves_reset|]. apply keeps_local_collect.
Qed.

Lemma local_sync_file_evolves self w :
  evolves false [joinpath (dst self) (name (src self))]
    w (snd (Uigdrive.LocalTransfer.sync_file self w)).
Proof.
  revert w.
  change (keeps false [joinpath (dst self) (name (src self))]
            (Uigdrive.LocalTransfer.sync_file self)).
  unfold Uigdrive.LocalTransfer.sync_file.
  apply keeps_bind.
  { apply keeps_try; [|intros e; apply keeps_ret].
    apply keeps_bind; [apply keeps_stat|]. intros n. apply keeps_ret. }
  intros t. apply keeps_bind; [apply keeps_reset|]. intros _.
  apply keeps_bind; [|intros r; apply keeps_ret].
  apply keeps_local_process_file. apply elem_of_cons. by left.
Qed.

(** A run, whatever happens: the sync (or nothing), one reading of the
    stop event, and one terminal event. *)
Lemma local_run_cases (self : Session) (w : World) :
  exists w1 term,
    evolves false (destinations self w) w w1 /\
    Uigdrive.LocalTransfer.run self w =
      (Ok tt, set_progress_queue (progress_queue w1 ++ [term]) w1) /\
    is_terminal term.
Proof.
  unfold Uigdrive.LocalTransfer.run, try.
  destruct (fs w !! src self) as [n|] eqn:Hsrc.
  2:{ mstep (exists_None _ _ Hsrc). cbn [negb].
      exists w, (Error ("Source does not exist: " +:+ src self)).
      split; [apply evolves_refl|]. split; [reflexivity|done]. }
  mstep (exists_Some _ _ _ Hsrc). cbn [negb].
  mstep (is_file_spec _ _ _ Hsrc). mstep (is_dir_spec _ _ _ Hsrc).
  assert (Hsync : exists sync,
            (if match n with RegFile _ _ _ => true | _ => false end
                || match n with Directory _ _ _ => true | _ => false end
             then
               results <- (if match n with RegFile _ _ _ => true | _ => false end
                           then Uigdrive.LocalTransfer.sync_file self
                           else Uigdrive.LocalTransfer.sync_folder self) ;;
               st <- is_set ;;
               if st then put Cancelled
               else if any_error results
                    then put (Error "Some files failed; check console")
                    else put (Done None)
             else put (Error ("Invalid source path: " +:+ src self)))
            = (results <- sync ;;
               st <- is_set ;;
               if st then put Cancelled
               else if any_error results
                    then put (Error "Some files failed; check console")
                    else put (Done None)) /\
            evolves false (destinations self w) w (snd (sync w))).
  { unfold destinations. rewrite Hsrc. destruct n.
    - exists (Uigdrive.LocalTransfer.sync_file self). split; [reflexivity|].
      apply local_sync_file_evolves.
    - exists (Uigdrive.LocalTransfer.sync_folder self). split; [reflexivity|].
      apply local_sync_folder_evolves. }
  destruct Hsync as (sync & -> & Hev).
  unfold bind at 1. destruct (sync w) as [[results|e] w1]; cbn [snd] in Hev.
  - unfold bind at 1.
    pose proof (keeps_is_set false (destinations self w) w1) as Hset.
    destruct (is_set w1) as [[st|e] w2] eqn:Hst; cbn [snd] in Hset.
    2:{ rewrite is_set_spec in Hst. discriminate. }
    exists w2. destruct st; [|destruct (any_error results)];
      (eexists; split; [by eapply evolves_trans|]; split; [reflexivity|done]).
  - exists w1, (Error (str_exn e)). split; [done|]. split; [reflexivity|done].
Qed.

(** X1.  [LocalTransfer.run] never raises, whatever the world: it returns,
    and what it has added to the queue is a (possibly empty) sequence of
    Downloading events followed by exactly one terminal event (Done,
    Error or Cancelled), which is the last one. *)
Theorem run_ends_on_one_terminal_event (self : Session) (w : World) :
  exists evs term w',
    Uigdrive.LocalTransfer.run self w = (Ok tt, w') /\
    progress_queue w' = progress_queue w ++ evs ++ [term] /\
    Forall is_downloading evs /\ is_terminal term.
Proof.
  destruct (local_run_cases self w) as (w1 & term & Hev & Hrun & Hterm).
  destruct Hev as (_ & _ & _ & _ & _ & _ & _ & _ & _ & evs & Hq & Hdl).
  exists evs, term. eexists. split; [exact Hrun|]. cbn.
  rewrite Hq, <- app_assoc. done.
Qed.

Lemma evolves_same_files mono ds w w' : evolves mono ds w w' -> same_files ds w w'.
Proof. intros (F & _) p Hp data mt r. by rewrite F. Qed.

(** X2.  When no task destination is an existing directory (onto a
    directory [shutil.copy2] would copy into it), a run of
    [LocalTransfer] creates or changes no regular file other than the
    destinations of its tasks: every other regular file, and with it every
    source that is not also a destination, has after the run the bytes and
    metadata it had before, and none has appeared.  The remote store is
    not touched. *)
Theorem run_writes_only_destinations (self : Session) (w : World) :
  (forall d, d ∈ destinations self w -> not_a_directory w d) ->
  let w' := snd (Uigdrive.LocalTransfer.run self w) in
  same_files (destinations self w) w w' /\ drive w' = drive w.
Proof.
  intros _.
  destruct (local_run_cases self w) as (w1 & term & Hev & Hrun & Hterm).
  rewrite Hrun. cbn.
  split.
  - intros p Hp data mt r. cbn. by apply (evolves_same_files _ _ _ _ Hev).
  - by destruct Hev as (_ & _ & _ & _ & D & _).
Qed.

Lemma run_writes_only_destinations_witness :
  let w := Samples.w_fresh in
  let self := Samples.session "/s" "/d" in
  let w' := snd (Uigdrive.LocalTransfer.run self w) in
  same_files (destinations self w) w w' /\ drive w' = drive w.
Proof.
  apply (run_writes_only_destinations (Samples.session "/s" "/d") Samples.w_fresh).
  intros d Hd. vm_compute in Hd.
  apply elem_of_cons in Hd as [-> | Hd]; [vm_compute; exact I|].
  apply elem_of_cons in Hd as [-> | Hd]; [vm_compute; exact I|].
  by apply elem_of_nil in Hd.
Defined.

(** X3.  When nobody sets the stop event and the destination root can be
    made, [sync_folder] returns one result per file that [os.walk] lists,
    and the stop event is still unset. *)
Theorem sync_folder_complete_without_cancellation (self : Session) (w : World) :
  stop_event w = None ->
  not_a_file w (joinpath (dst self) (name (src self))) ->
  exists results w',
    Uigdrive.LocalTransfer.sync_folder self w = (Ok results, w') /\
    length results =
      length (tasks_of (src self) (joinpath (dst self) (name (src self)))
                       (listing w (src self))) /\
    stop_event w' = None.
Proof.
  intros Hstop Hmk.
  destruct (local_sync_folder_spec self w Hmk) as (total & Heq).
  set (tasks := tasks_of _ _ _) in *.
  destruct (local_collect_spec total tasks [] (set_current_size 0 w))
    as (results & w' & Hrun & _ & _ & Hfull & _).
  pose proof (keeps_local_collect false total tasks [] (set_current_size 0 w)) as Hev.
  rewrite Hrun in Hev. cbn [snd] in Hev.
  destruct Hev as (_ & _ & _ & _ & _ & _ & Hnone & _).
  specialize (Hnone Hstop).
  exists results, w'. split; [by rewrite Heq|]. split; [|done].
  apply Hfull. unfold stop_is_set. by rewrite Hnone.
Qed.

Lemma local_collect_stopped t tasks w :
  stop_event w = Some O ->
  exists results,
    Uigdrive.LocalTransfer.collect t tasks [] w = (Ok results, w) /\
    results = match tasks with
              | [] => []
              | (s, _) :: _ => [(cancelled, "Cancelled: " +:+ s)]
              end.
Proof.
  intros Hstop. destruct tasks as [|[s d] tasks]; [by exists []|].
  eexists. split; [|reflexivity].
  cbn [Uigdrive.LocalTransfer.collect]. unfold bind at 1, try.
  rewrite local_process_file_stopped by done.
  mstep (is_set_Set w Hstop). unfold bind. by rewrite local_drain_stopped.
Qed.

Lemma local_sync_file_stopped self w n :
  stop_event w = Some O -> fs w !! src self = Some n ->
  Uigdrive.LocalTransfer.sync_file self w =
    (Ok [(cancelled, "Cancelled: " +:+ src self)], set_current_size 0 w).
Proof.
  intros Hstop Hsrc. unfold Uigdrive.LocalTransfer.sync_file.
  unfold bind at 1, try. mstep (stat_Some _ _ _ Hsrc).
  unfold ret at 1. cbv beta iota. unfold bind at 1, modify. cbv beta iota.
  unfold bind. by rewrite local_process_file_stopped.
Qed.

Lemma local_sync_folder_stopped self w :
  stop_event w = Some O ->
  not_a_file w (joinpath (dst self) (name (src self))) ->
  exists results,
    Uigdrive.LocalTransfer.sync_folder self w = (Ok results, set_current_size 0 w).
Proof.
  intros Hstop Hmk.
  destruct (local_sync_folder_spec self w Hmk) as (total & ->).
  destruct (local_collect_stopped total
              (tasks_of (src self) (joinpath (dst self) (name (src self)))
                        (listing w (src self)))
              (set_current_size 0 w) Hstop) as (results & -> & _).
  by exists results.
Qed.

(** X4.  A run that starts with the stop event already set copies
    nothing: it returns, no regular file has been created or changed, the
    counter is 0, and the one event it publishes is Cancelled. *)
Theorem stopped_run_copies_nothing (self : Session) (w : World) :
  stop_event w = Some O ->
  is_Some (fs w !! src self) ->
  (forall l sz mt, fs w !! src self = Some (Directory l sz mt) ->
     not_a_file w (joinpath (dst self) (name (src self)))) ->
  exists w',
    Uigdrive.LocalTransfer.run self w = (Ok tt, w') /\
    same_files [] w w' /\
    progress_queue w' = progress_queue w ++ [Cancelled] /\
    current_size w' = 0.
Proof.
  intros Hstop [n Hsrc] Hmk.
  assert (Hrun : Uigdrive.LocalTransfer.run self w =
                 (Ok tt, upd w (fs w) (Some O) (progress_queue w ++ [Cancelled]) 0)).
  { unfold Uigdrive.LocalTransfer.run, try.
    mstep (exists_Some _ _ _ Hsrc). cbn [negb].
    mstep (is_file_spec _ _ _ Hsrc). mstep (is_dir_spec _ _ _ Hsrc).
    destruct n as [data mt r|l sz mt]; cbn [orb].
    - mstep (local_sync_file_stopped self w _ Hstop Hsrc).
      mstep (is_set_Set (set_current_size 0 w) Hstop).
      unfold put, modify, upd, set_progress_queue, set_current_size. cbn. by rewrite Hstop.
    - destruct (local_sync_folder_stopped self w Hstop (Hmk _ _ _ Hsrc)) as (results & Heq).
      mstep Heq. mstep (is_set_Set (set_current_size 0 w) Hstop).
      unfold put, modify, upd, set_progress_queue, set_current_size. cbn. by rewrite Hstop. }
  eexists. split; [exact Hrun|]. cbn. repeat split; done.
Qed.

Lemma sync_folder_complete_without_cancellation_witness :
  exists results w',
    Uigdrive.LocalTransfer.sync_folder (Samples.session "/s" "/d") Samples.w_fresh
      = (Ok results, w') /\
    length results =
      length (tasks_of "/s" (joinpath "/d" (name "/s")) (listing Samples.w_fresh "/s")) /\
    stop_event w' = None.
Proof.
  apply (sync_folder_complete_without_cancellation (Samples.session "/s" "/d") Samples.w_fresh).
  - reflexivity.
  - vm_compute. exact I.
Defined.

Lemma stopped_run_copies_nothing_witness :
  let w := set_stop_event (Some O) Samples.w_fresh in
  exists w',
    Uigdrive.LocalTransfer.run (Samples.session "/s" "/d") w = (Ok tt, w') /\
    same_files [] w w' /\
    progress_queue w' = progress_queue w ++ [Cancelled] /\
    current_size w' = 0.
Proof.
  apply (stopped_run_copies_nothing (Samples.session "/s" "/d")
           (set_stop_event (Some O) Samples.w_fresh)).
  - reflexivity.
  - vm_compute. eauto.
  - intros l sz mt _. vm_compute. exact I.
Defined.

(** ** What the workers return *)

Lemma yields_ret {A} (P : A -> Prop) a : P a -> yields P (ret a).
Proof. intros H w a' w' [= <- _]. done. Qed.

Lemma yields_raise {A} (P : A -> Prop) e : yields P (raise e).
Proof. intros w a' w' [=]. Qed.

Lemma yields_bind {A B} (Q : A -> Prop) (P : B -> Prop) (m : M A) (k : A -> M B) :
  yields Q m -> (forall a, Q a -> yields P (k a)) -> yields P (bind m k).
Proof.
  intros Hm Hk w b w' H. unfold bind in H.
  destruct (m w) as [[a|e] w1] eqn:E; [|done].
  eapply Hk; [eapply Hm; exact E|exact H].
Qed.

Lemma yields_any {A} (m : M A) : yields (fun _ => True) m.
Proof. by intros w a w' _. Qed.

Lemma yields_try {A} (P : A -> Prop) (m : M A) h :
  yields P m -> (forall e, yields P (h e)) -> yields P (try m h).
Proof.
  intros Hm Hh w a w' H. unfold try in H.
  destruct (m w) as [[a1|e] w1] eqn:E.
  - injection H as <- _. eapply Hm, E.
  - eapply Hh, H.
Qed.

Lemma local_copy_loop_yields s d t cs :
  yields (fun r => r = None \/ r = Some (cancelled, "Cancelled: " +:+ s))
         (Uigdrive.LocalTransfer.copy_loop s d t cs).
Proof.
  induction cs as [|c cs IH]; cbn [Uigdrive.LocalTransfer.copy_loop];
    (eapply yields_bind; [apply yields_any|]); intros [] _.
  - apply yields_ret. by right.
  - apply yields_ret. by left.
  - apply yields_ret. by right.
  - repeat (eapply yields_bind; [apply yields_any|]; intros ? _). apply IH.
Qed.

Lemma local_copy_yields s d t :
  yields (reports s) (Uigdrive.LocalTransfer.copy_file_with_progress s d t).
Proof.
  unfold Uigdrive.LocalTransfer.copy_file_with_progress.
  eapply yields_bind; [apply yields_any|]. intros [] _.
  { by apply yields_ret. }
  apply yields_try.
  2:{ intros e. apply yields_ret. cbn. exists (str_exn e). by left. }
  eapply yields_bind; [apply yields_any|]; intros _ _.
  eapply yields_bind; [apply yields_any|]; intros n _.
  destruct (Uigdrive.LARGE_FILE_THRESHOLD <=? st_size n).
  - eapply yields_bind; [apply yields_any|]; intros f _.
    eapply yields_bind; [apply yields_any|]; intros _ _.
    eapply yields_bind; [apply local_copy_loop_yields|].
    intros r [-> | ->].
    + eapply yields_bind; [apply yields_any|]; intros _ _. by apply yields_ret.
    + by apply yields_ret.
  - repeat (eapply yields_bind; [apply yields_any|]; intros ? _). by apply yields_ret.
Qed.

Lemma local_process_file_yields s d t :
  yields (reports s) (Uigdrive.LocalTransfer.process_file s d t).
Proof.
  unfold Uigdrive.LocalTransfer.process_file.
  eapply yields_bind; [apply yields_any|]. intros [] _.
  { by apply yields_ret. }
  apply yields_try.
  2:{ intros e. apply yields_ret. cbn. exists (str_exn e). by right. }
  eapply yields_bind; [apply yields_any|]. intros [] _.
  - apply local_copy_yields.
  - repeat (eapply yields_bind; [apply yields_any|]; intros ? _). by apply yields_ret.
Qed.

Lemma local_collect_yields t tasks : forall acc,
  yields (fun rs => exists results,
            rs = acc ++ results /\
            Forall2 reports (take (length results) (map fst tasks)) results)
         (Uigdrive.LocalTransfer.collect t tasks acc).
Proof.
  induction tasks as [|[s d] tasks IH]; intros acc; cbn [Uigdrive.LocalTransfer.collect].
  - apply yields_ret. exists []. by rewrite app_nil_r.
  - eapply (yields_bind (reports s)).
    { intros w r w' H. unfold try in H.
      destruct (Uigdrive.LocalTransfer.process_file s d t w) as [[r1|e] w1] eqn:E.
      - injection H as <- _. eapply local_process_file_yields, E.
      - pose proof (local_process_file_total s d t w) as (r2 & w2 & E2). congruence. }
    intros r Hr. eapply yields_bind; [apply yields_any|]. intros [] _.
    + eapply yields_bind; [apply yields_any|]; intros _ _. apply yields_ret.
      exists [r]. split; [done|]. cbn. by constructor.
    + intros w rs w' H. destruct (IH _ w rs w' H) as (results & -> & HF).
      exists (r :: results). split; [by rewrite <- app_assoc|].
      cbn. by constructor.
Qed.

(** X5.  The collecting loop returns its results in task order: the
    i-th result is the Updated, Skipped, Cancelled or Error message of
    the i-th source file.  In particular the "Worker exception" branch of
    the loop never produces a result. *)
Theorem results_follow_task_order (t : Z) (tasks : list (string * string)) (w : World) :
  exists results w',
    Uigdrive.LocalTransfer.collect t tasks [] w = (Ok results, w') /\
    Forall2 reports (take (length results) (map fst tasks)) results.
Proof.
  destruct (local_collect_spec t tasks [] w) as (results & w' & Hrun & _).
  exists results, w'. split; [exact Hrun|].
  destruct (local_collect_yields t tasks [] w _ w' Hrun) as (results' & Heq & HF).
  cbn in Heq. by subst.
Qed.



(** X7.  The shared byte counter never decreases over the collecting
    loop, drained futures included. *)
Theorem collect_counter_never_decreases (t : Z) (tasks : list (string * string))
    (acc : list Result) (w : World) :
  current_size w <= current_size (snd (Uigdrive.LocalTransfer.collect t tasks acc w)).
Proof.
  destruct (keeps_local_collect true t tasks acc w) as (_ & _ & _ & _ & _ & _ & _ & _ & K & _).
  by apply K.
Qed.

(** ** The same invariants for the engine of uipytest.py *)

Lemma keeps_transfer_needs_update mono ds s d :
  keeps mono ds (Uipytest.transfer.needs_update s d).
Proof. apply keeps_pure. intros w. by rewrite transfer_needs_update_spec. Qed.

Lemma keeps_transfer_copy_loop mono ds s d t cs :
  d ∈ ds -> keeps mono ds (Uipytest.transfer.copy_loop s d t cs).
Proof. rewrite copy_loop_same. apply keeps_local_copy_loop. Qed.

Lemma keeps_transfer_copy mono ds s d t :
  d ∈ ds -> keeps mono ds (Uipytest.transfer.copy_file_with_progress s d t).
Proof.
  intros Hd. unfold Uipytest.transfer.copy_file_with_progress.
  apply keeps_bind; [apply keeps_is_set|]. intros [|]; [apply keeps_ret|].
  apply keeps_try; [|intros e; apply keeps_ret].
  apply keeps_bind; [apply keeps_mkdir|]. intros _.
  apply keeps_bind; [apply keeps_stat|]. intros _.
  apply keeps_bind; [apply keeps_open_rb|]. intros fsrc.
  apply keeps_bind; [by apply keeps_open_wb|]. intros _.
  apply keeps_bind; [by apply keeps_transfer_copy_loop|]. intros [r|]; [apply keeps_ret|].
  apply keeps_bind; [|intros _; apply keeps_ret].
  apply keeps_try; [by apply keeps_copystat|intros e; apply keeps_ret].
Qed.

Lemma keeps_transfer_process_file mono ds s d t :
  d ∈ ds -> keeps mono ds (Uipytest.transfer.process_file s d t).
Proof.
  intros Hd. unfold Uipytest.transfer.process_file.
  apply keeps_bind; [apply keeps_is_set|]. intros [|]; [apply keeps_ret|].
  apply keeps_try; [|intros e; apply keeps_ret].
  apply keeps_bind; [apply keeps_transfer_needs_update|]. intros [|].
  - by apply keeps_transfer_copy.
  - apply keeps_bind; [apply keeps_get|]. intros w.
    apply keeps_bind.
    { destruct (t =? 0); [apply keeps_ret|apply keeps_percent_of]. }
    intros p. apply keeps_bind; [apply keeps_put_downloading|]. intros _. apply keeps_ret.
Qed.

Lemma keeps_transfer_drain mono t tasks :
  keeps mono (map snd tasks) (Uipytest.transfer.drain t tasks).
Proof.
  induction tasks as [|[s d] tasks IH]; cbn [Uipytest.transfer.drain].
  - apply keeps_ret.
  - apply keeps_bind.
    + apply keeps_try; [|intros e; apply keeps_ret].
      apply keeps_bind; [|intros _; apply keeps_ret].
      apply keeps_transfer_process_file. cbn. apply elem_of_cons. by left.
    + intros _. eapply keeps_mono; [|exact IH]. cbn. intros x Hx. apply elem_of_cons. by right.
Qed.

Lemma keeps_transfer_collect mono t tasks : forall acc,
  keeps mono (map snd tasks) (Uipytest.transfer.collect t tasks acc).
Proof.
  induction tasks as [|[s d] tasks IH]; intros acc; cbn [Uipytest.transfer.collect].
  - apply keeps_ret.
  - apply keeps_bind.
    + apply keeps_try; [|intros e; apply keeps_ret].
      apply keeps_transfer_process_file. cbn. apply elem_of_cons. by left.
    + intros res. apply keeps_bind; [apply keeps_is_set|]. intros [|].
      * apply keeps_bind; [|intros _; apply keeps_ret].
        eapply keeps_mono; [|apply keeps_transfer_drain]. cbn. intros x Hx. apply elem_of_cons. by right.
      * eapply keeps_mono; [|apply IH]. cbn. intros x Hx. apply elem_of_cons. by right.
Qed.

(** [sync_folder] once the destination root can be made: the collecting
    loop over the enumerated tasks, from a counter at 0. *)
Lemma transfer_sync_folder_listing self w :
  not_a_file w (joinpath (dst self) (name (src self))) ->
  exists total,
    Uipytest.transfer.sync_folder self w =
    Uipytest.transfer.collect total
      (tasks_of (src self) (joinpath (dst self) (name (src self))) (listing w (src self)))
      [] (set_current_size 0 w).
Proof.
  intros Hmk. unfold Uipytest.transfer.sync_folder.
  destruct (transfer_enum_walk_spec (src self) (joinpath (dst self) (name (src self)))
              (listing w (src self)) ([], 0) w) as (total & Henum).
  eexists. mstep (mkdir_ok _ _ Hmk). mstep (walk_listing w (src self)).
  mstep Henum. unfold bind at 1, modify. cbn [fst snd app]. reflexivity.
Qed.

Lemma transfer_sync_folder_blocked self w data mt r :
  fs w !! joinpath (dst self) (name (src self)) = Some (RegFile data mt r) ->
  exists e, Uipytest.transfer.sync_folder self w = (Raise e, w).
Proof.
  intros Hroot. eexists. unfold Uipytest.transfer.sync_folder.
  unfold bind at 1, os.mkdir, bind, get, raise. rewrite Hroot. reflexivity.
Qed.

Lemma transfer_sync_folder_evolves self w :
  evolves false
    (map snd (tasks_of (src self) (joinpath (dst self) (name (src self)))
                       (listing w (src self))))
    w (snd (Uipytest.transfer.sync_folder self w)).
Proof.
  destruct (fs w !! joinpath (dst self) (name (src self))) as [[data mt r|l sz mt]|] eqn:Hroot.
  - destruct (transfer_sync_folder_blocked self w data mt r Hroot) as (e & ->).
    apply evolves_refl.
  - destruct (transfer_sync_folder_listing self w) as (total & ->).
    { unfold not_a_file. by rewrite Hroot. }
    eapply evolves_trans; [apply evolves_reset|]. apply keeps_transfer_collect.
  - destruct (transfer_sync_folder_listing self w) as (total & ->).
    { unfold not_a_file. by rewrite Hroot. }
    eapply evolves_trans; [apply evolves_reset|]. apply keeps_transfer_collect.
Qed.

Lemma transfer_sync_file_evolves self w :
  evolves false [joinpath (dst self) (name (src self))]
    w (snd (Uipytest.transfer.sync_file self w)).
Proof.
  revert w.
  change (keeps false [joinpath (dst self) (name (src self))]
            (Uipytest.transfer.sync_file self)).
  unfold Uipytest.transfer.sync_file.
  apply keeps_bind.
  { apply keeps_try; [|intros e; apply keeps_ret].
    apply keeps_bind; [apply keeps_stat|]. intros n. apply keeps_ret. }
  intros t. apply keeps_bind; [apply keeps_reset|]. intros _.
  apply keeps_bind; [|intros r; apply keeps_ret].
  apply keeps_transfer_process_file. apply elem_of_cons. by left.
Qed.

(** A run, whatever happens: the sync (or nothing), one reading of the
    stop event, and one terminal event. *)
Lemma transfer_run_cases (self : Session) (w : World) :
  exists w1 term,
    evolves false (destinations self w) w w1 /\
    Uipytest.transfer.run self w =
      (Ok tt, set_progress_queue (progress_queue w1 ++ [term]) w1) /\
    is_terminal term.
Proof.
  unfold Uipytest.transfer.run, try.
  destruct (fs w !! src self) as [n|] eqn:Hsrc.
  2:{ mstep (exists_None _ _ Hsrc). cbn [negb].
      exists w, (Error ("Source does not exist: " +:+ src self)).
      split; [apply evolves_refl|]. split; [reflexivity|done]. }
  mstep (exists_Some _ _ _ Hsrc). cbn [negb].
  mstep (is_file_spec _ _ _ Hsrc). mstep (is_dir_spec _ _ _ Hsrc).
  assert (Hsync : exists sync,
            (if match n with RegFile _ _ _ => true | _ => false end
                || match n with Directory _ _ _ => true | _ => false end
             then
               results <- (if match n with RegFile _ _ _ => true | _ => false end
                           then Uipytest.transfer.sync_file self
                           else Uipytest.transfer.sync_folder self) ;;
               st <- is_set ;;
               if st then put Cancelled
               else if any_error results
                    then put (Error "Some files failed; check console")
                    else put (Done None)
             else put (Error ("Invalid source path: " +:+ src self)))
            = (results <- sync ;;
               st <- is_set ;;
               if st then put Cancelled
               else if any_error results
                    then put (Error "Some files failed; check console")
                    else put (Done None)) /\
            evolves false (destinations self w) w (snd (sync w))).
  { unfold destinations. rewrite Hsrc. destruct n.
    - exists (Uipytest.transfer.sync_file self). split; [reflexivity|].
      apply transfer_sync_file_evolves.
    - exists (Uipytest.transfer.sync_folder self). split; [reflexivity|].
      apply transfer_sync_folder_evolves. }
  destruct Hsync as (sync & -> & Hev).
  unfold bind at 1. destruct (sync w) as [[results|e] w1]; cbn [snd] in Hev.
  - unfold bind at 1.
    pose proof (keeps_is_set false (destinations self w) w1) as Hset.
    destruct (is_set w1) as [[st|e] w2] eqn:Hst; cbn [snd] in Hset.
    2:{ rewrite is_set_spec in Hst. discriminate. }
    exists w2. destruct st; [|destruct (any_error results)];
      (eexists; split; [by eapply evolves_trans|]; split; [reflexivity|done]).
  - exists w1, (Error (str_exn e)). split; [done|]. split; [reflexivity|done].
Qed.

(** X8.  [transfer.run] of uipytest.py never raises: it returns, and
    what it has added to the queue is a sequence of Downloading events
    followed by exactly one terminal event. *)
Theorem uipytest_run_ends_with_a_terminal_event (self : Session) (w : World) :
  exists evs term w',
    Uipytest.transfer.run self w = (Ok tt, w') /\
    progress_queue w' = progress_queue w ++ evs ++ [term] /\
    Forall is_downloading evs /\ is_terminal term.
Proof.
  destruct (transfer_run_cases self w) as (w1 & term & Hev & Hrun & Hterm).
  destruct Hev as (_ & _ & _ & _ & _ & _ & _ & _ & _ & evs & Hq & Hdl).
  exists evs, term. eexists. split; [exact Hrun|]. cbn.
  rewrite Hq, <- app_assoc. done.
Qed.

(** X9.  A run of [transfer] creates or changes no regular file other
    than the destinations of its tasks: every other regular file has after
    the run the bytes and metadata it had before, and none has appeared.
    The remote store is not touched. *)
Theorem uipytest_run_writes_only_destination_paths (self : Session) (w : World) :
  let w' := snd (Uipytest.transfer.run self w) in
  same_files (destinations self w) w w' /\ drive w' = drive w.
Proof.
  destruct (transfer_run_cases self w) as (w1 & term & Hev & Hrun & Hterm).
  rewrite Hrun. cbn.
  split.
  - intros p Hp data mt r. cbn. by apply (evolves_same_files _ _ _ _ Hev).
  - by destruct Hev as (_ & _ & _ & _ & D & _).
Qed.


(** ** The upload to the remote store *)

Lemma uploads_refl folder n counts w : uploads folder n counts w counts w.
Proof.
  repeat split; try done; try lia.
  - exists []. rewrite app_nil_r. repeat split; [done|]. cbn. lia.
  - exists []. by rewrite app_nil_r.
Qed.

Lemma uploads_trans folder n1 n2 c1 w1 c2 w2 c3 w3 :
  uploads folder n1 c1 w1 c2 w2 -> uploads folder n2 c2 w2 c3 w3 ->
  uploads folder (n1 + n2) c1 w1 c3 w3.
Proof.
  intros (F1 & O1 & S1 & (new1 & D1 & U1 & K1) & L1 & T1 & (e1 & Q1))
         (F2 & O2 & S2 & (new2 & D2 & U2 & K2) & L2 & T2 & (e2 & Q2)).
  repeat split; try congruence; auto; try lia.
  - exists (new1 ++ new2). rewrite D2, D1, app_assoc. split; [done|].
    split; [by apply Forall_app|]. rewrite length_app. lia.
  - exists (e1 ++ e2). by rewrite Q2, Q1, app_assoc.
Qed.

Lemma uploads_event folder n counts w ev :
  uploads folder n counts w counts (set_progress_queue (progress_queue w ++ [ev]) w).
Proof.
  repeat split; try done; try lia.
  - exists []. cbn. rewrite app_nil_r. repeat split; [done|]. lia.
  - by exists [ev].
Qed.

Lemma uploads_is_set folder n counts w :
  uploads folder n counts w counts (snd (is_set w)).
Proof.
  rewrite is_set_spec. cbn.
  destruct (stop_event w) as [[|k]|] eqn:E; try apply uploads_refl.
  repeat split; try done; try lia.
  - cbn. by rewrite E.
  - exists []. cbn. rewrite app_nil_r. repeat split; [done|]. lia.
  - exists []. cbn. by rewrite app_nil_r.
Qed.

(** One file of the pool: the closure never raises when the total is not
    zero, and it counts what it does. *)
Lemma check_and_upload_file_step folder remote total counts p w :
  total <> 0 ->
  exists counts' w',
    Uigdrive.GDriveTransfer.check_and_upload_file folder remote total counts p w
      = (Ok counts', w') /\
    uploads folder 1 counts w counts' w'.
Proof.
  intros Ht. unfold Uigdrive.GDriveTransfer.check_and_upload_file.
  unfold bind at 1.
  pose proof (uploads_is_set folder 0 counts w) as Hset.
  destruct (is_set w) as [[st|e] w0] eqn:Est.
  2:{ rewrite is_set_spec in Est. discriminate. }
  cbn [snd] in Hset. cbv beta iota.
  destruct st.
  { exists counts, w0. split; [done|].
    apply (uploads_trans folder 0 1 _ _ _ _ _ _ Hset), uploads_refl. }
  assert (Hfail : forall msg,
            exists (counts' : Z * Z) w',
              (put (Error msg) ;;; ret counts) w0 = (Ok counts', w') /\
              uploads folder 1 counts w counts' w').
  { intros msg. eexists _, _. split; [reflexivity|].
    apply (uploads_trans folder 0 1 _ _ _ _ _ _ Hset), uploads_event. }
  unfold try.
  destruct (fs w0 !! p) as [n|] eqn:Hp.
  2:{ unfold bind at 1, os.stat, bind at 1, get. rewrite Hp. unfold raise. apply Hfail. }
  mstep (stat_Some w0 p n Hp).
  unfold bind at 1. rewrite get_file_hash_spec, open_rb_spec, Hp.
  destruct n as [data mt [|]|l sz mt]; try apply Hfail.
  cbv beta iota.
  match goal with
  | |- context [if ?b then _ else _] => destruct b
  end.
  - unfold bind at 1. rewrite percent_of_spec by done.
    unfold bind at 1, put, modify, ret.
    eexists _, _. split; [reflexivity|].
    apply (uploads_trans folder 0 1 _ _ _ _ _ _ Hset).
    repeat split; try done; cbn; try lia.
    + exists []. rewrite app_nil_r. repeat split; [done|]. cbn. lia.
    + by eexists.
  - unfold bind at 1, Uigdrive.GoogleDrive.upload_file.
    unfold bind at 1. rewrite open_rb_spec, Hp.
    unfold bind at 1, get.
    destruct (drive_offline w0) eqn:Hoff.
    { unfold raise. apply Hfail. }
    unfold bind at 1, modify at 1, ret at 1. cbn [fst snd].
    unfold bind at 1. rewrite percent_of_spec by done.
    unfold bind at 1, put, modify, ret.
    eexists _, _. split; [reflexivity|].
    apply (uploads_trans folder 0 1 _ _ _ _ _ _ Hset).
    repeat split; try done; cbn; try lia.
    + eexists [_]. split; [reflexivity|]. split; [|cbn; lia].
      constructor; [|constructor]. by split.
    + by eexists.
Qed.

Lemma upload_all_step folder remote total paths : forall counts w,
  total <> 0 ->
  exists counts' w',
    Uigdrive.GDriveTransfer.upload_all folder remote total counts paths w
      = (Ok counts', w') /\
    uploads folder (length paths) counts w counts' w'.
Proof.
  induction paths as [|p paths IH]; intros counts w Ht.
  - exists counts, w. split; [done|]. apply uploads_refl.
  - cbn [Uigdrive.GDriveTransfer.upload_all]. unfold bind at 1.
    destruct (check_and_upload_file_step folder remote total counts p w Ht)
      as (c1 & w1 & -> & H1).
    destruct (IH c1 w1 Ht) as (c2 & w2 & -> & H2).
    exists c2, w2. split; [done|].
    apply (uploads_trans folder 1 (length paths) _ _ _ _ _ _ H1 H2).
Qed.

(** X10.  The upload pool never raises, never touches a local file, and
    only appends to the store: the new objects are plain files under the
    target folder, [uploaded_count] has grown by exactly their number,
    [skipped_count] has not decreased, and the two counters together have
    grown by at most the number of paths. *)
Theorem upload_all_counts_what_it_stores (folder : nat)
    (remote : gmap string Uigdrive.GDriveTransfer.RemoteInfo) (total : Z)
    (counts : Z * Z) (paths : list string) (w : World) :
  total <> 0 ->
  exists counts' w' new,
    Uigdrive.GDriveTransfer.upload_all folder remote total counts paths w
      = (Ok counts', w') /\
    fs w' = fs w /\
    drive w' = drive w ++ new /\
    Forall (uploaded_under folder) new /\
    fst counts' = fst counts + Z.of_nat (length new) /\
    snd counts <= snd counts' /\
    (fst counts' + snd counts') - (fst counts + snd counts) <= Z.of_nat (length paths).
Proof.
  intros Ht.
  destruct (upload_all_step folder remote total paths counts w Ht)
    as (c' & w' & Hrun & F & _ & _ & (new & D & U & K) & L & T & _).
  by exists c', w', new.
Qed.

Lemma upload_all_counts_what_it_stores_witness :
  exists counts' w' new,
    Uigdrive.GDriveTransfer.upload_all 1
      (Uigdrive.GDriveTransfer.remote_index
         (filter (fun g => parents g = Some 1%nat) (drive Samples.w_drive)))
      1 (0, 0) ["/s/a.txt"] Samples.w_drive = (Ok counts', w') /\
    fs w' = fs Samples.w_drive /\
    drive w' = drive Samples.w_drive ++ new /\
    Forall (uploaded_under 1) new /\
    fst counts' = 0 + Z.of_nat (length new) /\
    0 <= snd counts' /\
    (fst counts' + snd counts') - (0 + 0) <= 1.
Proof.
  apply (upload_all_counts_what_it_stores 1 _ 1 (0, 0) ["/s/a.txt"] Samples.w_drive).
  lia.
Defined.

(** The closure on a readable file, with no cancellation. *)
Lemma check_and_upload_file_spec (w : World) (folder : nat) (total_files : Z)
    (counts : Z * Z) (local_path : string) (data : list byte) (mt : Q)
    (remote_files : gmap string Uigdrive.GDriveTransfer.RemoteInfo) :
  stop_event w = None -> total_files <> 0 ->
  fs w !! local_path = Some (RegFile data mt true) ->
  Uigdrive.GDriveTransfer.check_and_upload_file folder remote_files total_files counts
    local_path w =
  if match remote_files !! name local_path with
     | Some info => (Z.of_nat (length data) =? Uigdrive.GDriveTransfer.r_size info)
                    && String.eqb (hashlib.hexdigest data) (Uigdrive.GDriveTransfer.r_md5 info)
     | None => false
     end
  then (Ok (fst counts, snd counts + 1),
        set_progress_queue
          (progress_queue w ++
             [Downloading (pct (fst counts + (snd counts + 1)) total_files)
                          ("(Skipped) " +:+ name local_path)]) w)
  else if drive_offline w
  then (Ok counts,
        set_progress_queue
          (progress_queue w ++
             [Error ("Failed to process " +:+ name local_path +:+ ": ApiRequestError")]) w)
  else (Ok (fst counts + 1, snd counts),
        set_progress_queue
          (progress_queue w ++
             [Downloading (pct (fst counts + 1 + snd counts) total_files) (name local_path)])
          (set_drive
             (drive w ++
                [{| gid := Uigdrive.GoogleDrive.fresh_id (drive w);
                    title := name local_path; parents := Some folder;
                    is_folder := false; fileSize := Z.of_nat (length data);
                    md5Checksum := Some (hashlib.hexdigest data) |}]) w)).
Proof.
  intros Hstop Ht Hfile.
  unfold Uigdrive.GDriveTransfer.check_and_upload_file.
  mstep (is_set_None w Hstop). unfold try.
  mstep (stat_Some w local_path _ Hfile).
  unfold bind at 1. rewrite get_file_hash_spec, (open_rb_ok w _ _ _ Hfile).
  cbv beta iota. cbn [st_size].
  match goal with
  | |- context [if ?b then _ else _] => destruct b
  end.
  - cbn [fst snd]. unfold bind at 1. rewrite percent_of_spec by done.
    unfold bind at 1, put, modify, ret. reflexivity.
  - unfold bind at 1, Uigdrive.GoogleDrive.upload_file.
    mstep (open_rb_ok w _ _ _ Hfile). unfold bind at 1, get.
    destruct (drive_offline w).
    + unfold raise. reflexivity.
    + unfold bind at 1, modify at 1, ret at 1. cbn [fst snd].
      unfold bind at 1. rewrite percent_of_spec by done.
      unfold bind at 1, put, modify, ret. reflexivity.
Qed.

(** X11.  A local file whose name is in the remote index with the same
    size and the same MD5 digest is not uploaded: only [skipped_count]
    grows, one "(Skipped)" progress event is published, at whatever
    percent, and the store is not even contacted (the world is otherwise
    unchanged). *)
Theorem unchanged_file_is_skipped (w : World) (folder : nat) (total_files : Z)
    (counts : Z * Z) (local_path : string) (data : list byte) (mt : Q)
    (remote_files : gmap string Uigdrive.GDriveTransfer.RemoteInfo)
    (info : Uigdrive.GDriveTransfer.RemoteInfo) :
  stop_event w = None -> total_files <> 0 ->
  fs w !! local_path = Some (RegFile data mt true) ->
  remote_files !! name local_path = Some info ->
  Z.of_nat (length data) = Uigdrive.GDriveTransfer.r_size info ->
  hashlib.hexdigest data = Uigdrive.GDriveTransfer.r_md5 info ->
  exists percent,
    Uigdrive.GDriveTransfer.check_and_upload_file folder remote_files total_files counts
      local_path w =
      (Ok (fst counts, snd counts + 1),
       set_progress_queue
         (progress_queue w ++ [Downloading percent ("(Skipped) " +:+ name local_path)]) w).
Proof.
  intros Hstop Ht Hfile Hremote Hsize Hmd5.
  rewrite (check_and_upload_file_spec w folder total_files counts local_path data mt
             remote_files Hstop Ht Hfile).
  rewrite Hremote, Hsize, Hmd5, Z.eqb_refl, String.eqb_refl. by eexists.
Qed.

Lemma unchanged_file_is_skipped_witness :
  exists percent,
    Uigdrive.GDriveTransfer.check_and_upload_file 1
      (Uigdrive.GDriveTransfer.remote_index
         (filter (fun g => parents g = Some 1%nat) (drive Samples.w_drive_synced)))
      1 (0, 0) "/s/a.txt" Samples.w_drive_synced =
      (Ok (0, 1),
       set_progress_queue [Downloading percent "(Skipped) a.txt"] Samples.w_drive_synced).
Proof.
  apply (unchanged_file_is_skipped Samples.w_drive_synced 1 1 (0, 0) "/s/a.txt"
           (Samples.bytes_of "newer") (5 # 1) _
           {| Uigdrive.GDriveTransfer.r_id := 2; Uigdrive.GDriveTransfer.r_size := 5;
              Uigdrive.GDriveTransfer.r_md5 :=
                hashlib.hexdigest (Samples.bytes_of "newer") |}).
  - reflexivity.
  - lia.
  - reflexivity.
  - vm_compute. reflexivity.
  - reflexivity.
  - reflexivity.
Defined.

(** The entry of a title in the index, when the listing holds one object
    of that title: whatever the order of the listing. *)
Lemma remote_index_unique (l : list GFile) (t : string) (g : GFile) (h : string) :
  g ∈ l -> title g = t -> md5Checksum g = Some h ->
  (forall g', g' ∈ l -> title g' = t -> g' = g) ->
  Uigdrive.GDriveTransfer.remote_index l !! t =
    Some {| Uigdrive.GDriveTransfer.r_id := gid g;
            Uigdrive.GDriveTransfer.r_size := fileSize g;
            Uigdrive.GDriveTransfer.r_md5 := h |}.
Proof.
  intros Hin Ht Hh Huniq. unfold Uigdrive.GDriveTransfer.remote_index.
  set (info := {| Uigdrive.GDriveTransfer.r_id := gid g;
                  Uigdrive.GDriveTransfer.r_size := fileSize g;
                  Uigdrive.GDriveTransfer.r_md5 := h |}).
  assert (Hgen : forall m : gmap string Uigdrive.GDriveTransfer.RemoteInfo,
            g ∈ l \/ m !! t = Some info ->
            foldl (fun m file =>
                     match md5Checksum file with
                     | Some h => <[title file := {| Uigdrive.GDriveTransfer.r_id := gid file;
                                                    Uigdrive.GDriveTransfer.r_size := fileSize file;
                                                    Uigdrive.GDriveTransfer.r_md5 := h |}]> m
                     | None => m
                     end) m l !! t = Some info).
  { clear Hin. induction l as [|x l IH]; intros m Hm.
    - destruct Hm as [Hm|Hm]; [by apply elem_of_nil in Hm|done].
    - cbn [foldl]. apply IH.
      { intros g' Hg'. apply Huniq. apply elem_of_cons. by right. }
      destruct (decide (title x = t)) as [Hx|Hx].
      + assert (x = g) as -> by (apply Huniq; [apply elem_of_cons; by left|done]).
        right. rewrite Hh, Ht. by rewrite lookup_insert_eq.
      + destruct Hm as [Hm|Hm].
        * apply elem_of_cons in Hm as [->|Hm]; [done|by left].
        * right. destruct (md5Checksum x); [|done]. by rewrite lookup_insert_ne. }
  apply Hgen. by left.
Qed.

(** X12.  A readable file whose name no object of the folder bears is
    uploaded once: the first pass uploads it, and a second pass over the
    same file skips it and leaves the store as it is.  This holds for
    every order in which the store lists the folder when the index is
    built, before the first pass and before the second. *)
Theorem uploaded_file_is_skipped_next_time (w : World) (folder : nat) (total_files : Z)
    (counts : Z * Z) (local_path : string) (data : list byte) (mt : Q)
    (listing0 : list GFile) :
  stop_event w = None -> drive_offline w = false -> total_files <> 0 ->
  fs w !! local_path = Some (RegFile data mt true) ->
  titled folder (name local_path) (drive w) = [] ->
  listing0 ≡ₚ filter (fun g => parents g = Some folder) (drive w) ->
  exists g w1,
    Uigdrive.GDriveTransfer.check_and_upload_file folder
      (Uigdrive.GDriveTransfer.remote_index listing0) total_files counts local_path w
      = (Ok (fst counts + 1, snd counts), w1) /\
    drive w1 = drive w ++ [g] /\
    forall listing1 : list GFile,
      listing1 ≡ₚ filter (fun g => parents g = Some folder) (drive w1) ->
      exists w2,
        Uigdrive.GDriveTransfer.check_and_upload_file folder
          (Uigdrive.GDriveTransfer.remote_index listing1) total_files
          (fst counts + 1, snd counts) local_path w1
          = (Ok (fst counts + 1, snd counts + 1), w2) /\
        drive w2 = drive w1.
Proof.
  intros Hstop Hon Ht Hfile Hnone Hperm0.
  set (g := {| gid := Uigdrive.GoogleDrive.fresh_id (drive w); title := name local_path;
               parents := Some folder; is_folder := false;
               fileSize := Z.of_nat (length data);
               md5Checksum := Some (hashlib.hexdigest data) |}).
  assert (Hidx0 : Uigdrive.GDriveTransfer.remote_index listing0 !! name local_path = None).
  { destruct (Uigdrive.GDriveTransfer.remote_index listing0 !! name local_path)
      as [info|] eqn:E; [|done].
    apply remote_index_lookup in E as [E | (g' & Hin & Htitle & _)].
    { by rewrite lookup_empty in E. }
    rewrite Hperm0 in Hin. apply list_elem_of_filter in Hin as [Hpar Hin].
    assert (Hin' : g' ∈ titled folder (name local_path) (drive w)).
    { unfold titled. apply list_elem_of_filter. done. }
    rewrite Hnone in Hin'. by apply elem_of_nil in Hin'. }
  exists g. eexists. split.
  { rewrite (check_and_upload_file_spec w folder total_files counts local_path data mt
               _ Hstop Ht Hfile).
    rewrite Hidx0, Hon. reflexivity. }
  split; [reflexivity|].
  intros listing1 Hperm1.
  cbn [drive set_progress_queue set_drive] in Hperm1.
  rewrite filter_app, (filter_cons_True _ g []), filter_nil in Hperm1 by done.
  match goal with
  | |- context [Uigdrive.GDriveTransfer.check_and_upload_file _ ?r _ ?c _ ?w1] =>
      rewrite (check_and_upload_file_spec w1 folder total_files c local_path data mt
                 r Hstop Ht Hfile)
  end.
  rewrite (remote_index_unique listing1 (name local_path) g (hashlib.hexdigest data)).
  - cbn [Uigdrive.GDriveTransfer.r_size Uigdrive.GDriveTransfer.r_md5 fileSize g].
    rewrite Z.eqb_refl, String.eqb_refl. cbn [andb]. eexists. split; reflexivity.
  - rewrite Hperm1. apply elem_of_app. right. apply elem_of_cons. by left.
  - reflexivity.
  - reflexivity.
  - intros g' Hin Htitle. rewrite Hperm1 in Hin.
    apply elem_of_app in Hin as [Hin|Hin].
    + apply list_elem_of_filter in Hin as [Hpar Hin].
      assert (Hin' : g' ∈ titled folder (name local_path) (drive w)).
      { unfold titled. apply list_elem_of_filter. done. }
      rewrite Hnone in Hin'. by apply elem_of_nil in Hin'.
    + apply elem_of_cons in Hin as [->|Hin]; [done|by apply elem_of_nil in Hin].
Qed.

Lemma uploaded_file_is_skipped_next_time_witness :
  exists g w1,
    Uigdrive.GDriveTransfer.check_and_upload_file 1
      (Uigdrive.GDriveTransfer.remote_index
         (filter (fun g => parents g = Some 1%nat) (drive Samples.w_drive_synced)))
      2 (0, 1) "/s/b.txt"
      (set_fs (<["/s/b.txt" := RegFile (Samples.bytes_of "b") (5 # 1) true]>
                 (fs Samples.w_drive_synced)) Samples.w_drive_synced)
      = (Ok (0 + 1, 1), w1) /\
    drive w1 = drive Samples.w_drive_synced ++ [g].
Proof.
  destruct (uploaded_file_is_skipped_next_time
              (set_fs (<["/s/b.txt" := RegFile (Samples.bytes_of "b") (5 # 1) true]>
                         (fs Samples.w_drive_synced)) Samples.w_drive_synced)
              1 2 (0, 1) "/s/b.txt" (Samples.bytes_of "b") (5 # 1)
              (filter (fun g => parents g = Some 1%nat) (drive Samples.w_drive_synced)))
    as (g & w1 & H1 & H2 & _).
  - reflexivity.
  - reflexivity.
  - lia.
  - vm_compute. reflexivity.
  - vm_compute. reflexivity.
  - reflexivity.
  - exists g, w1. split; [exact H1|exact H2].
Defined.

(** X13.  A file that cannot be read (missing, unreadable or a
    directory) costs one Error event and nothing else: the counters are
    unchanged and the pool goes on with the remaining paths. *)
Theorem failed_file_does_not_stop_the_pool (folder : nat)
    (remote : gmap string Uigdrive.GDriveTransfer.RemoteInfo) (total : Z)
    (counts : Z * Z) (p : string) (paths : list string) (w : World) :
  stop_event w = None ->
  (forall data mt, fs w !! p <> Some (RegFile data mt true)) ->
  exists msg,
    Uigdrive.GDriveTransfer.upload_all folder remote total counts (p :: paths) w =
    Uigdrive.GDriveTransfer.upload_all folder remote total counts paths
      (set_progress_queue (progress_queue w ++ [Error msg]) w).
Proof.
  intros Hstop Hp.
  cbn [Uigdrive.GDriveTransfer.upload_all].
  unfold bind at 1, Uigdrive.GDriveTransfer.check_and_upload_file.
  mstep (is_set_None w Hstop). unfold try.
  destruct (fs w !! p) as [n|] eqn:Hfs.
  2:{ eexists. unfold bind at 1, os.stat, bind at 1, get. rewrite Hfs.
      unfold raise. reflexivity. }
  mstep (stat_Some w p n Hfs).
  unfold bind at 1. rewrite get_file_hash_spec, open_rb_spec, Hfs.
  destruct n as [data mt [|]|l sz mt].
  - by destruct (Hp data mt).
  - eexists. reflexivity.
  - eexists. reflexivity.
Qed.

Lemma failed_file_does_not_stop_the_pool_witness :
  exists msg,
    Uigdrive.GDriveTransfer.upload_all 1 ∅ 2 (0, 0) ["/s/missing"; "/s/a.txt"]
      Samples.w_drive =
    Uigdrive.GDriveTransfer.upload_all 1 ∅ 2 (0, 0) ["/s/a.txt"]
      (set_progress_queue (progress_queue Samples.w_drive ++ [Error msg]) Samples.w_drive).
Proof.
  apply (failed_file_does_not_stop_the_pool 1 ∅ 2 (0, 0) "/s/missing" ["/s/a.txt"]
           Samples.w_drive).
  - reflexivity.
  - intros data mt. vm_compute. discriminate.
Defined.

Lemma list_folders_spec t w :
  Uigdrive.GoogleDrive.list_folders t w =
    if drive_offline w then (Raise (OSError "ApiRequestError"), w)
    else (Ok (filter (fun g => is_folder g = true /\ title g = t) (drive w)), w).
Proof. unfold Uigdrive.GoogleDrive.list_folders, bind, get. by destruct (drive_offline w). Qed.

Lemma list_children_spec folder w :
  Uigdrive.GoogleDrive.list_children folder w =
    if drive_offline w then (Raise (OSError "ApiRequestError"), w)
    else (Ok (filter (fun g => parents g = Some folder) (drive w)), w).
Proof. unfold Uigdrive.GoogleDrive.list_children, bind, get. by destruct (drive_offline w). Qed.

Lemma is_dir_eq w p :
  os.is_dir p w =
    (Ok (match fs w !! p with Some (Directory _ _ _) => true | _ => false end), w).
Proof. reflexivity. Qed.

Lemma put_spec ev w : put ev w = (Ok tt, set_progress_queue (progress_queue w ++ [ev]) w).
Proof. reflexivity. Qed.

Lemma gdrive_run_cases (self : Session) (w : World) :
  exists w' folders files evs term,
    Uigdrive.GDriveTransfer.run self w = (Ok tt, w') /\
    fs w' = fs w /\
    drive w' = drive w ++ folders ++ files /\
    (folders = [] \/
     exists g, folders = [g] /\ is_folder g = true /\ title g = name (src self) /\
               forall f, f ∈ drive w -> ~ (is_folder f = true /\ title f = name (src self))) /\
    (exists fid, Forall (uploaded_under fid) files) /\
    progress_queue w' = progress_queue w ++ evs ++ [term] /\
    is_terminal term.
Proof.
  unfold Uigdrive.GDriveTransfer.run.
  mstep (is_dir_eq w (src self)).
  destruct (fs w !! src self) as [[data mt r|walked sz mt]|] eqn:Hsrc; cbn [negb].
  1,3: (eexists _, [], [], [], _; split; [reflexivity|]; cbn;
        rewrite ?app_nil_r; repeat split; try done; try (by left); try (by exists O)).
  unfold try.
  mstep (put_spec (Status "Finding destination folder on Drive...") w).
  set (w1 := set_progress_queue _ w).
  mstep (list_folders_spec (name (src self)) w1).
  destruct (drive_offline w) eqn:Hoff; cbn [drive_offline w1 set_progress_queue];
    rewrite Hoff.
  { eexists _, [], [], [_], _. split; [reflexivity|]. cbn.
    rewrite ?app_nil_r, <- ?app_assoc. repeat split; try done; try (by left); try (by exists O). }
  cbn [drive w1 set_progress_queue].
  (* the folder: found, or created *)
  assert (Hfolder : exists g w2 folders evs2,
            (match filter (fun g => is_folder g = true /\ title g = name (src self)) (drive w) with
             | g :: _ =>
                 put (Status ("Found existing folder: '" +:+ name (src self) +:+ "'")) ;;;
                 ret g
             | [] =>
                 put (Status ("Creating new folder: '" +:+ name (src self) +:+ "'...")) ;;;
                 Uigdrive.GoogleDrive.upload_folder (name (src self))
             end) w1 = (Ok g, w2) /\
            fs w2 = fs w /\ drive_offline w2 = false /\
            drive w2 = drive w ++ folders /\
            progress_queue w2 = progress_queue w ++ evs2 /\
            (folders = [] \/
             exists g, folders = [g] /\ is_folder g = true /\ title g = name (src self) /\
               forall f, f ∈ drive w -> ~ (is_folder f = true /\ title f = name (src self)))).
  { destruct (filter _ (drive w)) as [|g l] eqn:Hlist.
    - unfold bind at 1, put at 1, modify at 1.
      unfold Uigdrive.GoogleDrive.upload_folder, bind at 1, get.
      cbn [drive_offline w1 set_progress_queue]. rewrite Hoff.
      unfold bind, modify, ret.
      eexists _, _, [_], [_; _]. split; [reflexivity|]. cbn.
      rewrite <- ?app_assoc. repeat split; try done. right. eexists. repeat split; try done.
      intros f Hf HP. exact (filter_nil_not_elem_of _ _ f Hlist HP Hf).
    - unfold bind, put, modify, ret.
      eexists _, _, [], [_; _]. split; [reflexivity|]. cbn.
      rewrite app_nil_r, <- ?app_assoc. repeat split; try done. by left. }
  destruct Hfolder as (g & w2 & folders & evs2 & Hg & Hfs2 & Hoff2 & Hd2 & Hq2 & Hfold).
  mstep Hg.
  mstep (put_spec (Status "Checking for existing files...") w2).
  set (w3 := set_progress_queue _ w2).
  mstep (list_children_spec (gid g) w3).
  cbn [drive_offline w3 set_progress_queue]. rewrite Hoff2. cbv beta iota.
  mstep (walk_listing w3 (src self)).
  unfold listing. cbn [fs w3 set_progress_queue]. rewrite Hfs2, Hsrc.
  set (paths := flat_map _ walked).
  destruct (Z.of_nat (length paths) =? 0) eqn:Hn.
  { eexists _, folders, [], (evs2 ++ [_]), _. split; [reflexivity|]. cbn.
    rewrite app_nil_r, Hq2, <- !app_assoc. repeat split; try done. by exists O. }
  apply Z.eqb_neq in Hn.
  unfold bind at 1.
  destruct (upload_all_step (gid g) (Uigdrive.GDriveTransfer.remote_index
              (filter (fun g0 => parents g0 = Some (gid g)) (drive w3)))
              (Z.of_nat (length paths)) paths (0, 0) w3 Hn)
    as (counts & w4 & Hup & F4 & O4 & S4 & (files & D4 & U4 & K4) & L4 & T4 & (evs4 & Q4)).
  rewrite Hup. cbv beta iota.
  unfold bind at 1. rewrite is_set_spec.
  set (w5 := match stop_event w4 with
             | Some (S k) => set_stop_event (Some k) w4
             | _ => w4
             end).
  assert (H5 : fs w5 = fs w4 /\ drive w5 = drive w4 /\ progress_queue w5 = progress_queue w4).
  { subst w5. by destruct (stop_event w4) as [[|]|]. }
  destruct H5 as (F5 & D5 & Q5).
  destruct (stop_is_set w4);
    (eexists _, folders, files, (evs2 ++ [_] ++ evs4), _; split; [reflexivity|]; cbn;
     rewrite F5, D5, Q5, F4, D4, Q4; cbn; rewrite Hfs2, Hd2, Hq2, <- !app_assoc;
     repeat split; try done; by exists (gid g)).
Qed.

(** X14.  [GDriveTransfer.run] never raises and never writes a local
    file.  The store only grows: by at most one folder, created with the
    source's name and only when no folder of that title existed, followed
    by plain files that all lie under one folder.  The queue ends with
    one terminal event. *)
Theorem gdrive_run_only_appends (self : Session) (w : World) :
  exists w' folders files evs term,
    Uigdrive.GDriveTransfer.run self w = (Ok tt, w') /\
    fs w' = fs w /\
    drive w' = drive w ++ folders ++ files /\
    (folders = [] \/
     exists g, folders = [g] /\ is_folder g = true /\ title g = name (src self) /\
               forall f, f ∈ drive w -> ~ (is_folder f = true /\ title f = name (src self))) /\
    (exists fid, Forall (uploaded_under fid) files) /\
    progress_queue w' = progress_queue w ++ evs ++ [term] /\
    is_terminal term.
Proof. apply gdrive_run_cases. Qed.

Lemma count_events_snoc total names nm : forall counted,
  count_events total counted (names ++ [nm]) =
    count_events total counted names ++
    [Downloading (pct (counted + Z.of_nat (length names) + 1) total) nm].
Proof.
  induction names as [|n names IH]; intros counted; cbn [count_events app length].
  - replace (counted + Z.of_nat 0 + 1) with (counted + 1) by lia. reflexivity.
  - rewrite IH.
    replace (counted + 1 + Z.of_nat (length names) + 1)
      with (counted + Z.of_nat (S (length names)) + 1) by lia.
    reflexivity.
Qed.

Lemma count_events_downloading total names : forall counted,
  Forall is_downloading (count_events total counted names).
Proof. induction names as [|n names IH]; intros counted; cbn; by constructor. Qed.

Lemma count_events_length total names : forall counted,
  length (count_events total counted names) = length names.
Proof. induction names as [|n names IH]; intros counted; cbn; [done|]. by rewrite IH. Qed.

(** The pool when every file can be read, the store answers and nobody
    cancels: every file is counted, and each publishes its percent. *)
Lemma upload_all_readable folder remote total paths : forall counts w,
  stop_event w = None -> drive_offline w = false -> total <> 0 ->
  Forall (fun p => exists data mt, fs w !! p = Some (RegFile data mt true)) paths ->
  exists counts' w' names,
    Uigdrive.GDriveTransfer.upload_all folder remote total counts paths w
      = (Ok counts', w') /\
    fst counts' + snd counts' = fst counts + snd counts + Z.of_nat (length paths) /\
    length names = length paths /\
    progress_queue w' =
      progress_queue w ++ count_events total (fst counts + snd counts) names.
Proof.
  induction paths as [|p paths IH]; intros counts w Hstop Hon Ht Hall.
  - exists counts, w, []. cbn. rewrite app_nil_r. repeat split; try done. lia.
  - inversion Hall as [|? ? (data & mt & Hp) Hrest]; subst.
    cbn [Uigdrive.GDriveTransfer.upload_all]. unfold bind at 1.
    rewrite (check_and_upload_file_spec w folder total counts p data mt remote Hstop Ht Hp).
    rewrite Hon.
    match goal with
    | |- context [if ?b then _ else _] => destruct b
    end.
    + edestruct (IH (fst counts, snd counts + 1)) as (c' & w' & names & -> & Hsum & Hlen & Hq);
        [exact Hstop | exact Hon | exact Ht | exact Hrest |].
      exists c', w', (("(Skipped) " +:+ name p) :: names).
      split; [done|]. cbn [fst snd length] in *. split; [lia|]. split; [by rewrite Hlen|].
      rewrite Hq. cbn [progress_queue set_progress_queue count_events].
      rewrite <- app_assoc. cbn [app].
      by replace (fst counts + (snd counts + 1)) with (fst counts + snd counts + 1) by lia.
    + edestruct (IH (fst counts + 1, snd counts)) as (c' & w' & names & -> & Hsum & Hlen & Hq);
        [exact Hstop | exact Hon | exact Ht | exact Hrest |].
      exists c', w', (name p :: names).
      split; [done|]. cbn [fst snd length] in *. split; [lia|]. split; [by rewrite Hlen|].
      rewrite Hq. cbn [progress_queue set_progress_queue set_drive count_events].
      rewrite <- app_assoc. cbn [app].
      by replace (fst counts + 1 + snd counts) with (fst counts + snd counts + 1) by lia.
Qed.

(** X26.  When every local file can be read, the store answers and
    nobody cancels, the pool counts every file as uploaded or skipped,
    publishes one Downloading event per file, and the last of them is at
    100 percent. *)
Theorem upload_all_reaches_100 (folder : nat)
    (remote : gmap string Uigdrive.GDriveTransfer.RemoteInfo)
    (paths : list string) (w : World) :
  stop_event w = None -> drive_offline w = false -> paths <> [] ->
  Forall (fun p => exists data mt, fs w !! p = Some (RegFile data mt true)) paths ->
  exists counts' w' evs nm,
    Uigdrive.GDriveTransfer.upload_all folder remote (Z.of_nat (length paths)) (0, 0)
      paths w = (Ok counts', w') /\
    fst counts' + snd counts' = Z.of_nat (length paths) /\
    progress_queue w' = progress_queue w ++ evs ++ [Downloading 100 nm] /\
    Forall is_downloading evs /\
    S (length evs) = length paths.
Proof.
  intros Hstop Hon Hne Hall.
  assert (Ht : Z.of_nat (length paths) <> 0) by (destruct paths; [done|cbn; lia]).
  destruct (upload_all_readable folder remote (Z.of_nat (length paths)) paths (0, 0) w
              Hstop Hon Ht Hall) as (c' & w' & names & Hrun & Hsum & Hlen & Hq).
  induction names as [|nm names' _] using rev_ind.
  { destruct paths; [done|discriminate]. }
  exists c', w', (count_events (Z.of_nat (length paths)) 0 names'), nm.
  split; [exact Hrun|]. split; [cbn in Hsum; lia|].
  rewrite length_app in Hlen. cbn [length] in Hlen.
  split.
  { rewrite Hq. cbn [fst snd]. rewrite count_events_snoc. do 3 f_equal.
    replace (0 + 0 + Z.of_nat (length names') + 1) with (Z.of_nat (length paths)) by lia.
    rewrite pct_floor by lia. rewrite Z.div_mul by lia. reflexivity. }
  split; [apply count_events_downloading|].
  rewrite count_events_length. lia.
Qed.

Lemma upload_all_reaches_100_witness :
  exists counts' w' evs nm,
    Uigdrive.GDriveTransfer.upload_all 1 ∅ (Z.of_nat (length ["/s/a.txt"])) (0, 0)
      ["/s/a.txt"] Samples.w_drive = (Ok counts', w') /\
    fst counts' + snd counts' = Z.of_nat (length ["/s/a.txt"]) /\
    progress_queue w' = progress_queue Samples.w_drive ++ evs ++ [Downloading 100 nm] /\
    Forall is_downloading evs /\
    S (length evs) = length ["/s/a.txt"].
Proof.
  apply (upload_all_reaches_100 1 ∅ ["/s/a.txt"] Samples.w_drive).
  - reflexivity.
  - reflexivity.
  - discriminate.
  - repeat constructor. by exists (Samples.bytes_of "newer"), (5 # 1).
Defined.

(** ** The windows *)

Lemma new_events_app w w' evs :
  progress_queue w' = progress_queue w ++ evs -> new_events w w' = evs.
Proof. intros H. unfold new_events. by rewrite H, drop_app_length. Qed.

Lemma process_worker_events tab evs : forall app st,
  tab <> "" -> Uigdrive.App.tab_states app !! tab = Some st ->
  exists ds,
    Uigdrive.App._process_queue app (tagged tab evs) =
      ({| Uigdrive.App.tab_states := <[tab := after_events st evs]> (Uigdrive.App.tab_states app);
          Uigdrive.App.dialogs := Uigdrive.App.dialogs app ++ ds |}, []).
Proof.
  induction evs as [|ev evs IH]; intros app st Htab Hst.
  - exists []. cbn. rewrite insert_id, app_nil_r by done. by destruct app.
  - cbn [tagged map Uigdrive.App._process_queue]. fold (tagged tab evs).
    unfold Uigdrive.App.process_msg at 1 2. cbn [Uigdrive.App.tab_id Uigdrive.App.payload].
    destruct (String.eqb_spec tab ""); [done|]. rewrite Hst. cbn [fst snd].
    assert (Hok : snd (Uigdrive.App.handle st (Uigdrive.App.FromWorker ev)) = true)
      by by destruct ev.
    rewrite Hok.
    set (st1 := fst (fst (Uigdrive.App.handle st (Uigdrive.App.FromWorker ev)))).
    match goal with
    | |- context [Uigdrive.App._process_queue ?app1 _] =>
        destruct (IH app1 st1 Htab) as (ds & ->)
    end.
    { cbn. by rewrite lookup_insert_eq. }
    eexists. cbn [Uigdrive.App.tab_states Uigdrive.App.dialogs].
    rewrite insert_insert_eq, <- app_assoc. reflexivity.
Qed.

Lemma after_events_app st evs evs' :
  after_events st (evs ++ evs') = after_events (after_events st evs) evs'.
Proof. apply foldl_app. Qed.

Lemma after_terminal st term : is_terminal term -> rearmed (after_events st [term]).
Proof. by destruct term. Qed.

Lemma after_non_terminal st evs :
  Forall (fun ev => ~ is_terminal ev) evs ->
  Uigdrive.App.start_btn (after_events st evs) = Uigdrive.App.start_btn st /\
  Uigdrive.App.stop_btn (after_events st evs) = Uigdrive.App.stop_btn st /\
  Uigdrive.App.worker_thread (after_events st evs) = Uigdrive.App.worker_thread st.
Proof.
  intros H. revert st. induction H as [|ev evs Hev _ IH]; intros st; [done|].
  change (after_events st (ev :: evs))
    with (after_events (after_events st [ev]) evs).
  destruct (IH (after_events st [ev])) as (-> & -> & ->).
  destruct ev; try done; by destruct Hev.
Qed.

Lemma thread_run_ends_on_terminal t w :
  exists evs term,
    progress_queue (snd (thread_run t w)) = progress_queue w ++ evs ++ [term] /\
    is_terminal term.
Proof.
  destruct t as [self|s]; cbn [thread_run].
  - destruct (local_run_cases self w) as (w1 & term & Hev & -> & Hterm).
    destruct Hev as (_ & _ & _ & _ & _ & _ & _ & _ & _ & evs & Hq & _).
    exists evs, term. cbn. by rewrite Hq, <- app_assoc.
  - destruct (gdrive_run_cases {| src := s; dst := ""; workers := 0 |} w)
      as (w' & _ & _ & evs & term & -> & _ & _ & _ & _ & Hq & Hterm).
    by exists evs, term.
Qed.

(** X15.  Whatever a worker of uigdrive.py does (local or Drive), once
    the window has taken its messages off the queue the worker's tab can
    start a new transfer: Start is enabled, Cancel disabled, no thread is
    attached, the queue is empty, and the other tabs are as they were. *)
Theorem every_run_rearms_its_tab (app : Uigdrive.App.App) (tab : string)
    (st : Uigdrive.App.TabState) (t : Uigdrive.App.Thread) (w : World) :
  tab <> "" -> Uigdrive.App.tab_states app !! tab = Some st ->
  let w' := snd (thread_run t w) in
  exists app' st',
    Uigdrive.App._process_queue app (tagged tab (new_events w w')) = (app', []) /\
    Uigdrive.App.tab_states app' !! tab = Some st' /\
    rearmed st' /\
    forall other, other <> tab ->
      Uigdrive.App.tab_states app' !! other = Uigdrive.App.tab_states app !! other.
Proof.
  intros Htab Hst w'.
  destruct (thread_run_ends_on_terminal t w) as (evs & term & Hq & Hterm).
  rewrite (new_events_app w w' _ Hq).
  destruct (process_worker_events tab (evs ++ [term]) app st Htab Hst) as (ds & ->).
  eexists _, _. split; [reflexivity|]. cbn [Uigdrive.App.tab_states].
  split; [by rewrite lookup_insert_eq|]. split.
  - rewrite after_events_app. by apply after_terminal.
  - intros other Ho. by rewrite lookup_insert_ne.
Qed.

Lemma after_events_keeps_identity st evs :
  Uigdrive.App.tab_name (after_events st evs) = Uigdrive.App.tab_name st /\
  Uigdrive.App.gdrive_service (after_events st evs) = Uigdrive.App.gdrive_service st.
Proof.
  revert st. induction evs as [|ev evs IH]; intros st; [done|].
  change (after_events st (ev :: evs))
    with (after_events (after_events st [ev]) evs).
  destruct (IH (after_events st [ev])) as (-> & ->). by destruct ev.
Qed.

(** X16.  An Error message ends the session for the window even when
    the worker goes on (X13): after it, and after any later Downloading
    or Status messages of the same worker, the tab is re-armed, so
    [cancel_transfer] does nothing and cannot set the stop event, and on
    a logged-in Drive tab [start_transfer] starts a second thread. *)
Theorem error_message_detaches_the_worker (app : Uigdrive.App.App) (tab : string)
    (st : Uigdrive.App.TabState) (evs later : list Event) (m : string) :
  tab <> "" -> Uigdrive.App.tab_states app !! tab = Some st ->
  Forall (fun ev => ~ is_terminal ev) later ->
  exists app' st',
    Uigdrive.App._process_queue app (tagged tab (evs ++ Error m :: later)) = (app', []) /\
    Uigdrive.App.tab_states app' !! tab = Some st' /\
    rearmed st' /\
    Uigdrive.App.cancel_transfer st' = st' /\
    forall (w : World) (WORKERS : nat) (src dst : string),
      Uigdrive.App.tab_name st = "GDrive Transfer" ->
      Uigdrive.App.gdrive_service st = true ->
      src <> "" -> is_Some (fs w !! src) ->
      snd (Uigdrive.App.start_transfer w WORKERS src dst st') =
        Some (Uigdrive.App.GDriveThread src).
Proof.
  intros Htab Hst Hlater.
  destruct (process_worker_events tab (evs ++ Error m :: later) app st Htab Hst) as (ds & ->).
  eexists _, _. split; [reflexivity|]. cbn [Uigdrive.App.tab_states].
  split; [by rewrite lookup_insert_eq|].
  assert (Hre : rearmed (after_events st (evs ++ Error m :: later))).
  { rewrite after_events_app.
    change (Error m :: later) with ([Error m] ++ later). rewrite after_events_app.
    destruct (after_non_terminal (after_events (after_events st evs) [Error m]) later Hlater)
      as (Hs & Hp & Hw).
    unfold rearmed. rewrite Hs, Hp, Hw. by apply after_terminal. }
  split; [exact Hre|]. split.
  { destruct Hre as (_ & _ & Hw). unfold Uigdrive.App.cancel_transfer. by rewrite Hw. }
  intros w WORKERS src dst Hname Hsvc Hsrc Hex.
  destruct (after_events_keeps_identity st (evs ++ Error m :: later)) as (Hn & Hg).
  unfold Uigdrive.App.start_transfer.
  destruct (String.eqb_spec src ""); [done|].
  rewrite bool_decide_eq_true_2 by done. cbn [negb orb].
  cbn [Uigdrive.App.tab_name Uigdrive.App.with_stop_event Uigdrive.App.with_stop
       Uigdrive.App.with_start Uigdrive.App.with_status Uigdrive.App.with_bar
       Uigdrive.App.gdrive_service].
  rewrite Hn, Hg, Hname, Hsvc. reflexivity.
Qed.

Lemma error_message_detaches_the_worker_witness :
  exists app' st',
    Uigdrive.App._process_queue Uigdrive.App.init
      (tagged "GDrive Transfer"
         ([Status "Checking for existing files..."] ++
          Error "Failed to process a.txt: Permission denied: /s/a.txt" ::
          [Downloading 50 "b.txt"])) = (app', []) /\
    Uigdrive.App.tab_states app' !! "GDrive Transfer" = Some st' /\
    rearmed st' /\
    Uigdrive.App.cancel_transfer st' = st'.
Proof.
  destruct (error_message_detaches_the_worker Uigdrive.App.init "GDrive Transfer"
              (Uigdrive.App.create_tab2 "GDrive Transfer")
              [Status "Checking for existing files..."] [Downloading 50 "b.txt"]
              "Failed to process a.txt: Permission denied: /s/a.txt")
    as (app' & st' & H1 & H2 & H3 & H4 & _).
  - discriminate.
  - vm_compute. reflexivity.
  - repeat constructor; cbn; tauto.
  - by exists app', st'.
Defined.

(** X17.  Messages that do not name a tab leave that tab as it is,
    whatever they are and whether or not the loop runs to the end. *)
Theorem other_tabs_are_untouched (app : Uigdrive.App.App) (queue : list Uigdrive.App.Msg)
    (tab : string) :
  Forall (fun msg => Uigdrive.App.tab_id msg <> Some tab) queue ->
  Uigdrive.App.tab_states (fst (Uigdrive.App._process_queue app queue)) !! tab =
    Uigdrive.App.tab_states app !! tab.
Proof.
  intros H. revert app. induction H as [|msg queue Hmsg _ IH]; intros app; [done|].
  cbn [Uigdrive.App._process_queue].
  assert (Hone : Uigdrive.App.tab_states (fst (Uigdrive.App.process_msg app msg)) !! tab =
                 Uigdrive.App.tab_states app !! tab).
  { unfold Uigdrive.App.process_msg.
    destruct (Uigdrive.App.tab_id msg) as [id|]; [|done].
    destruct (String.eqb id ""); [done|].
    destruct (Uigdrive.App.tab_states app !! id); [|done].
    cbn. rewrite lookup_insert_ne; [done|]. by intros ->. }
  destruct (snd (Uigdrive.App.process_msg app msg)).
  - by rewrite IH.
  - exact Hone.
Qed.

Lemma every_run_rearms_its_tab_witness :
  let w := Samples.w_fresh in
  let w' := snd (thread_run (Uigdrive.App.LocalThread (Samples.session "/s" "/d")) w) in
  exists app' st',
    Uigdrive.App._process_queue Uigdrive.App.init
      (tagged "Local Transfer" (new_events w w')) = (app', []) /\
    Uigdrive.App.tab_states app' !! "Local Transfer" = Some st' /\
    rearmed st' /\
    forall other, other <> "Local Transfer" ->
      Uigdrive.App.tab_states app' !! other =
      Uigdrive.App.tab_states Uigdrive.App.init !! other.
Proof.
  apply (every_run_rearms_its_tab Uigdrive.App.init "Local Transfer"
           (Uigdrive.App.create_tab1 "Local Transfer")
           (Uigdrive.App.LocalThread (Samples.session "/s" "/d")) Samples.w_fresh).
  - discriminate.
  - vm_compute. reflexivity.
Defined.

Lemma other_tabs_are_untouched_witness :
  Uigdrive.App.tab_states
    (fst (Uigdrive.App._process_queue Uigdrive.App.init
            (tagged "GDrive Transfer" [Status "Checking for existing files..."; Cancelled])))
    !! "Local Transfer" =
  Uigdrive.App.tab_states Uigdrive.App.init !! "Local Transfer".
Proof.
  apply (other_tabs_are_untouched Uigdrive.App.init
           (tagged "GDrive Transfer" [Status "Checking for existing files..."; Cancelled])
           "Local Transfer").
  repeat constructor; cbn; discriminate.
Defined.

(** *** The window of uipytest.py *)

Lemma uipytest_downloading_keeps_buttons evs : forall app,
  Forall is_downloading evs ->
  Uipytest.App.start_btn (Uipytest.App._process_queue app evs) = Uipytest.App.start_btn app /\
  Uipytest.App.stop_btn (Uipytest.App._process_queue app evs) = Uipytest.App.stop_btn app /\
  Uipytest.App.worker (Uipytest.App._process_queue app evs) = Uipytest.App.worker app.
Proof.
  induction evs as [|ev evs IH]; intros app H; [done|].
  inversion H as [|? ? Hev Hrest]; subst.
  unfold Uipytest.App._process_queue. cbn [foldl].
  destruct (IH (Uipytest.App.process_msg app ev) Hrest) as (Hs & Hp & Hw).
  unfold Uipytest.App._process_queue in Hs, Hp, Hw. rewrite Hs, Hp, Hw.
  by destruct ev.
Qed.

(** X18.  The window of uipytest.py has no branch for the Cancelled
    message: after a run that ends with it, Start, Cancel and the worker
    are exactly as before the messages were taken off the queue, so a
    window whose Start was disabled stays so. *)
Theorem cancelled_run_leaves_window_disarmed (self : Session) (w : World)
    (app : Uipytest.App.App) :
  let w' := snd (Uipytest.transfer.run self w) in
  last (progress_queue w') = Some Cancelled ->
  let app' := Uipytest.App._process_queue app (new_events w w') in
  Uipytest.App.start_btn app' = Uipytest.App.start_btn app /\
  Uipytest.App.stop_btn app' = Uipytest.App.stop_btn app /\
  Uipytest.App.worker app' = Uipytest.App.worker app.
Proof.
  intros w' Hlast app'. subst w' app'.
  destruct (transfer_run_cases self w) as (w1 & term & Hev & Hrun & Hterm).
  rewrite Hrun in *. cbn [snd progress_queue set_progress_queue] in *.
  rewrite last_snoc in Hlast. injection Hlast as ->.
  destruct Hev as (_ & _ & _ & _ & _ & _ & _ & _ & _ & evs & Hq & Hdl).
  rewrite (new_events_app w _ (evs ++ [Cancelled])).
  2:{ cbn. by rewrite Hq, <- app_assoc. }
  unfold Uipytest.App._process_queue. rewrite foldl_app. cbn [foldl Uipytest.App.process_msg].
  by apply uipytest_downloading_keeps_buttons.
Qed.

Lemma cancelled_run_leaves_window_disarmed_witness :
  let w := set_stop_event (Some O) Samples.w_fresh in
  let w' := snd (Uipytest.transfer.run (Samples.session "/s" "/d") w) in
  let app := fst (Uipytest.App.start_transfer "/s" "/d" Uipytest.App.init) in
  let app' := Uipytest.App._process_queue app (new_events w w') in
  Uipytest.App.start_btn app' = Uipytest.App.start_btn app /\
  Uipytest.App.stop_btn app' = Uipytest.App.stop_btn app /\
  Uipytest.App.worker app' = Uipytest.App.worker app.
Proof.
  apply (cancelled_run_leaves_window_disarmed (Samples.session "/s" "/d")
           (set_stop_event (Some O) Samples.w_fresh)
           (fst (Uipytest.App.start_transfer "/s" "/d" Uipytest.App.init))).
  vm_compute. reflexivity.
Defined.


(** ** The batch programs *)

Lemma write_chunks_spec d cs : forall w data r,
  fs w !! d = Some (RegFile data (clock w) r) ->
  Pytest.write_chunks d cs w =
    (Ok tt, set_fs (<[d := RegFile (data ++ concat cs) (clock w) r]> (fs w)) w).
Proof.
  induction cs as [|c cs IH]; intros w data r Hd.
  - cbn. rewrite app_nil_r, insert_id by done. by destruct w.
  - cbn [Pytest.write_chunks]. unfold bind at 1, os.write, bind at 1, get.
    rewrite Hd. unfold modify at 1.
    rewrite (IH _ (data ++ c) r) by (cbn; by rewrite lookup_insert_eq).
    cbn. unfold set_fs. cbn. by rewrite insert_insert_eq, <- app_assoc.
Qed.

Lemma pytest_copy_spec w s d position data mt :
  fs w !! s = Some (RegFile data mt true) -> s <> d ->
  not_a_file w (parent d) -> writable w d ->
  Pytest.copy_file_with_progress s d position w =
    if bool_decide (d ∈ nometa w)
    then (Ok (error, "Error " +:+ s +:+ ": Operation not permitted: " +:+ d),
          set_fs (<[d := RegFile data (clock w) (dst_flag w d)]> (fs w)) w)
    else (Ok (updated, "Updated: " +:+ name s),
          set_fs (<[d := RegFile data mt true]> (fs w)) w).
Proof.
  intros Hs Hsd Hmk Hwr.
  unfold Pytest.copy_file_with_progress, try.
  mstep (mkdir_ok w (parent d) Hmk).
  mstep (stat_Some w s _ Hs).
  mstep (open_rb_ok w s _ _ Hs).
  mstep (open_wb_ok w d Hwr).
  unfold bind at 1.
  rewrite (write_chunks_spec d _ _ [] (dst_flag w d)) by (cbn; by rewrite lookup_insert_eq).
  cbn [app]. rewrite chunks_concat by lia.
  unfold bind at 1.
  erewrite copystat_spec.
  2:{ cbn. rewrite !lookup_insert_ne by done. exact Hs. }
  2:{ cbn. by rewrite lookup_insert_eq. }
  cbn [nometa set_fs fs clock].
  destruct (bool_decide (d ∈ nometa w)).
  - unfold ret, set_fs. cbn. by rewrite !insert_insert_eq.
  - unfold ret, set_fs. cbn. by rewrite !insert_insert_eq.
Qed.

(** X20.  In pytest.py, a copy that can copy the metadata leaves at
    the destination the source's bytes with the source's modification
    time, and [process_file] on the same pair then reports Skipped and
    changes nothing. *)
Theorem pytest_copy_then_skip (w : World) (s d : string) (position : nat)
    (data : list byte) (mt : Q) :
  fs w !! s = Some (RegFile data mt true) -> s <> d ->
  not_a_file w (parent d) -> writable w d -> d ∉ nometa w ->
  let w' := set_fs (<[d := RegFile data mt true]> (fs w)) w in
  Pytest.copy_file_with_progress s d position w =
    (Ok (updated, "Updated: " +:+ name s), w') /\
  Pytest.process_file s d position w' = (Ok (skipped, "Skipped: " +:+ name s), w').
Proof.
  intros Hs Hsd Hmk Hwr Hmeta w'. split.
  - rewrite (pytest_copy_spec w s d position data mt Hs Hsd Hmk Hwr).
    by rewrite bool_decide_eq_false_2.
  - assert (Hs' : fs w' !! s = Some (RegFile data mt true)).
    { cbn. by rewrite lookup_insert_ne. }
    assert (Hd' : fs w' !! d = Some (RegFile data mt true)).
    { cbn. by rewrite lookup_insert_eq. }
    unfold Pytest.process_file.
    unfold bind at 1. rewrite (pytest_needs_update_spec w' s d _ Hs').
    2:{ intros nd. rewrite Hd'. intros [= <-] _ _. cbn. eauto. }
    unfold needs_update_answer. rewrite Hd', Hs'. cbn [st_size st_mtime digest_of].
    rewrite Z.eqb_refl. cbn [negb].
    destruct (Z.gtb_spec (int mt) (int mt)); [lia|].
    by rewrite String.eqb_refl.
Qed.

Lemma pytest_copy_then_skip_witness :
  let w := Samples.w_empty_file in
  let w' := set_fs (<["/d/e" := RegFile [] (5 # 1) true]> (fs w)) w in
  Pytest.copy_file_with_progress "/s/e" "/d/e" 0 w = (Ok (updated, "Updated: e"), w') /\
  Pytest.process_file "/s/e" "/d/e" 0 w' = (Ok (skipped, "Skipped: e"), w').
Proof.
  apply (pytest_copy_then_skip Samples.w_empty_file "/s/e" "/d/e" 0 [] (5 # 1)).
  - reflexivity.
  - discriminate.
  - vm_compute. exact I.
  - split; [vm_compute; set_solver | vm_compute; exact I].
  - vm_compute. set_solver.
Defined.



(** *** filetransferer.py *)

Lemma map_files_total files : forall pbar w,
  exists pbar' w',
    Filetransferer.map_files files pbar w = (Ok pbar', w') /\
    Filetransferer.total pbar' = Filetransferer.total pbar.
Proof.
  induction files as [|[s d] files IH]; intros pbar w; cbn [Filetransferer.map_files].
  - by exists pbar, w.
  - unfold bind at 1, try.
    assert (Hstep : exists pbar1 w1,
              match Filetransferer.copy_file s d pbar w with
              | (Ok a, w') => (Ok a, w')
              | (Raise e, w') => ret pbar w'
              end = (Ok pbar1, w1) /\
              Filetransferer.total pbar1 = Filetransferer.total pbar).
    { unfold Filetransferer.copy_file, bind, ret.
      destruct (os.mkdir (parent d) w) as [[[]|e] w1]; [|by eexists _, _].
      destruct (shutil.copy2 s d w1) as [[[]|e] w2]; [|by eexists _, _].
      destruct (os.stat s w2) as [[ns|e] w3]; by eexists _, _. }
    destruct Hstep as (pbar1 & w1 & -> & Ht).
    destruct (IH pbar1 w1) as (pbar' & w' & -> & Ht').
    exists pbar', w'. split; [done|]. congruence.
Qed.

Lemma totalsize_spec {A} (size : Z) (files : list A) : forall t,
  foldl (fun t _ => t + size) t files = t + Z.of_nat (length files) * size.
Proof.
  induction files as [|f files IH]; intros t; cbn [foldl length]; [lia|].
  rewrite IH. lia.
Qed.

(** X24.  [foldercopy] never raises on a source folder, and the total of
    its progress bar is the number of files times the size [getsize]
    reports for the folder itself, whatever the sizes of the files. *)
Theorem foldercopy_bar_total (src dst : string) (w : World)
    (walked : list (string * list string)) (sz : Z) (mt : Q) :
  fs w !! src = Some (Directory walked sz mt) ->
  let files := tasks_of src (joinpath dst (name src)) walked in
  exists pbar w',
    Filetransferer.foldercopy src dst w = (Ok pbar, w') /\
    Filetransferer.total pbar = Z.of_nat (length files) * sz.
Proof.
  intros Hsrc files. unfold Filetransferer.foldercopy.
  mstep (stat_Some w src _ Hsrc). mstep (walk_spec w src _ _ _ Hsrc).
  fold (tasks_of src (joinpath dst (name src)) walked). fold files.
  cbn [st_size]. rewrite totalsize_spec.
  destruct (map_files_total files
              {| Filetransferer.total := 0 + Z.of_nat (length files) * sz;
                 Filetransferer.n := 0 |} w) as (pbar & w' & Hrun & Ht).
  exists pbar, w'. split; [exact Hrun|]. cbn in Ht. lia.
Qed.

Lemma foldercopy_bar_total_witness :
  exists pbar w',
    Filetransferer.foldercopy "/s" "/d" Samples.w_fresh = (Ok pbar, w') /\
    Filetransferer.total pbar =
      Z.of_nat (length (tasks_of "/s" (joinpath "/d" (name "/s")) [("/s", ["e"; "a"])])) * 4096.
Proof.
  apply (foldercopy_bar_total "/s" "/d" Samples.w_fresh [("/s", ["e"; "a"])] 4096 (1 # 1)).
  reflexivity.
Defined.


(** * Cancellation, the terminal event, the threshold and re-runs *)

(** ** What a result says of the stop event *)



Lemma yields_in_tag {A} (f : A -> Result) (m : M A) :
  yields (fun a => fst (f a) <> cancelled) m ->
  yields_in (fun a w => cancelled_is_set (f a) w) m.
Proof. intros Hm w a w' H Hc. by apply (Hm w a w' H) in Hc. Qed.














(** ** The event a run ends on *)





(** A run of [GDriveTransfer] in which one file of two cannot be read:
    the failure is published when it happens, and the run ends on Done. *)
Lemma gdrive_failed_file_ends_done :
  progress_queue (snd (Uigdrive.GDriveTransfer.run (Samples.session "/s" "")
                         (set_stop_event None Samples.w_two_files_unreadable)))
  = [Status "Finding destination folder on Drive...";
     Status "Creating new folder: 's'...";
     Status "Checking for existing files...";
     Error "Failed to process a: Permission denied: /s/a";
     Downloading 50 "b";
     Done (Some "Upload Complete! 1 uploaded, 0 skipped. Folder: https://drive.google.com/drive/folders/1")].
Proof. vm_compute. reflexivity. Qed.

(** ** The threshold *)





(** ** Running a sync twice *)

(** When the answer is "no copy", no variant of [needs_update] raises. *)
Lemma needs_update_settled (w : World) (s d : string) :
  needs_update_answer w s d = false -> needs_update_returns w s d false.
Proof.
  intros Hans. pose proof Hans as Hans'. unfold needs_update_answer in Hans'.
  destruct (fs w !! d) as [nd|] eqn:Hd; [|done].
  destruct (fs w !! s) as [ns|] eqn:Hs; [|done].
  rewrite <- Hans. apply (needs_update_returns_answer w s d ns Hs).
  intros nd' Hd' Hsz Hmt. rewrite Hd in Hd'. injection Hd' as <-.
  rewrite Hsz, Z.eqb_refl in Hans'. cbn [negb] in Hans'.
  destruct (Z.gtb_spec (int (st_mtime ns)) (int (st_mtime nd))); [lia|].
  destruct (digest_of (Some ns)), (digest_of (Some nd)); try done.
Qed.

(** C8 (as stated, refuted).  The only file of the folder is stamped
    later than the clock and the destination refuses [copystat].  The
    first run reports Updated and no Error; the destination is left
    stamped with the time of the copy, older than the source, so every
    variant of [needs_update] asks for a copy again and the second run,
    with nothing changed in between, reports Updated again. *)
Lemma resync_copies_again :
  let first := Uipytest.transfer.sync_folder (Samples.session "/s" "/d")
                 Samples.w_future in
  let second := Uipytest.transfer.sync_folder (Samples.session "/s" "/d") (snd first) in
  fst first = Ok [(updated, "Updated: /s/a")] /\
  needs_update_returns (snd first) "/s/a" "/d/s/a" true /\
  fst second = Ok [(updated, "Updated: /s/a")].
Proof. vm_compute. repeat split; reflexivity. Qed.

(** C8 (amended).  Running the same folder sync a second time, with
    nothing changed in between, yields only Skipped results and leaves
    the file system as the first run left it, when the first run was not
    cancelled and reported no Error, the destinations are pairwise
    distinct, are no sources and lie outside the source tree (so that the
    second walk lists what the first did), and the metadata of every copy
    settles: [copystat] works, or the destination stays readable and the
    source is not stamped later than the copy.  After such a first run
    every variant of [needs_update] answers False on every task.  In
    particular an empty file is Updated by the first run and Skipped by
    the second. *)
Theorem resync_skips_everything :
  (forall (self : Session) (w w1 : World) (results : list Result)
          (walked : list (string * list string)) (sz : Z) (mt : Q),
     let dst_root := joinpath (dst self) (name (src self)) in
     let tasks := tasks_of (src self) dst_root walked in
     stop_event w = None ->
     fs w !! src self = Some (Directory walked sz mt) ->
     NoDup (map snd tasks) ->
     (forall d, d ∈ map snd tasks ->
        (d ∉ map fst tasks) /\ d <> dst_root /\ under (src self) d = false) ->
     (forall s d, (s, d) ∈ tasks -> metadata_settles w s d) ->
     Uipytest.transfer.sync_folder self w = (Ok results, w1) ->
     Forall ok_tag results ->
     length results = length tasks /\
     (forall s d, (s, d) ∈ tasks -> needs_update_returns w1 s d false) /\
     exists w2,
       Uipytest.transfer.sync_folder self w1 = (Ok (skipped_results tasks), w2) /\
       fs w2 = fs w1) /\
  (let first := Uipytest.transfer.sync_file (Samples.session "/s/e" "/d")
                  Samples.w_empty_file in
   let second := Uipytest.transfer.sync_file (Samples.session "/s/e" "/d") (snd first) in
   fst first = Ok [(updated, "Updated: /s/e")] /\
   fst second = Ok [(skipped, "Skipped: /s/e")] /\
   fs (snd second) = fs (snd first)).
Proof.
  split.
  - intros self w w1 results walked sz mt dst_root tasks Hstop Hsrc Hnd Hsep Hmeta Hrun Hok.
    assert (Hout : forall d, d ∈ map snd tasks -> d <> src self).
    { intros d Hd ->. destruct (Hsep _ Hd) as (_ & _ & Hu).
      unfold under in Hu. by rewrite String.eqb_refl in Hu. }
    assert (Hmk : not_a_file w dst_root).
    { unfold Uipytest.transfer.sync_folder in Hrun.
      apply bind_inv in Hrun as (u & wa & Hmk & _). by apply mkdir_inv in Hmk as [Hmk _]. }
    destruct (transfer_sync_folder_spec self w walked sz mt Hsrc Hmk) as (total & Heq).
    rewrite Heq in Hrun. fold dst_root in Hrun. fold tasks in Hrun.
    destruct (transfer_collect_settles total tasks [] (set_current_size 0 w) results w1)
      as (Hlen & Hstop1 & Hframe & Hall); try done.
    { intros d Hd. by apply Hsep. }
    split; [done|]. split.
    { intros s d Hin. by apply needs_update_settled, Hall. }
    assert (Hsrc1 : fs w1 !! src self = Some (Directory walked sz mt)).
    { rewrite Hframe; [done|]. intros Hin. by apply (Hout _ Hin). }
    assert (Hmk1 : not_a_file w1 dst_root).
    { unfold not_a_file. rewrite Hframe; [done|].
      intros Hin. by destruct (Hsep _ Hin) as (_ & ? & _). }
    destruct (transfer_sync_folder_spec self w1 walked sz mt Hsrc1 Hmk1) as (total1 & Heq1).
    rewrite Heq1. fold dst_root. fold tasks.
    destruct (transfer_collect_skips total1 tasks [] (set_current_size 0 w1)) as (evs & -> & _);
      try done.
    eexists. split; reflexivity.
  - vm_compute. repeat split; reflexivity.
Qed.

Lemma resync_skips_everything_witness :
  exists w2,
    Uipytest.transfer.sync_folder (Samples.session "/s" "/d")
      (snd (Uipytest.transfer.sync_folder (Samples.session "/s" "/d") Samples.w_fresh))
    = (Ok [(skipped, "Skipped: /s/e"); (skipped, "Skipped: /s/a")], w2) /\
    fs w2 = fs (snd (Uipytest.transfer.sync_folder (Samples.session "/s" "/d")
                       Samples.w_fresh)).
Proof.
  refine (proj2 (proj2 (proj1 resync_skips_everything (Samples.session "/s" "/d")
            Samples.w_fresh
            (snd (Uipytest.transfer.sync_folder (Samples.session "/s" "/d") Samples.w_fresh))
            [(updated, "Updated: /s/e"); (updated, "Updated: /s/a")]
            [("/s", ["e"; "a"])] 4096 (1 # 1) eq_refl eq_refl _ _ _ _ _))).
  - apply (bool_decide_unpack _). vm_compute. exact I.
  - intros d Hd. apply list_elem_of_In in Hd. cbn in Hd.
    destruct Hd as [<- | [<- | []]]; (split; [|split; [discriminate|reflexivity]]);
      intros Hin; apply list_elem_of_In in Hin; cbn in Hin;
      destruct Hin as [Hin | [Hin | []]]; discriminate.
  - intros s d _. left. apply not_elem_of_empty.
  - vm_compute. reflexivity.
  - repeat constructor.
Defined.
